(** * md-browser: the file-manager HTTP handlers and the URL parser

    A shallow embedding of [mngr_httpd.c] (parameter decoder, transfer
    context pools, chunked upload and download handlers, delete handler, raw
    POST upload callbacks) and of [parseUrl] from [download.c], followed by
    the properties the design document states about them.

    Conventions.  A C [char] is an [ascii]; a buffer (a [char] array, the
    bytes of a file) is a [list ascii]; a [string] stands for the characters
    of a C string before its terminator.  Sizes and indices that the code
    keeps in [size_t]/[UINT] and that cannot wrap are [nat]; [int] and
    [DWORD] arithmetic that can wrap is done in [Z] with the reduction
    written out. *)

From Stdlib Require Import ZArith Ascii String Lia DecimalString DecimalNat.
From stdpp Require Import base option list gmap strings.

(** ** C characters, buffers and strings *)

Module CStr.

Definition NUL : ascii := "000"%char.

Definition code (c : ascii) : Z := Z.of_N (N_of_ascii c).
Definition chr (z : Z) : ascii := ascii_of_N (Z.to_N (z mod 256)).

Definition chars (s : string) : list ascii := list_ascii_of_string s.
Definition text (l : list ascii) : string := string_of_list_ascii l.

(** [buf[i]]; one position past the stored characters is the terminator. *)
Definition rd (buf : list ascii) (i : nat) : ascii := nth i buf NUL.

Definition is_nul (c : ascii) : bool := Ascii.eqb c NUL.

(** The characters of a buffer read as a C string. *)
Fixpoint c_str (buf : list ascii) : list ascii :=
  match buf with
  | [] => []
  | c :: rest => if is_nul c then [] else c :: c_str rest
  end.

(** [isxdigit], [isdigit], [isspace] and [toupper] in the "C" locale. *)
Definition isxdigit (c : ascii) : bool :=
  let n := code c in
  ((48 <=? n) && (n <=? 57) || (65 <=? n) && (n <=? 70) ||
   (97 <=? n) && (n <=? 102))%Z.

Definition isdigit (c : ascii) : bool :=
  let n := code c in ((48 <=? n) && (n <=? 57))%Z.

Definition isspace (c : ascii) : bool :=
  let n := code c in ((n =? 32) || (9 <=? n) && (n <=? 13))%Z.

Definition toupper (c : ascii) : Z :=
  let n := code c in
  (if (97 <=? n) && (n <=? 122) then n - 32 else n)%Z.

(** [strncpy(dst, src, n); dst[n] = 0] read back as a string. *)
Definition strncpy_str (src : string) (n : nat) : string :=
  text (take n (chars src)).

(** [strstr], [strchr], [strrchr]: the offset of the match, [None] for the
    null pointer. *)
Fixpoint is_prefix (p s : list ascii) : bool :=
  match p, s with
  | [], _ => true
  | a :: p', b :: s' => Ascii.eqb a b && is_prefix p' s'
  | _ :: _, [] => false
  end.

Fixpoint strstr (hay needle : list ascii) : option nat :=
  if is_prefix needle hay then Some 0
  else match hay with
       | [] => None
       | _ :: rest => S <$> strstr rest needle
       end.

Fixpoint strchr (s : list ascii) (c : ascii) : option nat :=
  match s with
  | [] => None
  | a :: rest => if Ascii.eqb a c then Some 0 else S <$> strchr rest c
  end.

Fixpoint strrchr (s : list ascii) (c : ascii) : option nat :=
  match s with
  | [] => None
  | a :: rest =>
    match strrchr rest c with
    | Some k => Some (S k)
    | None => if Ascii.eqb a c then Some 0 else None
    end
  end.

(** [atoi], as [(int) strtol(s, NULL, 10)] of the C library in use: leading
    white space, an optional sign, decimal digits, the value saturated to the
    range of a 32-bit [long]. *)
Fixpoint skip_spaces (s : list ascii) : list ascii :=
  match s with
  | c :: rest => if isspace c then skip_spaces rest else s
  | [] => []
  end.

Fixpoint digits_value (s : list ascii) (acc : Z) : Z :=
  match s with
  | c :: rest =>
    if isdigit c then digits_value rest (10 * acc + (code c - 48))%Z else acc
  | [] => acc
  end.

Definition INT_MAX : Z := 2147483647.
Definition INT_MIN : Z := -2147483648.

Definition atoi (s : list ascii) : Z :=
  let s1 := skip_spaces s in
  let '(neg, s2) :=
    match s1 with
    | c :: rest =>
      if Ascii.eqb c "-" then (true, rest)
      else if Ascii.eqb c "+" then (false, rest) else (false, s1)
    | [] => (false, s1)
    end in
  let v := digits_value s2 0 in
  (Z.max INT_MIN (Z.min INT_MAX (if neg then - v else v)))%Z.

(** Conversions to the 32-bit unsigned types [unsigned] and [DWORD]. *)
Definition u32 (z : Z) : Z := (z mod 4294967296)%Z.

(** The decimal text of a number, as a client or [printf("%u")] writes it. *)
Definition dec (n : nat) : string := NilEmpty.string_of_uint (Nat.to_uint n).

End CStr.
Export CStr.

(** ** The parameter decoder *)

(** [hi >= 'A' ? (toupper(hi) - 'A' + 10) : (hi - '0')] *)
Definition hex_nibble (c : ascii) : Z :=
  (if 65 <=? code c then toupper c - 65 + 10 else code c - 48)%Z.

(** One pass of the [for] loop of [url_decode] per unit of fuel.  Every pass
    stores exactly one byte and needs [o < outLen - 1], so [outLen - 1] units
    always suffice. *)
Fixpoint url_decode_loop (fuel : nat) (inp : list ascii) (outLen : nat)
    (i o : nat) (out : list ascii) : nat * list ascii :=
  match fuel with
  | O => (o, out)
  | S fuel' =>
    if negb (is_nul (rd inp i)) && (o <? outLen - 1) then
      if Ascii.eqb (rd inp i) "%" && isxdigit (rd inp (i + 1))
         && isxdigit (rd inp (i + 2)) then
        let hi := rd inp (i + 1) in
        let lo := rd inp (i + 2) in
        let high := hex_nibble hi in
        let low := hex_nibble lo in
        url_decode_loop fuel' inp outLen (i + 2 + 1) (o + 1)
          (<[o := chr (Z.lor (Z.shiftl high 4) low)]> out)
      else if Ascii.eqb (rd inp i) "+" then
        url_decode_loop fuel' inp outLen (i + 1) (o + 1) (<[o := " "%char]> out)
      else
        url_decode_loop fuel' inp outLen (i + 1) (o + 1) (<[o := rd inp i]> out)
    else (o, out)
  end.

(** [url_decode(in, out, outLen)]: [None] is the null pointer; the result is
    the returned flag and the output buffer after the call. *)
Definition url_decode (inp out : option (list ascii)) (outLen : nat)
    : bool * option (list ascii) :=
  match inp, out with
  | Some src, Some dst =>
    if outLen =? 0 then (false, out)
    else
      let '(o, dst') := url_decode_loop (outLen - 1) src outLen 0 0 dst in
      (true, Some (<[o := NUL]> dst'))
  | _, _ => (false, out)
  end.

(** The decoding as the design document words it, by recursion on the text:
    [%XX] is the byte with hexadecimal digits [XX] (either case), [+] is a
    space, any other character is itself. *)
Definition hex_digits_lower : list ascii := chars "0123456789abcdef".
Definition hex_digits_upper : list ascii := chars "0123456789ABCDEF".

Definition position (c : ascii) (table : list ascii) : option nat :=
  fst <$> list_find (λ a, a = c) table.

Definition hex_digit_value (c : ascii) : option Z :=
  Z.of_nat <$> (position c hex_digits_lower ∪ position c hex_digits_upper).

Definition percent_byte (h l : ascii) : option ascii :=
  match hex_digit_value h, hex_digit_value l with
  | Some a, Some b => Some (chr (16 * a + b))
  | _, _ => None
  end.

Definition plus_or_self (c : ascii) : ascii :=
  if Ascii.eqb c "+" then " "%char else c.

Fixpoint percent_decode (s : list ascii) : list ascii :=
  match s with
  | [] => []
  | c :: rest =>
    match rest with
    | h :: l :: rest' =>
      match (if Ascii.eqb c "%" then percent_byte h l else None) with
      | Some b => b :: percent_decode rest'
      | None => plus_or_self c :: percent_decode rest
      end
    | _ => plus_or_self c :: percent_decode rest
    end
  end.

(** A string parameter decoded into a local array of [size] chars and read
    back as a C string, as every handler does with its path parameters.  The
    array is uninitialised in the source; its prior content never shows. *)
Definition decode_param (value : string) (size : nat) : option (list ascii) :=
  match url_decode (Some (chars value)) (Some (replicate size NUL)) size with
  | (true, Some buf) => Some (c_str buf)
  | _ => None
  end.

(** ** Base64 (the mbedtls collaborator) *)

Module Base64.

(** mbedtls is outside this repository.  Its two entry points are modelled
    from their documented contract: the RFC 4648 alphabet with [=] padding,
    [MBEDTLS_ERR_BASE64_BUFFER_TOO_SMALL] when the destination cannot hold
    the result (plus the terminator, when encoding) and
    [MBEDTLS_ERR_BASE64_INVALID_CHARACTER] for text that is not base64.  The
    line breaks that the decoder tolerates are not modelled. *)
Definition alphabet : list ascii :=
  chars "ABCDEFGHIJKLMNOPQRSTUVWXYZabcdefghijklmnopqrstuvwxyz0123456789+/".

Definition PAD : ascii := "="%char.

Definition enc6 (v : Z) : ascii := nth (Z.to_nat v) alphabet PAD.

Definition dec6 (c : ascii) : option Z :=
  (λ r, Z.of_nat (fst r)) <$> list_find (λ a, a = c) alphabet.

Fixpoint base64_encode (src : list ascii) : list ascii :=
  match src with
  | [] => []
  | [a] =>
    let x := code a in
    [enc6 (x / 4); enc6 ((x mod 4) * 16); PAD; PAD]%Z
  | [a; b] =>
    let x := code a in
    let y := code b in
    [enc6 (x / 4); enc6 ((x mod 4) * 16 + y / 16); enc6 ((y mod 16) * 4);
     PAD]%Z
  | a :: b :: c :: rest =>
    let x := code a in
    let y := code b in
    let z := code c in
    ([enc6 (x / 4); enc6 ((x mod 4) * 16 + y / 16);
      enc6 ((y mod 16) * 4 + z / 64); enc6 (z mod 64)]%Z) ++ base64_encode rest
  end.

Fixpoint base64_decode (s : list ascii) : option (list ascii) :=
  match s with
  | [] => Some []
  | c0 :: c1 :: c2 :: c3 :: rest =>
    v0 ← dec6 c0; v1 ← dec6 c1;
    if Ascii.eqb c3 PAD then
      match rest with
      | [] =>
        if Ascii.eqb c2 PAD then Some [chr (v0 * 4 + v1 / 16)]%Z
        else
          v2 ← dec6 c2;
          Some [chr (v0 * 4 + v1 / 16); chr ((v1 mod 16) * 16 + v2 / 4)]%Z
      | _ :: _ => None
      end
    else
      v2 ← dec6 c2; v3 ← dec6 c3;
      tail ← base64_decode rest;
      Some ([chr (v0 * 4 + v1 / 16); chr ((v1 mod 16) * 16 + v2 / 4);
             chr ((v2 mod 4) * 64 + v3)]%Z ++ tail)
  | _ => None
  end.

Definition ERR_BUFFER_TOO_SMALL : Z := -42.
Definition ERR_INVALID_CHARACTER : Z := -44.

(** [mbedtls_base64_encode(dst, dlen, &olen, src, slen)]: the return code
    and the [olen] characters written. *)
Definition mbedtls_base64_encode (dlen : nat) (src : list ascii)
    : Z * list ascii :=
  let out := base64_encode src in
  if length out <? dlen then (0%Z, out) else (ERR_BUFFER_TOO_SMALL, []).

(** [mbedtls_base64_decode(dst, dlen, &olen, src, slen)]. *)
Definition mbedtls_base64_decode (dlen : nat) (src : list ascii)
    : Z * list ascii :=
  match base64_decode src with
  | None => (ERR_INVALID_CHARACTER, [])
  | Some out =>
    if length out <=? dlen then (0%Z, out) else (ERR_BUFFER_TOO_SMALL, [])
  end.

End Base64.
Export Base64.

(** ** The FAT volume (the FatFs collaborator) *)

Module FatFs.

(** FatFs is outside this repository.  The calls the handlers make are
    modelled from its documented contract over an in-memory volume: a finite
    map from paths (lists of component names; the empty path is the root
    directory) to files and directories, and a count of free bytes that
    growing a file consumes.  Attributes, timestamps, open-object locking
    and media faults are not modelled; the bytes that [f_lseek] exposes when
    it extends a file, unspecified in FatFs, are NULs here. *)
Inductive FRESULT :=
| FR_OK | FR_DISK_ERR | FR_INT_ERR | FR_NOT_READY | FR_NO_FILE | FR_NO_PATH
| FR_INVALID_NAME | FR_DENIED | FR_EXIST | FR_INVALID_OBJECT.

Global Instance FRESULT_eq_dec : EqDecision FRESULT.
Proof. solve_decision. Defined.

Definition fresult_code (r : FRESULT) : Z :=
  match r with
  | FR_OK => 0 | FR_DISK_ERR => 1 | FR_INT_ERR => 2 | FR_NOT_READY => 3
  | FR_NO_FILE => 4 | FR_NO_PATH => 5 | FR_INVALID_NAME => 6
  | FR_DENIED => 7 | FR_EXIST => 8 | FR_INVALID_OBJECT => 9
  end%Z.

Inductive node :=
| File (data : list ascii)
| Dir.

Record volume := Volume {
  entries : gmap (list string) node;
  free_bytes : nat
}.

Definition AM_DIR : Z := 16.
Definition FA_READ : Z := 1.
Definition FA_WRITE : Z := 2.
Definition FA_CREATE_ALWAYS : Z := 8.

Record FIL := Fil {
  fil_valid : bool;          (* the object is open *)
  fil_path : list string;    (* the file it is open on *)
  fil_flag : Z;              (* the access mode it was opened with *)
  fptr : nat                 (* the read/write pointer *)
}.

Record DIR := Dirobj {
  dir_valid : bool;
  dir_path : list string;
  dir_index : nat
}.

Record FILINFO := Filinfo {
  fsize : nat;
  fattrib : Z;
  fname : string
}.

Definition closed_fil : FIL := Fil false [] 0 0.
Definition closed_dir : DIR := Dirobj false [] 0.
Definition no_info : FILINFO := Filinfo 0 0 "".

Definition is_sep (c : ascii) : bool := Ascii.eqb c "/" || Ascii.eqb c "\".

(** The components of a path name; repeated and trailing separators are
    skipped. *)
Fixpoint split_path_from (s cur : list ascii) : list string :=
  match s with
  | [] => match cur with [] => [] | _ => [text (reverse cur)] end
  | c :: rest =>
    if is_sep c then
      match cur with
      | [] => split_path_from rest []
      | _ => text (reverse cur) :: split_path_from rest []
      end
    else split_path_from rest (c :: cur)
  end.

Definition split_path (s : list ascii) : list string := split_path_from s [].

Definition lookup_node (v : volume) (p : list string) : option node :=
  match p with
  | [] => Some Dir
  | _ => entries v !! p
  end.

Definition parent (p : list string) : list string := take (length p - 1) p.

Definition is_child (d k : list string) : bool :=
  bool_decide (length k = S (length d) ∧ take (length d) k = d).

(** The entries of directory [d], in the order [f_readdir] reports them. *)
Definition children (v : volume) (d : list string)
    : list (list string * node) :=
  filter (λ kv, is_child d kv.1 = true) (map_to_list (entries v)).

Definition node_size (n : node) : nat :=
  match n with File data => length data | Dir => 0 end.

Definition info_of (p : list string) (n : node) : FILINFO :=
  Filinfo (node_size n)
          (match n with Dir => AM_DIR | File _ => 0%Z end)
          (default "" (last p)).

Definition has_flag (flags bit : Z) : bool := negb (Z.land flags bit =? 0)%Z.

Definition set_entry (v : volume) (p : list string) (n : node) : volume :=
  Volume (<[p := n]> (entries v)) (free_bytes v).

(** [f_open(&fil, path, mode)]: the result, the file object and the volume
    afterwards.  A failed open leaves the object invalid. *)
Definition f_open (v : volume) (path : list ascii) (mode : Z)
    : FRESULT * FIL * volume :=
  let p := split_path path in
  match p with
  | [] => (FR_INVALID_NAME, closed_fil, v)
  | _ =>
    match entries v !! p with
    | Some Dir =>
      (if has_flag mode FA_CREATE_ALWAYS then FR_DENIED else FR_NO_FILE,
       closed_fil, v)
    | Some (File data) =>
      if has_flag mode FA_CREATE_ALWAYS then
        (FR_OK, Fil true p mode 0,
         Volume (<[p := File []]> (entries v)) (free_bytes v + length data))
      else (FR_OK, Fil true p mode 0, v)
    | None =>
      match lookup_node v (parent p) with
      | Some Dir =>
        if has_flag mode FA_CREATE_ALWAYS then
          (FR_OK, Fil true p mode 0, set_entry v p (File []))
        else (FR_NO_FILE, closed_fil, v)
      | _ => (FR_NO_PATH, closed_fil, v)
      end
    end
  end.

Definition f_close (f : FIL) : FRESULT * FIL :=
  if fil_valid f then (FR_OK, Fil false (fil_path f) (fil_flag f) (fptr f))
  else (FR_INVALID_OBJECT, f).

Definition file_data (v : volume) (f : FIL) : option (list ascii) :=
  if fil_valid f then
    match entries v !! fil_path f with
    | Some (File data) => Some data
    | _ => None
    end
  else None.

(** [f_size(&fil)] *)
Definition f_size (v : volume) (f : FIL) : nat :=
  match file_data v f with Some data => length data | None => 0 end.

(** Growing [data] up to [ofs] bytes as far as the free space allows. *)
Definition extend_to (ofs : nat) (data : list ascii) (free : nat)
    : list ascii * nat :=
  let got := (ofs - length data) `min` free in
  (data ++ replicate got NUL, free - got).

(** [f_lseek(&fil, ofs)]: in read mode the pointer is clipped to the size;
    in write mode the file is extended. *)
Definition f_lseek (v : volume) (f : FIL) (ofs : nat)
    : FRESULT * FIL * volume :=
  match file_data v f with
  | None => (FR_INVALID_OBJECT, f, v)
  | Some data =>
    if has_flag (fil_flag f) FA_WRITE then
      let '(data', free') := extend_to ofs data (free_bytes v) in
      (FR_OK, Fil true (fil_path f) (fil_flag f) (ofs `min` length data'),
       Volume (<[fil_path f := File data']> (entries v)) free')
    else
      (FR_OK, Fil true (fil_path f) (fil_flag f) (ofs `min` length data), v)
  end.

(** [f_read(&fil, buf, btr, &br)]: the result, the [br] bytes read and the
    file object afterwards. *)
Definition f_read (v : volume) (f : FIL) (btr : nat)
    : FRESULT * list ascii * FIL :=
  match file_data v f with
  | None => (FR_INVALID_OBJECT, [], f)
  | Some data =>
    if has_flag (fil_flag f) FA_READ then
      let got := take btr (drop (fptr f) data) in
      (FR_OK, got, Fil true (fil_path f) (fil_flag f) (fptr f + length got))
    else (FR_DENIED, [], f)
  end.

(** [f_write(&fil, buf, btw, &bw)]: the result, the count [bw] written, the
    file object and the volume afterwards.  The bytes that fit are those
    that overwrite existing content plus as many as there is free space
    for; when the volume fills up the call still returns [FR_OK], with
    [bw < btw]. *)
Definition f_write (v : volume) (f : FIL) (buf : list ascii)
    : FRESULT * nat * FIL * volume :=
  match file_data v f with
  | None => (FR_INVALID_OBJECT, 0, f, v)
  | Some data =>
    if has_flag (fil_flag f) FA_WRITE then
      let '(data1, free1) := extend_to (fptr f) data (free_bytes v) in
      if length data1 <? fptr f then
        (FR_OK, 0, f, Volume (<[fil_path f := File data1]> (entries v)) free1)
      else
        let n := length buf `min` (length data1 - fptr f + free1) in
        let data2 :=
          take (fptr f) data1 ++ take n buf ++ drop (fptr f + n) data1 in
        (FR_OK, n, Fil true (fil_path f) (fil_flag f) (fptr f + n),
         Volume (<[fil_path f := File data2]> (entries v))
                (free1 - (fptr f + n - length data1)))
    else (FR_DENIED, 0, f, v)
  end.

(** [f_stat(path, &fno)] *)
Definition f_stat (v : volume) (path : list ascii) : FRESULT * FILINFO :=
  let p := split_path path in
  match p with
  | [] => (FR_INVALID_NAME, no_info)
  | _ =>
    match entries v !! p with
    | Some n => (FR_OK, info_of p n)
    | None => (FR_NO_FILE, no_info)
    end
  end.

(** [f_opendir(&dir, path)] *)
Definition f_opendir (v : volume) (path : list ascii) : FRESULT * DIR :=
  let p := split_path path in
  match lookup_node v p with
  | Some Dir => (FR_OK, Dirobj true p 0)
  | _ => (FR_NO_PATH, closed_dir)
  end.

(** [f_readdir(&dir, &fno)]: the next entry, or an empty [fname] at the end
    of the directory. *)
Definition f_readdir (v : volume) (d : DIR) : FRESULT * FILINFO * DIR :=
  if dir_valid d then
    match children v (dir_path d) !! dir_index d with
    | Some (k, n) =>
      (FR_OK, info_of k n, Dirobj true (dir_path d) (S (dir_index d)))
    | None => (FR_OK, no_info, d)
    end
  else (FR_INVALID_OBJECT, no_info, d).

Definition f_closedir (d : DIR) : FRESULT * DIR :=
  if dir_valid d then (FR_OK, Dirobj false (dir_path d) (dir_index d))
  else (FR_INVALID_OBJECT, d).

(** [f_unlink(path)]: removes a file or an empty directory. *)
Definition f_unlink (v : volume) (path : list ascii) : FRESULT * volume :=
  let p := split_path path in
  match p with
  | [] => (FR_INVALID_NAME, v)
  | _ =>
    match entries v !! p with
    | None => (FR_NO_FILE, v)
    | Some n =>
      match n, children v p with
      | Dir, _ :: _ => (FR_DENIED, v)
      | _, _ =>
        (FR_OK, Volume (delete p (entries v)) (free_bytes v + node_size n))
      end
    end
  end.

(** Names on a volume are never empty and hold no NUL: what [f_readdir]
    reports as [fname] for an entry starts with a real character. *)
Definition valid_name (s : string) : Prop :=
  s ≠ "" ∧ NUL ∉ chars s.

Definition valid_volume (v : volume) : Prop :=
  map_Forall (λ p _, p ≠ [] ∧ Forall valid_name p) (entries v).

Global Instance valid_name_dec s : Decision (valid_name s).
Proof. unfold valid_name. apply _. Defined.

Global Instance valid_volume_dec v : Decision (valid_volume v).
Proof. unfold valid_volume. apply _. Defined.

End FatFs.
Export FatFs.

(** ** The HTTP handlers of [mngr_httpd.c] *)

Module Httpd.

Definition MAX_JSON_PAYLOAD_SIZE : nat := 4096.
Definition UPLOAD_CHUNK_SIZE : Z := 4096.
Definition UPLOAD_CHUNK_METHOD : string := "POST".
Definition DOWNLOAD_CHUNK_SIZE : nat := 2048.
Definition MAX_UPLOAD_CONTEXTS : nat := 4.
Definition MAX_DOWNLOAD_CONTEXTS : nat := 4.

(** What a handler leaves in [json_buff].  [render] below gives the text. *)
Inductive json :=
| JsonEmpty
| JsonError (msg : string)                  (* {"error":"<msg>"} *)
| JsonErrorCode (msg : string) (code : Z)   (* {"error":"<msg> <code>"} *)
| JsonStatus (status : string)              (* {"status":"<status>"} *)
| JsonUploadStarted (chunkSize : Z) (method : string)
| JsonDownloadStarted (chunkSize : nat) (fileSize : Z)
| JsonChunk (len : nat) (data : list ascii).

(** The text that [strcpy] and [snprintf] build for a reply.  [snprintf]
    cuts it at [MAX_JSON_PAYLOAD_SIZE - 1] characters; the numbers printed
    are never negative. *)
Definition DQ : ascii := "034"%char.

Definition quoted (s : list ascii) : list ascii := DQ :: s ++ [DQ].

Definition member (key : string) (value : list ascii) : list ascii :=
  quoted (chars key) ++ ":"%char :: value.

Fixpoint join_members (members : list (list ascii)) : list ascii :=
  match members with
  | [] => []
  | [m] => m
  | m :: rest => m ++ ","%char :: join_members rest
  end.

Definition object (members : list (list ascii)) : list ascii :=
  "{"%char :: join_members members ++ ["}"%char].

Definition number (z : Z) : list ascii := chars (dec (Z.to_nat z)).

Definition render (j : json) : list ascii :=
  match j with
  | JsonEmpty => []
  | JsonError msg => object [member "error" (quoted (chars msg))]
  | JsonErrorCode msg code =>
    object [member "error" (quoted (chars msg ++ " "%char :: number code))]
  | JsonStatus status => object [member "status" (quoted (chars status))]
  | JsonUploadStarted chunkSize method =>
    object [member "status" (quoted (chars "started"));
            member "chunkSize" (number chunkSize);
            member "method" (quoted (chars method))]
  | JsonDownloadStarted chunkSize fileSize =>
    object [member "status" (quoted (chars "started"));
            member "chunkSize" (number (Z.of_nat chunkSize));
            member "fileSize" (number fileSize)]
  | JsonChunk len data =>
    object [member "status" (quoted (chars "chunk"));
            member "length" (number (Z.of_nat len));
            member "data" (quoted data)]
  end.

(** [upload_ctx_t] and [download_ctx_t]: the two structs have the same
    members. *)
Record ctx_t := Ctx {
  token : string;    (* char token[32] *)
  file : FIL;
  in_use : bool
}.

Abbreviation upload_ctx_t := ctx_t (only parsing).
Abbreviation download_ctx_t := ctx_t (only parsing).

Definition TOKEN_SIZE : nat := 32.

Record state := State {
  vol : volume;
  upload_contexts : list upload_ctx_t;
  download_contexts : list download_ctx_t;
  current_chunk_ctx : option nat;    (* index into upload_contexts, or NULL *)
  current_chunk_idx : Z;
  current_connection : nat;          (* 0 is NULL *)
  json_buff : json
}.

Definition zero_ctx : ctx_t := Ctx "" closed_fil false.

(** The statics as the program starts: everything zero-initialised. *)
Definition init_state (v : volume) : state :=
  State v (replicate MAX_UPLOAD_CONTEXTS zero_ctx)
        (replicate MAX_DOWNLOAD_CONTEXTS zero_ctx) None 0 0 JsonEmpty.

Definition set_vol (st : state) (v : volume) : state :=
  State v (upload_contexts st) (download_contexts st) (current_chunk_ctx st)
        (current_chunk_idx st) (current_connection st) (json_buff st).
Definition set_uploads (st : state) (p : list ctx_t) : state :=
  State (vol st) p (download_contexts st) (current_chunk_ctx st)
        (current_chunk_idx st) (current_connection st) (json_buff st).
Definition set_downloads (st : state) (p : list ctx_t) : state :=
  State (vol st) (upload_contexts st) p (current_chunk_ctx st)
        (current_chunk_idx st) (current_connection st) (json_buff st).
Definition set_chunk_ctx (st : state) (c : option nat) : state :=
  State (vol st) (upload_contexts st) (download_contexts st) c
        (current_chunk_idx st) (current_connection st) (json_buff st).
Definition set_chunk_idx (st : state) (k : Z) : state :=
  State (vol st) (upload_contexts st) (download_contexts st)
        (current_chunk_ctx st) k (current_connection st) (json_buff st).
Definition set_connection (st : state) (c : nat) : state :=
  State (vol st) (upload_contexts st) (download_contexts st)
        (current_chunk_ctx st) (current_chunk_idx st) c (json_buff st).
Definition set_json (st : state) (j : json) : state :=
  State (vol st) (upload_contexts st) (download_contexts st)
        (current_chunk_ctx st) (current_chunk_idx st) (current_connection st) j.

(** *** The context pools *)

(** [find_upload_ctx] / [find_download_ctx]: the first slot in use whose
    token compares equal; the index stands for the pointer to the slot. *)
Definition find_ctx (pool : list ctx_t) (tok : string) : option nat :=
  fst <$> list_find (λ c, in_use c = true ∧ token c = tok) pool.

(** [alloc_upload_ctx] / [alloc_download_ctx]: the first slot not in use is
    marked and given the token, cut to 31 characters; the [file] member is
    left as it was. *)
Definition alloc_ctx (pool : list ctx_t) (tok : string)
    : option (nat * list ctx_t) :=
  match list_find (λ c, in_use c = false) pool with
  | Some (i, c) =>
    Some (i, <[i := Ctx (strncpy_str tok (TOKEN_SIZE - 1)) (file c) true]> pool)
  | None => None
  end.

(** [free_upload_ctx] / [free_download_ctx] on the slot at index [i]. *)
Definition free_ctx (pool : list ctx_t) (i : nat) : list ctx_t :=
  match pool !! i with
  | Some c =>
    if in_use c then <[i := Ctx (token c) (f_close (file c)).2 false]> pool
    else pool
  | None => pool
  end.

Definition set_file (pool : list ctx_t) (i : nat) (f : FIL) : list ctx_t :=
  match pool !! i with
  | Some c => <[i := Ctx (token c) f (in_use c)]> pool
  | None => pool
  end.

Definition ctx_file (pool : list ctx_t) (i : nat) : FIL :=
  match pool !! i with Some c => file c | None => closed_fil end.

Definition find_upload_ctx (st : state) (tok : string) : option nat :=
  find_ctx (upload_contexts st) tok.
Definition find_download_ctx (st : state) (tok : string) : option nat :=
  find_ctx (download_contexts st) tok.
Definition alloc_upload_ctx (st : state) (tok : string)
    : option (nat * state) :=
  prod_map id (set_uploads st) <$> alloc_ctx (upload_contexts st) tok.
Definition alloc_download_ctx (st : state) (tok : string)
    : option (nat * state) :=
  prod_map id (set_downloads st) <$> alloc_ctx (download_contexts st) tok.
Definition free_upload_ctx (st : state) (i : nat) : state :=
  set_uploads st (free_ctx (upload_contexts st) i).
Definition free_download_ctx (st : state) (i : nat) : state :=
  set_downloads st (free_ctx (download_contexts st) i).

Definition in_use_count (pool : list ctx_t) : nat :=
  length (filter (λ c, in_use c = true) pool).

(** *** Request parameters *)

(** [pcParam[i]] / [pcValue[i]]; a parameter without [=] has a null value.
    Each handler scans all of them and keeps the last match. *)
Definition params := list (string * option string).

Definition param (ps : params) (name : string) : option string :=
  fold_left (λ acc kv, if String.eqb kv.1 name then kv.2 else acc) ps None.

(** *** Upload *)

Definition cgi_upload_start (st : state) (ps : params) : state :=
  match param ps "token", param ps "fullpath" with
  | Some tok, Some fullpath =>
    match decode_param fullpath 256 with
    | None => set_json st (JsonError "invalid path")
    | Some decoded_path =>
      match alloc_upload_ctx st tok with
      | None => set_json st (JsonError "no context available")
      | Some (i, st1) =>
        let '(res, fil, v) :=
          f_open (vol st1) decoded_path (Z.lor FA_WRITE FA_CREATE_ALWAYS) in
        let st2 :=
          set_vol (set_uploads st1 (set_file (upload_contexts st1) i fil)) v in
        if bool_decide (res ≠ FR_OK) then
          set_json (free_upload_ctx st2 i) (JsonError "cannot open file")
        else
          set_json st2 (JsonUploadStarted UPLOAD_CHUNK_SIZE UPLOAD_CHUNK_METHOD)
      end
    end
  | _, _ => set_json st (JsonError "missing parameters")
  end.

(** [malloc] is taken to succeed. *)
Definition cgi_upload_chunk (st : state) (ps : params) : state :=
  let ctx :=
    match param ps "token" with
    | Some tok => find_upload_ctx st tok
    | None => None
    end in
  match ctx, param ps "chunk", param ps "payload" with
  | Some i, Some chunkStr, Some payload =>
    let chunk := atoi (chars chunkStr) in
    let plen := length (chars payload) + 1 in
    match decode_param payload plen with
    | None => set_json st (JsonError "invalid payload encoding")
    | Some decodedPayload =>
      let outLen := length decodedPayload * 3 / 4 in
      let '(rc, buffer) := mbedtls_base64_decode outLen decodedPayload in
      if bool_decide (rc ≠ 0%Z) then set_json st (JsonError "invalid base64")
      else
        let decodedLen := length buffer in
        let '(_, f1, v1) :=
          f_lseek (vol st) (ctx_file (upload_contexts st) i)
                  (Z.to_nat (u32 (chunk * UPLOAD_CHUNK_SIZE))) in
        let '(res, written, f2, v2) := f_write v1 f1 buffer in
        let st1 :=
          set_vol (set_uploads st (set_file (upload_contexts st) i f2)) v2 in
        if bool_decide (res ≠ FR_OK) || negb (written =? decodedLen) then
          set_json st1 (JsonError "write failed")
        else set_json st1 (JsonStatus "chunk_ok")
    end
  | _, _, _ => set_json st (JsonError "invalid parameters")
  end.

Definition cgi_upload_end (st : state) (ps : params) : state :=
  let ctx :=
    match param ps "token" with
    | Some tok => find_upload_ctx st tok
    | None => None
    end in
  match ctx with
  | None => set_json st (JsonError "invalid token")
  | Some i => set_json (free_upload_ctx st i) (JsonStatus "completed")
  end.

(** The partial file is not removed: [f_getcwd] is the only call made before
    the slot is freed, and it changes nothing. *)
Definition cgi_upload_cancel (st : state) (ps : params) : state :=
  let ctx :=
    match param ps "token" with
    | Some tok => find_upload_ctx st tok
    | None => None
    end in
  match ctx with
  | None => set_json st (JsonError "invalid token")
  | Some i => set_json (free_upload_ctx st i) (JsonStatus "cancelled")
  end.

(** *** Download *)

Definition cgi_download_start (st : state) (ps : params) : state :=
  match param ps "token", param ps "fullpath" with
  | Some tok, Some fullpath =>
    match decode_param fullpath 256 with
    | None => set_json st (JsonError "invalid path")
    | Some decoded_path =>
      match alloc_download_ctx st tok with
      | None => set_json st (JsonError "no context available")
      | Some (i, st1) =>
        let '(res, fil, v) := f_open (vol st1) decoded_path FA_READ in
        let st2 :=
          set_vol
            (set_downloads st1 (set_file (download_contexts st1) i fil)) v in
        if bool_decide (res ≠ FR_OK) then
          set_json (free_download_ctx st2 i) (JsonError "cannot open file")
        else
          let size := u32 (Z.of_nat (f_size v fil)) in
          set_json st2 (JsonDownloadStarted DOWNLOAD_CHUNK_SIZE size)
      end
    end
  | _, _ => set_json st (JsonError "missing parameters")
  end.

Definition cgi_download_chunk (st : state) (ps : params) : state :=
  let ctx :=
    match param ps "token" with
    | Some tok => find_download_ctx st tok
    | None => None
    end in
  match ctx, param ps "chunk" with
  | Some i, Some chunkStr =>
    let chunk := atoi (chars chunkStr) in
    let offset := u32 (u32 chunk * Z.of_nat DOWNLOAD_CHUNK_SIZE) in
    let '(_, f1, v1) :=
      f_lseek (vol st) (ctx_file (download_contexts st) i) (Z.to_nat offset) in
    let '(res, rawbuf, f2) := f_read v1 f1 DOWNLOAD_CHUNK_SIZE in
    let st1 :=
      set_vol (set_downloads st (set_file (download_contexts st) i f2)) v1 in
    if bool_decide (res ≠ FR_OK) then set_json st1 (JsonError "read failed")
    else
      let readBytes := length rawbuf in
      let '(rc, b64buf) := mbedtls_base64_encode MAX_JSON_PAYLOAD_SIZE rawbuf in
      if bool_decide (rc ≠ 0%Z) then
        set_json st1 (JsonError "base64 encode failed")
      else set_json st1 (JsonChunk readBytes b64buf)
  | _, _ => set_json st (JsonError "invalid parameters")
  end.

Definition cgi_download_end (st : state) (ps : params) : state :=
  let ctx :=
    match param ps "token" with
    | Some tok => find_download_ctx st tok
    | None => None
    end in
  match ctx with
  | None => set_json st (JsonError "invalid token")
  | Some i => set_json (free_download_ctx st i) (JsonStatus "completed")
  end.

Definition cgi_download_cancel (st : state) (ps : params) : state :=
  let ctx :=
    match param ps "token" with
    | Some tok => find_download_ctx st tok
    | None => None
    end in
  match ctx with
  | None => set_json st (JsonError "invalid token")
  | Some i => set_json (free_download_ctx st i) (JsonStatus "cancelled")
  end.

(** *** Delete *)

Definition delete_path (v : volume) (path : list ascii) : FRESULT * volume :=
  let '(fr, fno) := f_stat v path in
  if bool_decide (fr ≠ FR_OK) then (fr, v)
  else if has_flag (fattrib fno) AM_DIR then
    let '(fr, dir) := f_opendir v path in
    if bool_decide (fr ≠ FR_OK) then (fr, v)
    else
      let '(fr, fno, dir) := f_readdir v dir in
      let '(_, dir) := f_closedir dir in
      if bool_decide (fr ≠ FR_OK) then (fr, v)
      else if negb (is_nul (rd (chars (fname fno)) 0)) then (FR_DENIED, v)
      else f_unlink v path
  else f_unlink v path.

(** [snprintf(path, sizeof(path), "%s/%s", df, ds)] *)
Definition join_path (size : nat) (df ds : list ascii) : list ascii :=
  take (size - 1) (df ++ "/"%char :: ds).

Definition cgi_del (st : state) (ps : params) : state :=
  match param ps "folder", param ps "src" with
  | Some folder, Some src =>
    match decode_param folder 256, decode_param src 128 with
    | Some df, Some ds =>
      let path := join_path 512 df ds in
      let '(r, v) := delete_path (vol st) path in
      let st1 := set_vol st v in
      if bool_decide (r = FR_DENIED) then
        set_json st1 (JsonError "directory not empty")
      else if bool_decide (r ≠ FR_OK) then
        set_json st1 (JsonErrorCode "delete failed" (fresult_code r))
      else set_json st1 (JsonStatus "deleted")
    | _, _ => set_json st (JsonError "invalid encoding")
    end
  | _, _ => set_json st (JsonError "missing parameters")
  end.

(** *** The raw POST path *)

Definition ERR_OK : Z := 0.
Definition ERR_VAL : Z := -6.

(** The copy loop of [httpd_post_begin]: characters up to the end of the
    string or the next ampersand, at most [sizeof(buf) - 1] of them. *)
Fixpoint copy_token (t : list ascii) (room : nat) : list ascii :=
  match room with
  | O => []
  | S room' =>
    match t with
    | [] => []
    | c :: rest =>
      if is_nul c || Ascii.eqb c "&" then [] else c :: copy_token rest room'
    end
  end.

(** The token that [httpd_post_begin] reads from the query string [qs], when
    there is one. *)
Definition query_token (qs : list ascii) : option string :=
  (λ t, text (copy_token (drop (t + 6) qs) (TOKEN_SIZE - 1)))
    <$> strstr qs (chars "token=").

(** [httpd_post_begin]: the [err_t] returned and the statics afterwards.  On
    [ERR_OK] the callback also sets [*post_auto_wnd]. *)
Definition httpd_post_begin (st : state) (connection : nat) (uri : string)
    : Z * state :=
  let u := chars uri in
  if is_prefix (chars "/upload_chunk.cgi") u then
    match strchr u "?" with
    | Some k =>
      let qs := drop k u in
      let st1 :=
        match query_token qs with
        | Some buf => set_chunk_ctx st (find_upload_ctx st buf)
        | None => st
        end in
      let st2 :=
        match strstr qs (chars "chunk=") with
        | Some c => set_chunk_idx st1 (u32 (atoi (drop (c + 6) qs)))
        | None => st1
        end in
      match current_chunk_ctx st2 with
      | Some i =>
        let '(_, f1, v1) :=
          f_lseek (vol st2) (ctx_file (upload_contexts st2) i)
                  (Z.to_nat (u32 (current_chunk_idx st2 * UPLOAD_CHUNK_SIZE))) in
        let st3 :=
          set_vol (set_uploads st2 (set_file (upload_contexts st2) i f1)) v1 in
        (ERR_OK, set_connection st3 connection)
      | None => (ERR_VAL, st2)
      end
    | None => (ERR_VAL, st)
    end
  else (ERR_VAL, st).

(** One [f_write] of the loop over the pbuf chain; result and count are
    dropped, as in the source. *)
Definition write_segment (i : nat) (st : state) (seg : list ascii) : state :=
  let '(_, _, f1, v1) :=
    f_write (vol st) (ctx_file (upload_contexts st) i) seg in
  set_vol (set_uploads st (set_file (upload_contexts st) i f1)) v1.

(** [httpd_post_receive_data]: [p] lists the payloads of the pbuf chain; the
    empty list is the null pbuf. *)
Definition httpd_post_receive_data (st : state) (connection : nat)
    (p : list (list ascii)) : Z * state :=
  match current_chunk_ctx st, p with
  | Some i, _ :: _ =>
    if bool_decide (connection = current_connection st) then
      (ERR_OK, fold_left (write_segment i) p st)
    else (ERR_VAL, st)
  | _, _ => (ERR_VAL, st)
  end.

Definition httpd_post_finished (st : state) (connection : nat) : state :=
  set_json (set_chunk_idx (set_chunk_ctx st None) 0) (JsonStatus "chunk_ok").

End Httpd.
Export Httpd.

(** ** [parseUrl] of [download.c] *)

Module Download.

Record download_url_components_t := Components {
  protocol : string;
  host : string;
  uri : string
}.

Record download_file_t := DownloadFile {
  url : string;
  filename : string
}.

(** [download.h] is not part of the sources at hand: the sizes of the five
    [char] arrays of the two structs are parameters. *)
Record sizes := Sizes {
  protocol_size : nat;
  host_size : nat;
  uri_size : nat;
  url_size : nat;
  filename_size : nat
}.

Definition zero_components : download_url_components_t := Components "" "" "".

(** [parseUrl(url, components, file)] with [components] and [file] pointing
    at the two structs, as in its only call; [None] is a null [url].  The
    result is the return value and the two structs afterwards. *)
Definition parseUrl (sz : sizes) (url : option string)
    (components : download_url_components_t) (file : download_file_t)
    : Z * download_url_components_t * download_file_t :=
  match url with
  | None => ((-1)%Z, components, file)
  | Some s =>
    let u := chars s in
    let copied := strncpy_str s (url_size sz - 1) in
    let file1 := DownloadFile copied "" in
    match strstr u (chars "://") with
    | None => ((-1)%Z, zero_components, file1)
    | Some protocolLen =>
      if protocol_size sz <=? protocolLen then
        ((-1)%Z, zero_components, file1)
      else
        let proto := text (take protocolLen u) in
        let hostStart := drop (protocolLen + 3) u in
        let parsed :=
          match strchr hostStart "/" with
          | Some hostLen =>
            if host_size sz <=? hostLen then None
            else
              Some (Components proto (text (take hostLen hostStart))
                      (strncpy_str (text (drop hostLen hostStart))
                                   (uri_size sz - 1)))
          | None =>
            Some (Components proto
                    (strncpy_str (text hostStart) (host_size sz - 1)) "")
          end in
        match parsed with
        | None => ((-1)%Z, Components proto "" "", file1)
        | Some comps =>
          let u' := chars (uri comps) in
          let filenameStart :=
            match strrchr u' "/" with
            | Some lastSlash => drop (lastSlash + 1) u'
            | None => u'
            end in
          let name :=
            if negb (is_nul (rd filenameStart 0)) then
              strncpy_str (text filenameStart) (filename_size sz - 1)
            else strncpy_str "default.bin" (filename_size sz - 1) in
          (0%Z, comps, DownloadFile copied name)
        end
    end
  end.

(** The placeholder the design document calls the fallback name. *)
Definition fallback_name (sz : sizes) : string :=
  strncpy_str "default.bin" (filename_size sz - 1).

(** A URI "has no non-empty segment after the final slash" when it is empty
    or its last character is a slash. *)
Definition no_trailing_segment (uri : string) : Prop :=
  uri = "" ∨ last (chars uri) = Some "/"%char.

End Download.
Export Download.

(** ** A downloading client *)

Module Client.

(** The loop the design document describes for a client: ask for chunk
    [idx], [idx + 1], ... and stop after the first chunk whose reported
    length is below the chunk size announced by [download_start].  The
    result lists the [length] and [data] fields of the replies. *)
Fixpoint download_loop (fuel : nat) (st : state) (tok : string) (idx : nat)
    (chunkSize : nat) : option (list (nat * list ascii) * state) :=
  match fuel with
  | O => None
  | S fuel' =>
    let st' :=
      cgi_download_chunk st [("token", Some tok); ("chunk", Some (dec idx))] in
    match json_buff st' with
    | JsonChunk len data =>
      if len <? chunkSize then Some ([(len, data)], st')
      else
        prod_map (cons (len, data)) id
          <$> download_loop fuel' st' tok (S idx) chunkSize
    | _ => None
    end
  end.

Definition total_length (replies : list (nat * list ascii)) : nat :=
  sum_list (fst <$> replies).

(** The concatenation of the base64-decoded [data] fields. *)
Fixpoint decoded_content (replies : list (nat * list ascii))
    : option (list ascii) :=
  match replies with
  | [] => Some []
  | r :: rest =>
    bytes ← base64_decode r.2;
    tail ← decoded_content rest;
    Some (bytes ++ tail)
  end.

End Client.
Export Client.

(** ** Operation sequences on a pool *)

Module PoolOps.

(** The three operations of a transfer pool; [Release] names the token of
    the transfer being ended or cancelled, as [*_end] and [*_cancel] do. *)
Inductive op :=
| Allocate (tok : string)
| Find (tok : string)
| Release (tok : string).

Definition step (pool : list ctx_t) (o : op) : list ctx_t :=
  match o with
  | Allocate tok =>
    match alloc_ctx pool tok with
    | Some (_, pool') => pool'
    | None => pool
    end
  | Find _ => pool
  | Release tok =>
    match find_ctx pool tok with
    | Some i => free_ctx pool i
    | None => pool
    end
  end.

Definition run (pool : list ctx_t) (ops : list op) : list ctx_t :=
  fold_left step ops pool.

(** At most one slot in use carries the token [tok]. *)
Definition at_most_one (pool : list ctx_t) (tok : string) : Prop :=
  ∀ i j ci cj,
    pool !! i = Some ci → pool !! j = Some cj →
    in_use ci = true → in_use cj = true →
    token ci = tok → token cj = tok → i = j.

Definition unique_tokens (pool : list ctx_t) : Prop :=
  ∀ tok, at_most_one pool tok.

(** Every [Allocate] of the sequence is given a token that, cut to the 31
    characters a slot keeps, is not the token of a slot in use at that
    moment. *)
Fixpoint fresh_allocations (pool : list ctx_t) (ops : list op) : Prop :=
  match ops with
  | [] => True
  | o :: rest =>
    match o with
    | Allocate tok =>
      find_ctx pool (strncpy_str tok (TOKEN_SIZE - 1)) = None
    | _ => True
    end ∧ fresh_allocations (step pool o) rest
  end.

Definition empty_pool : list ctx_t := replicate MAX_UPLOAD_CONTEXTS zero_ctx.

End PoolOps.
Export PoolOps.

(** ** The server as a state machine *)

Module Server.

(** What reaches the handlers: a CGI request with its parameters, or one of
    the three POST callbacks. *)
Inductive request :=
| UploadStart (ps : params)
| UploadChunk (ps : params)
| UploadEnd (ps : params)
| UploadCancel (ps : params)
| DownloadStart (ps : params)
| DownloadChunk (ps : params)
| DownloadEnd (ps : params)
| DownloadCancel (ps : params)
| Del (ps : params)
| PostBegin (connection : nat) (uri : string)
| PostData (connection : nat) (p : list (list ascii))
| PostFinished (connection : nat).

Definition handle (st : state) (r : request) : state :=
  match r with
  | UploadStart ps => cgi_upload_start st ps
  | UploadChunk ps => cgi_upload_chunk st ps
  | UploadEnd ps => cgi_upload_end st ps
  | UploadCancel ps => cgi_upload_cancel st ps
  | DownloadStart ps => cgi_download_start st ps
  | DownloadChunk ps => cgi_download_chunk st ps
  | DownloadEnd ps => cgi_download_end st ps
  | DownloadCancel ps => cgi_download_cancel st ps
  | Del ps => cgi_del st ps
  | PostBegin c uri => (httpd_post_begin st c uri).2
  | PostData c p => (httpd_post_receive_data st c p).2
  | PostFinished c => httpd_post_finished st c
  end.

Definition is_error (j : json) : bool :=
  match j with
  | JsonError _ | JsonErrorCode _ _ => true
  | _ => false
  end.

(** A run of the server over a list of requests. *)
Definition serve (st : state) (rs : list request) : state :=
  fold_left handle rs st.

(** The token of a start request, cut to the 31 characters a slot keeps, is
    not the token of a transfer under way in the pool the request
    allocates from. *)
Definition fresh_request (st : state) (r : request) : Prop :=
  match r with
  | UploadStart ps =>
    match param ps "token" with
    | Some tok => find_upload_ctx st (strncpy_str tok (TOKEN_SIZE - 1)) = None
    | None => True
    end
  | DownloadStart ps =>
    match param ps "token" with
    | Some tok => find_download_ctx st (strncpy_str tok (TOKEN_SIZE - 1)) = None
    | None => True
    end
  | _ => True
  end.

Fixpoint fresh_requests (st : state) (rs : list request) : Prop :=
  match rs with
  | [] => True
  | r :: rest => fresh_request st r ∧ fresh_requests (handle st r) rest
  end.

(** Every slot of the pool is occupied. *)
Definition pool_full (pool : list ctx_t) : Prop :=
  Forall (λ c, in_use c = true) pool.

End Server.
Export Server.

(** ** Auxiliary notions *)

(** The test and the byte of the [%XX] branch of [url_decode], on the text
    [s] that follows the current character [c]. *)
Definition escape_at (c : ascii) (s : list ascii) : bool :=
  Ascii.eqb c "%" && isxdigit (nth 0 s NUL) && isxdigit (nth 1 s NUL).

Definition escape_byte (s : list ascii) : ascii :=
  chr (Z.lor (Z.shiftl (hex_nibble (nth 0 s NUL)) 4) (hex_nibble (nth 1 s NUL))).

(** The seek and the write of one upload chunk. *)
Definition seek_write (v : volume) (f : FIL) (ofs : nat) (buf : list ascii)
    : FRESULT * nat * FIL * volume :=
  let '(_, f1, v1) := f_lseek v f ofs in f_write v1 f1 buf.

(** Slot [i] of the download pool answers to [tok] and holds a file object
    open for reading on the file at [p], whose content is [data]. *)
Definition downloading (st : state) (tok : string) (i : nat)
    (p : list string) (data : list ascii) : Prop :=
  find_download_ctx st tok = Some i ∧
  entries (vol st) !! p = Some (File data) ∧
  let f := ctx_file (download_contexts st) i in
  fil_valid f = true ∧ fil_path f = p ∧ fil_flag f = FA_READ.


(** ** Sample volumes, requests and states *)

Module Examples.

Definition sample_volume : volume :=
  Volume (<[ ["docs"; "note.txt"] := File (chars "hello world") ]>
            (<[ ["docs"] := Dir ]> (<[ ["empty"] := Dir ]> ∅))) 64.

Definition start_params (tok path : string) : params :=
  [("token", Some tok); ("fullpath", Some path)].

Definition chunk_params (tok chunk payload : string) : params :=
  [("token", Some tok); ("chunk", Some chunk); ("payload", Some payload)].

Definition del_params (folder src : string) : params :=
  [("folder", Some folder); ("src", Some src)].

(** A volume with a file of more than two chunks. *)
Definition big_volume : volume :=
  Volume (<[ ["big.bin"] := File (replicate 5000 "z"%char) ]> ∅) 0.

(** Four uploads and four downloads under way: both pools are full. *)
Definition busy_state : state :=
  fold_left (λ st tok, cgi_download_start st (start_params tok "/docs/note.txt"))
    ["e"; "f"; "g"; "h"]
    (fold_left (λ st tok, cgi_upload_start st (start_params tok ("/" +:+ tok)))
       ["a"; "b"; "c"; "d"] (init_state sample_volume)).


(** One upload to [/up.bin] under way. *)
Definition uploading_state : state :=
  cgi_upload_start (init_state sample_volume) (start_params "up" "/up.bin").

End Examples.
Export Examples.

(** ** Further notions for the server invariants *)

(** Every slot in use of [pool] holds an open file object that was opened
    with the access mode [mode]. *)
Definition slots_open (mode : Z) (pool : list ctx_t) : Prop :=
  ∀ i c, pool !! i = Some c → in_use c = true →
         fil_valid (file c) = true ∧ fil_flag (file c) = mode.

(** The requests served by the four download handlers. *)
Definition is_download_request (r : request) : bool :=
  match r with
  | DownloadStart _ | DownloadChunk _ | DownloadEnd _ | DownloadCancel _ => true
  | _ => false
  end.

(** The three replies that report a failed percent-decoding. *)
Definition decode_error (j : json) : bool :=
  match j with
  | JsonError msg =>
    String.eqb msg "invalid path" || String.eqb msg "invalid payload encoding"
    || String.eqb msg "invalid encoding"
  | _ => false
  end.

(** The requests that carry upload data. *)
Definition is_chunk_traffic (r : request) : bool :=
  match r with
  | UploadChunk _ | PostBegin _ _ | PostData _ _ | PostFinished _ => true
  | _ => false
  end.

(** No upload slot, in use or not, holds an open file object on the path
    [q]. *)
Definition not_an_upload_target (pool : list ctx_t) (q : list string) : Prop :=
  ∀ i c, pool !! i = Some c → fil_valid (file c) = true → fil_path (file c) ≠ q.

(** ** [url_decode] called with [out == in]

    [cgi_folder] and [cgi_ls] decode the [folder] value where it stands:
    both pointers name the same buffer, so the stores of the loop go to the
    buffer that it reads. *)
Fixpoint url_decode_loop_in_place (fuel : nat) (outLen : nat) (i o : nat)
    (buf : list ascii) : nat * list ascii :=
  match fuel with
  | O => (o, buf)
  | S fuel' =>
    if negb (is_nul (rd buf i)) && (o <? outLen - 1) then
      if Ascii.eqb (rd buf i) "%" && isxdigit (rd buf (i + 1))
         && isxdigit (rd buf (i + 2)) then
        let hi := rd buf (i + 1) in
        let lo := rd buf (i + 2) in
        let high := hex_nibble hi in
        let low := hex_nibble lo in
        url_decode_loop_in_place fuel' outLen (i + 2 + 1) (o + 1)
          (<[o := chr (Z.lor (Z.shiftl high 4) low)]> buf)
      else if Ascii.eqb (rd buf i) "+" then
        url_decode_loop_in_place fuel' outLen (i + 1) (o + 1)
          (<[o := " "%char]> buf)
      else
        url_decode_loop_in_place fuel' outLen (i + 1) (o + 1)
          (<[o := rd buf i]> buf)
    else (o, buf)
  end.

Definition url_decode_in_place (buf : option (list ascii)) (outLen : nat)
    : bool * option (list ascii) :=
  match buf with
  | Some b =>
    if outLen =? 0 then (false, buf)
    else
      let '(o, b') := url_decode_loop_in_place (outLen - 1) outLen 0 0 b in
      (true, Some (<[o := NUL]> b'))
  | None => (false, buf)
  end.

(** [strlen] *)
Definition strlen (buf : list ascii) : nat := length (c_str buf).

(** ** The [JSONPLD] tag of [ssi_handler]

    The reply text is handed to lwIP in parts: the handler is called with
    the number of the part wanted and names the next part, if any, through
    [next_tag_part]. *)
Module Ssi.

(** The conversion to [u16_t]. *)
Definition u16 (n : nat) : nat := Z.to_nat (Z.of_nat n mod 2 ^ 16).

(** [memcpy(dst, src, n)] for a source of [n] bytes. *)
Definition memcpy (dst src : list ascii) : list ascii :=
  take (length dst) src ++ drop (length src) dst.

(** Case 7 of [ssi_handler]: [json] is the text in [json_buff], [pcInsert]
    the insert buffer; the result is the value returned, the insert buffer
    and [*next_tag_part] afterwards. *)
Definition ssi_handler_jsonpld (json : list ascii) (pcInsert : list ascii)
    (iInsertLen : Z) (current_tag_part next_tag_part : nat)
    : nat * list ascii * nat :=
  let chunk_size := 128 in
  let offset := current_tag_part * chunk_size in
  let json_len := length json in
  if json_len <=? offset then (0, pcInsert, next_tag_part)
  else
    let remain := json_len - offset in
    let chunk_len := if remain <? chunk_size then remain else chunk_size in
    let room := Z.to_nat (u32 (iInsertLen - 1)) in
    let chunk_len := if room <? chunk_len then room else chunk_len in
    let pcInsert1 := memcpy pcInsert (take chunk_len (drop offset json)) in
    let pcInsert2 := <[chunk_len := NUL]> pcInsert1 in
    (u16 chunk_len, pcInsert2,
     if offset + chunk_len <? json_len then u16 (current_tag_part + 1)
     else next_tag_part).

(** lwIP's side of the exchange: [*next_tag_part] is preset to
    [HTTPD_LAST_TAG_PART], the handler is called, the characters it reports
    are sent, and the call is repeated for the part it named, if it named
    one. *)
Definition HTTPD_LAST_TAG_PART : nat := Z.to_nat 65535.

Fixpoint ssi_insert (fuel : nat) (json pcInsert : list ascii)
    (iInsertLen : Z) (part : nat) : option (list ascii) :=
  match fuel with
  | O => None
  | S fuel' =>
    let '(printed, pcInsert', next) :=
      ssi_handler_jsonpld json pcInsert iInsertLen part HTTPD_LAST_TAG_PART in
    if next =? HTTPD_LAST_TAG_PART then Some (take printed pcInsert')
    else
      (λ rest, take printed pcInsert' ++ rest)
        <$> ssi_insert fuel' json pcInsert' iInsertLen next
  end.

End Ssi.
Export Ssi.

(** ** The listing handlers [cgi_folder] and [cgi_ls]

    Both build a JSON array in [json_buff] with [strcat], entry by entry as
    [f_readdir] reports them.  The result of a handler is the text left in
    [json_buff]; [None] stands for a run without a defined result: [strlen]
    or [atoi] of a null value, a [strcat] past the end of [json_buff], or a
    directory loop that has not ended within [fuel] passes. *)
Module Listing.

(** The parameter loops of the two handlers stop at the first match. *)
Definition first_param (ps : params) (name : string) : option (option string) :=
  (λ ikv, ikv.2.2) <$> list_find (λ kv, kv.1 = name) ps.

(** [strcat(json_buff, src)] *)
Definition strcat (dst src : list ascii) : option (list ascii) :=
  if length dst + length src <? MAX_JSON_PAYLOAD_SIZE then Some (dst ++ src)
  else None.

(** [snprintf(tmp, sizeof(tmp), ...)] with [char tmp[256]]. *)
Definition snprintf_tmp (s : list ascii) : list ascii := take 255 s.

(** The [folder] value, decoded where it stands. *)
Definition decode_folder (value : string) : bool * list ascii :=
  let buf := chars value ++ [NUL] in
  match url_decode_in_place (Some buf) (strlen buf + 1) with
  | (valid, Some buf') => (valid, c_str buf')
  | (valid, None) => (valid, [])
  end.

(** [len > 1 && json_buff[len - 1] == ','] *)
Definition ends_with_comma (json : list ascii) : bool :=
  (1 <? length json) && Ascii.eqb (rd json (length json - 1)) ",".

(** ["\"%s\","] *)
Definition folder_item (name : string) : list ascii :=
  snprintf_tmp (quoted (chars name) ++ [","%char]).

Fixpoint folder_loop (fuel : nat) (v : volume) (dir : DIR)
    (json : list ascii) (found : bool) : option (list ascii * bool) :=
  match fuel with
  | O => None
  | S fuel' =>
    let '(fr, fno, dir') := f_readdir v dir in
    if bool_decide (fr ≠ FR_OK) || is_nul (rd (chars (fname fno)) 0) then
      Some (json, found)
    else if has_flag (fattrib fno) AM_DIR then
      json' ← strcat json (folder_item (fname fno));
      folder_loop fuel' v dir' json' true
    else folder_loop fuel' v dir' json found
  end.

Definition cgi_folder (fuel : nat) (v : volume) (ps : params)
    : option (list ascii) :=
  match first_param ps "folder" with
  | None => Some (chars "[]")
  | Some None => None
  | Some (Some value) =>
    let '(valid, req_folder) := decode_folder value in
    if negb valid then Some (chars "[]")
    else
      let '(fr, dir) := f_opendir v req_folder in
      if bool_decide (fr ≠ FR_OK) then Some (chars "[]")
      else
        match folder_loop fuel v dir (chars "[") false with
        | None => None
        | Some (json, found) =>
          if found && ends_with_comma json then
            Some (<[length json - 1 := "]"%char]> json)
          else strcat json (chars "]")
        end
  end.







(** A JSON array of the given items. *)
Definition json_array (items : list (list ascii)) : list ascii :=
  "["%char :: join_members items ++ ["]"%char].

(** What [f_readdir] reports for the directory [p], from first to last. *)
Definition dir_infos (v : volume) (p : list string) : list FILINFO :=
  (λ kn, info_of kn.1 kn.2) <$> children v p.

Definition is_dir (fno : FILINFO) : bool := has_flag (fattrib fno) AM_DIR.

(** A volume with a directory of ten files. *)
Definition listing_volume : volume :=
  Volume (list_to_map
            (([ "d" ], Dir) ::
             ([ "d"; "sub" ], Dir) ::
             ((λ k, ([ "d"; "file" +:+ dec k ], File (replicate k "x"%char)))
                <$> seq 0 10))) 0.

End Listing.
Export Listing.

(** ** Fetching a file from a URL

    [cgi_download] of [mngr_httpd.c] records the request, the download
    switch in the main loop of [mngr_init] drives it, and [download.c] does
    the work through the HTTP client of lwIP.  [download.h] and the HTTP
    client are not part of the sources at hand: the capacity
    [DOWNLOAD_BUFFLINE_SIZE] is a parameter, and the client is modelled by
    its contract: [http_client_request_async] marks the request incomplete
    and returns a result code, and the callbacks registered in the request
    are called, one per event, while [async_context_poll] runs. *)
Module Fetch.

Inductive download_status_t :=
| DOWNLOAD_STATUS_IDLE
| DOWNLOAD_STATUS_REQUESTED
| DOWNLOAD_STATUS_NOT_STARTED
| DOWNLOAD_STATUS_STARTED
| DOWNLOAD_STATUS_IN_PROGRESS
| DOWNLOAD_STATUS_COMPLETED
| DOWNLOAD_STATUS_FAILED.

(** The members of [download_err_t] that the functions below return. *)
Inductive download_err_t :=
| DOWNLOAD_OK
| DOWNLOAD_CANNOTOPENFILE_ERROR
| DOWNLOAD_CANNOTCLOSEFILE_ERROR
| DOWNLOAD_FORCEDABORT_ERROR
| DOWNLOAD_CANNOTSTARTDOWNLOAD_ERROR
| DOWNLOAD_CANNOTPARSEURL_ERROR.

Inductive download_poll_t :=
| DOWNLOAD_POLL_CONTINUE
| DOWNLOAD_POLL_COMPLETED.

Global Instance download_status_eq_dec : EqDecision download_status_t.
Proof. solve_decision. Defined.

Global Instance download_err_eq_dec : EqDecision download_err_t.
Proof. solve_decision. Defined.

(** The statics of [download.c], and the volume. *)
Record fetch := Fetch {
  fvol : volume;
  dl_file : FIL;                            (* file *)
  downloadStatus : download_status_t;
  request_complete : bool;                  (* request.complete *)
  dl_components : download_url_components_t; (* components *)
  fileUrl : download_file_t;
  dl_url : string;                          (* url *)
  dst_folder : string
}.

Definition set_status (d : fetch) (s : download_status_t) : fetch :=
  Fetch (fvol d) (dl_file d) s (request_complete d) (dl_components d)
        (fileUrl d) (dl_url d) (dst_folder d).

(** What lwIP reports while a request runs: the headers have arrived; a
    piece of the body has arrived ([None] is the null pbuf that ends the
    body) together with an error code; the request has ended with an error
    code. *)
Inductive http_event :=
| Headers
| Body (ptr : option (list ascii)) (err : Z)
| Result (err : Z).

Definition ERR_MEM : Z := -1.
Definition ERR_ABRT : Z := -13.

Section Sizes.

Variable sz : sizes.
Variable DOWNLOAD_BUFFLINE_SIZE : nat.

(** [download_setUrl], [download_setDstFolder], [download_setStatus] *)
Definition download_setUrl (d : fetch) (u : string) : fetch :=
  Fetch (fvol d) (dl_file d) (downloadStatus d) (request_complete d)
        (dl_components d) (fileUrl d)
        (strncpy_str u (DOWNLOAD_BUFFLINE_SIZE - 1)) (dst_folder d).

Definition download_setDstFolder (d : fetch) (f : string) : fetch :=
  Fetch (fvol d) (dl_file d) (downloadStatus d) (request_complete d)
        (dl_components d) (fileUrl d) (dl_url d)
        (strncpy_str f (DOWNLOAD_BUFFLINE_SIZE - 1)).

Definition download_setStatus := set_status.

(** ["/error.shtml?error=%d&error_msg=..."] with
    [MNGR_HTTPD_RESPONSE_BAD_REQUEST] *)
Definition MNGR_HTTPD_RESPONSE_BAD_REQUEST : nat := 400.

Definition error_url (msg : string) : string :=
  "/error.shtml?error=" +:+ dec MNGR_HTTPD_RESPONSE_BAD_REQUEST
    +:+ "&error_msg=" +:+ msg.

(** The parameter loop of [cgi_download]: the two local buffers and the two
    flags when it ends, or the page it returns from inside the loop. *)
Fixpoint cgi_download_loop (ps : params)
    (decoded_folder decoded_url : list ascii) (has_folder has_url : bool)
    : string + (list ascii * list ascii * bool * bool) :=
  match ps with
  | [] => inr (decoded_folder, decoded_url, has_folder, has_url)
  | (name, value) :: rest =>
    if String.eqb name "folder" then
      match url_decode (chars <$> value) (Some decoded_folder) 256 with
      | (true, Some buf) => cgi_download_loop rest buf decoded_url true has_url
      | _ => inl (error_url "Invalid%20folder")
      end
    else if String.eqb name "url" then
      match url_decode (chars <$> value) (Some decoded_url)
                       DOWNLOAD_BUFFLINE_SIZE with
      | (true, Some buf) =>
        cgi_download_loop rest decoded_folder buf has_folder true
      | _ => inl (error_url "Invalid%20url")
      end
    else cgi_download_loop rest decoded_folder decoded_url has_folder has_url
  end.

(** [cgi_download]: the page returned and the statics afterwards. *)
Definition cgi_download (d : fetch) (ps : params) : string * fetch :=
  match cgi_download_loop ps (replicate 256 NUL)
          (replicate DOWNLOAD_BUFFLINE_SIZE NUL) false false with
  | inl page => (page, d)
  | inr (decoded_folder, decoded_url, has_folder, has_url) =>
    if negb has_folder || negb has_url then (error_url "Bad%20request", d)
    else
      let d1 := download_setDstFolder d (text (c_str decoded_folder)) in
      let d2 := download_setUrl d1 (text (c_str decoded_url)) in
      ("/downloading.shtml",
       download_setStatus d2 DOWNLOAD_STATUS_REQUESTED)
  end.

(** [download_start].  The [f_close] of the previous handle is subsumed by
    the [f_open] that follows, which sets the file object anew; [f_chmod]
    only clears an attribute, and attributes are not modelled; [f_open]
    never answers [FR_LOCKED] on the modelled volume, so the branch that
    unlinks and opens again is not taken. *)
Definition download_start (http_result : Z) (d : fetch)
    : download_err_t * fetch :=
  let '(rc, comps, furl) :=
    parseUrl sz (Some (dl_url d)) (dl_components d) (fileUrl d) in
  if bool_decide (rc ≠ 0%Z) then
    (DOWNLOAD_CANNOTPARSEURL_ERROR,
     Fetch (fvol d) (dl_file d) (downloadStatus d) (request_complete d)
           comps furl (dl_url d) (dst_folder d))
  else
    let filename :=
      take (DOWNLOAD_BUFFLINE_SIZE - 1)
           (chars (dst_folder d) ++ "/"%char :: chars (filename furl)) in
    let '(res, f1, v1) :=
      f_open (fvol d) filename (Z.lor FA_WRITE FA_CREATE_ALWAYS) in
    if bool_decide (res ≠ FR_OK) then
      (DOWNLOAD_CANNOTOPENFILE_ERROR,
       Fetch v1 f1 (downloadStatus d) (request_complete d) comps furl
             (dl_url d) (dst_folder d))
    else if bool_decide (http_result ≠ 0%Z) then
      (DOWNLOAD_CANNOTSTARTDOWNLOAD_ERROR,
       Fetch v1 (f_close f1).2 DOWNLOAD_STATUS_STARTED false comps furl
             (dl_url d) (dst_folder d))
    else
      (DOWNLOAD_OK,
       Fetch v1 f1 DOWNLOAD_STATUS_STARTED false comps furl
             (dl_url d) (dst_folder d)).

(** [httpClientReceiveFileFn]; [malloc] is taken to succeed. *)
Definition httpClientReceiveFileFn (ptr : option (list ascii)) (err : Z)
    (d : fetch) : Z * fetch :=
  match ptr with
  | None => (ERR_OK, set_status d DOWNLOAD_STATUS_COMPLETED)
  | Some buffc =>
    if bool_decide (err ≠ ERR_OK) then
      (ERR_VAL, set_status d DOWNLOAD_STATUS_FAILED)
    else
      let '(res, bytesWritten, f1, v1) := f_write (fvol d) (dl_file d) buffc in
      let d1 :=
        Fetch v1 f1 (downloadStatus d) (request_complete d) (dl_components d)
              (fileUrl d) (dl_url d) (dst_folder d) in
      if bool_decide (res ≠ FR_OK) || negb (bytesWritten =? length buffc) then
        (ERR_ABRT, set_status d1 DOWNLOAD_STATUS_FAILED)
      else (ERR_OK, set_status d1 DOWNLOAD_STATUS_IN_PROGRESS)
  end.

(** [httpClientHeaderCheckSizeFn]; [malloc] is taken to succeed, and the
    length read from the headers is not used. *)
Definition httpClientHeaderCheckSizeFn (d : fetch) : Z * fetch :=
  let d1 := set_status d DOWNLOAD_STATUS_FAILED in
  (ERR_OK, set_status d1 DOWNLOAD_STATUS_IN_PROGRESS).

(** [httpClientResultCompleteFn] *)
Definition httpClientResultCompleteFn (err : Z) (d : fetch) : fetch :=
  let d1 :=
    Fetch (fvol d) (dl_file d) (downloadStatus d) true (dl_components d)
          (fileUrl d) (dl_url d) (dst_folder d) in
  if bool_decide (err = ERR_OK) then set_status d1 DOWNLOAD_STATUS_COMPLETED
  else set_status d1 DOWNLOAD_STATUS_FAILED.

(** The callback that lwIP calls for an event. *)
Definition callback (d : fetch) (e : http_event) : fetch :=
  match e with
  | Headers => (httpClientHeaderCheckSizeFn d).2
  | Body ptr err => (httpClientReceiveFileFn ptr err d).2
  | Result err => httpClientResultCompleteFn err d
  end.

(** [download_poll]; [events] is what lwIP reports while
    [async_context_poll] runs. *)
Definition download_poll (events : list http_event) (d : fetch)
    : download_poll_t * fetch :=
  if negb (request_complete d) then
    let d1 := fold_left callback events d in
    (DOWNLOAD_POLL_CONTINUE, set_status d1 DOWNLOAD_STATUS_IN_PROGRESS)
  else (DOWNLOAD_POLL_COMPLETED, set_status d DOWNLOAD_STATUS_COMPLETED).

(** [download_finish] *)
Definition download_finish (d : fetch) : download_err_t * fetch :=
  let '(res, f1) := f_close (dl_file d) in
  let d1 :=
    Fetch (fvol d) f1 (downloadStatus d) (request_complete d)
          (dl_components d) (fileUrl d) (dl_url d) (dst_folder d) in
  if bool_decide (res ≠ FR_OK) then (DOWNLOAD_CANNOTCLOSEFILE_ERROR, d1)
  else if bool_decide (downloadStatus d ≠ DOWNLOAD_STATUS_COMPLETED) then
    (DOWNLOAD_FORCEDABORT_ERROR, d1)
  else (DOWNLOAD_OK, d1).

(** One pass of the main loop of [mngr_init], as far as the download is
    concerned: the time, what [http_client_request_async] would answer, and
    what lwIP would report during a poll. *)
Record pass := Pass {
  now : Z;                       (* get_absolute_time(), in microseconds *)
  http_result : Z;
  events : list http_event
}.

(** The [switch (download_getStatus())] of the main loop; the state is
    [start_download_time] and the statics of [download.c]. *)
Definition download_switch (st : Z * fetch) (p : pass) : Z * fetch :=
  let '(start_download_time, d) := st in
  match downloadStatus d with
  | DOWNLOAD_STATUS_STARTED | DOWNLOAD_STATUS_IN_PROGRESS =>
    (start_download_time, (download_poll (events p) d).2)
  | DOWNLOAD_STATUS_REQUESTED =>
    ((now p + 3 * 1000 * 1000)%Z,
     download_setStatus d DOWNLOAD_STATUS_NOT_STARTED)
  | DOWNLOAD_STATUS_NOT_STARTED =>
    if (start_download_time - now p <? 0)%Z then
      (start_download_time, (download_start (http_result p) d).2)
    else (start_download_time, d)
  | DOWNLOAD_STATUS_COMPLETED =>
    let '(err, d1) := download_finish d in
    if bool_decide (err ≠ DOWNLOAD_OK) then
      (start_download_time, download_setStatus d1 DOWNLOAD_STATUS_FAILED)
    else (start_download_time, download_setStatus d1 DOWNLOAD_STATUS_IDLE)
  | _ => st
  end.

Definition main_loop (st : Z * fetch) (ps : list pass) : Z * fetch :=
  fold_left download_switch ps st.

End Sizes.

(** The body pieces of one poll as events, after the headers. *)
Definition body_events (pieces : list (list ascii)) : list http_event :=
  (λ piece, Body (Some piece) ERR_OK) <$> pieces.

End Fetch.
Export Fetch.

(** ** The command mailbox of [mngr.c]

    The interrupt handler parses what the computer sends and, for each
    complete command, calls [handle_protocol_command], which copies it into
    the one-place mailbox [lastProtocol]; [mngr_loop], called from the main
    loop, consumes the mailbox.  [tprotocol.h] is not part of the sources at
    hand: the capacity [MAX_PROTOCOL_PAYLOAD_SIZE] and the macro that reads
    the random token from a payload are parameters, and the two cells of
    the shared memory that [mngr_loop] writes are members of the state. *)
Module Mngr.

Record TransmissionProtocol := Protocol {
  command_id : Z;
  payload_size : Z;
  bytes_read : Z;
  final_checksum : Z;
  payload : list ascii
}.

Record mngr := Mngr {
  startBooster : bool;
  lastProtocol : TransmissionProtocol;
  lastProtocolValid : bool;
  memoryRandomTokenAddress : Z;
  random_token : Z;          (* the cell at memoryRandomTokenAddress *)
  random_token_seed : Z;     (* the cell at memoryRandomTokenSeedAddress *)
  display_command : Z        (* what SEND_COMMAND_TO_DISPLAY sent last *)
}.

Definition APP_BOOSTER_START : Z := 0x00.
Definition DISPLAY_COMMAND_BOOSTER : Z := 0x3.

Section Protocol.

Variable MAX_PROTOCOL_PAYLOAD_SIZE : nat.
Variable TPROTO_GET_RANDOM_TOKEN : list ascii → Z.

Definition handle_protocol_command (m : mngr)
    (protocol : TransmissionProtocol) : mngr :=
  let size := Z.to_nat (payload_size protocol) in
  let size :=
    if MAX_PROTOCOL_PAYLOAD_SIZE <? size then MAX_PROTOCOL_PAYLOAD_SIZE
    else size in
  let copied :=
    memcpy (payload (lastProtocol m)) (take size (payload protocol)) in
  Mngr (startBooster m)
       (Protocol (command_id protocol) (payload_size protocol)
                 (bytes_read protocol) (final_checksum protocol) copied)
       true (memoryRandomTokenAddress m) (random_token m)
       (random_token_seed m) (display_command m).

(** [mngr_loop]; [rnd] is what [rand()] returns if it is called. *)
Definition mngr_loop (m : mngr) (rnd : Z) : mngr :=
  if lastProtocolValid m then
    let randomToken := TPROTO_GET_RANDOM_TOKEN (payload (lastProtocol m)) in
    let '(booster, display) :=
      if (command_id (lastProtocol m) =? APP_BOOSTER_START)%Z
      then (true, DISPLAY_COMMAND_BOOSTER)
      else (startBooster m, display_command m) in
    let '(token, seed) :=
      if negb (memoryRandomTokenAddress m =? 0)%Z then (randomToken, rnd)
      else (random_token m, random_token_seed m) in
    Mngr booster (lastProtocol m) false (memoryRandomTokenAddress m)
         token seed display
  else
    Mngr (startBooster m) (lastProtocol m) false (memoryRandomTokenAddress m)
         (random_token m) (random_token_seed m) (display_command m).

(** What happens to the mailbox over time: a command is delivered by the
    interrupt handler, or the main loop makes a pass. *)
Inductive mngr_event :=
| Command (protocol : TransmissionProtocol)
| Loop (rnd : Z).

Definition mngr_step (m : mngr) (e : mngr_event) : mngr :=
  match e with
  | Command protocol => handle_protocol_command m protocol
  | Loop rnd => mngr_loop m rnd
  end.

Definition mngr_run (m : mngr) (es : list mngr_event) : mngr :=
  fold_left mngr_step es m.

End Protocol.

(** The commands that reach the [switch] of [mngr_loop]: at each pass of
    the loop, the command delivered last since the pass before, if any. *)
Fixpoint consumed (es : list mngr_event) (pending : option Z) : list Z :=
  match es with
  | [] => []
  | Command protocol :: rest => consumed rest (Some (command_id protocol))
  | Loop _ :: rest =>
    match pending with
    | Some c => c :: consumed rest None
    | None => consumed rest None
    end
  end.

(** The mailbox as a pending command. *)
Definition mailbox (m : mngr) : option Z :=
  if lastProtocolValid m then Some (command_id (lastProtocol m)) else None.

End Mngr.
Export Mngr.

(** ** [cgi_mkdir] *)

(** [f_mkdir(path)], from its documented contract: the name must be free
    and its parent an existing directory.  The cluster that a new directory
    takes is not counted, as the size of a directory is not when
    [f_unlink] removes it. *)
Definition f_mkdir (v : volume) (path : list ascii) : FRESULT * volume :=
  let p := split_path path in
  match lookup_node v p with
  | Some _ => (FR_EXIST, v)
  | None =>
    match lookup_node v (parent p) with
    | Some Dir => (FR_OK, set_entry v p Dir)
    | _ => (FR_NO_PATH, v)
    end
  end.

Definition cgi_mkdir (st : state) (ps : params) : state :=
  match param ps "folder", param ps "src" with
  | Some folder, Some src =>
    match decode_param folder 256, decode_param src 128 with
    | Some df, Some ds =>
      let path := join_path 512 df ds in
      let '(r, v) := f_mkdir (vol st) path in
      let st1 := set_vol st v in
      if bool_decide (r ≠ FR_OK) then
        set_json st1 (JsonErrorCode "mkdir failed" (fresult_code r))
      else set_json st1 (JsonStatus "created")
    | _, _ => set_json st (JsonError "invalid encoding")
    end
  | _, _ => set_json st (JsonError "missing parameters")
  end.

Global Instance node_eq_dec : EqDecision node.
Proof. solve_decision. Defined.

(** Every entry of the volume lies in a directory that exists. *)
Definition parents_exist (v : volume) : Prop :=
  map_Forall (λ k _, lookup_node v (parent k) = Some Dir) (entries v).

Global Instance parents_exist_dec v : Decision (parents_exist v).
Proof. unfold parents_exist. apply _. Defined.

(** ** A whole upload *)

(** The [upload_chunk] requests of one upload: [payload k] is the payload
    parameter of chunk [k], and the requests arrive in the order [order]. *)
Definition chunk_requests (tok : string) (payload : nat → string)
    (order : list nat) : list request :=
  (λ k, UploadChunk (chunk_params tok (dec k) (payload k))) <$> order.

(** The pieces [0 .. n-1] one after the other. *)
Definition pieces_data (piece : nat → list ascii) (n : nat) : list ascii :=
  concat (piece <$> seq 0 n).

(** The part of a file that chunk [k] with [len] bytes covers. *)
Definition chunk_region (k len : nat) (data : list ascii) : list ascii :=
  take len (drop (k * Z.to_nat UPLOAD_CHUNK_SIZE) data).

(** An upload under the token [tok] is under way on the file at [p], which
    holds [data] so far, and the volume has room for it to grow to [total]
    bytes. *)
Definition uploading (st : state) (tok : string) (p : list string)
    (total : nat) (data : list ascii) : Prop :=
  ∃ i, find_upload_ctx st tok = Some i ∧
       fil_valid (ctx_file (upload_contexts st) i) = true ∧
       fil_path (ctx_file (upload_contexts st) i) = p ∧
       has_flag (fil_flag (ctx_file (upload_contexts st) i)) FA_WRITE = true ∧
       entries (vol st) !! p = Some (File data) ∧
       length data ≤ total ∧ total ≤ length data + free_bytes (vol st).

(** ** Joining the WiFi network ([mngr_init]) *)

Module Wifi.

(** How the connection loop of [mngr_init] ends: with the network joined,
    with [mngr_init] returning the last error, or, in the model, with the
    list of results used up. *)
Inductive connect_result :=
| Connected
| GaveUp (err : Z)
| Pending.

Section Connect.

(** The two status codes of [network.h] that the loop names. *)
Variables NETWORK_WIFI_STA_CONN_OK NETWORK_WIFI_STA_CONN_ERR_TIMEOUT : Z.

(** [while (err != NETWORK_WIFI_STA_CONN_OK)] with the values that the
    calls of [network_wifiStaConnect] return, in order.  The display, the
    LED and the pauses are left out. *)
Fixpoint connect_loop (err numRetries : Z) (results : list Z)
    : connect_result :=
  if (err =? NETWORK_WIFI_STA_CONN_OK)%Z then Connected
  else
    match results with
    | [] => Pending
    | e :: rest =>
      if (e <? 0)%Z then
        if (numRetries - 1 <=? 0)%Z then GaveUp e
        else connect_loop e (numRetries - 1) rest
      else connect_loop e numRetries rest
    end.

Definition wifi_connect (results : list Z) : connect_result :=
  connect_loop NETWORK_WIFI_STA_CONN_ERR_TIMEOUT 3 results.

End Connect.

(** The failed attempts among the results. *)
Definition failures (results : list Z) : nat :=
  length (filter (λ e, (e < 0)%Z) results).

End Wifi.
Export Wifi.


(** * Properties *)

(** ** Characters and the parameter decoder *)

Ltac each_ascii c :=
  destruct c as [[] [] [] [] [] [] [] []].

Lemma hex_digit_value_spec c :
  hex_digit_value c = if isxdigit c then Some (hex_nibble c) else None.
Proof. each_ascii c; vm_compute; reflexivity. Qed.

Lemma hex_nibble_range c : isxdigit c = true → (0 ≤ hex_nibble c < 16)%Z.
Proof. each_ascii c; vm_compute; intuition congruence. Qed.

Lemma isxdigit_not_nul c : isxdigit c = true → is_nul c = false.
Proof. each_ascii c; vm_compute; congruence. Qed.

Lemma small_cases (P : Z → Prop) (n : Z) :
  Forall P (seqZ 0 n) → ∀ a, (0 ≤ a < n)%Z → P a.
Proof.
  intros HP a Ha. rewrite Forall_forall in HP. apply HP.
  apply elem_of_seqZ. lia.
Qed.

Lemma lor_shiftl_nibbles a b :
  (0 ≤ a < 16)%Z → (0 ≤ b < 16)%Z → Z.lor (Z.shiftl a 4) b = (16 * a + b)%Z.
Proof.
  intros Ha Hb. revert b Hb. revert a Ha.
  apply (small_cases
           (λ a, ∀ b, (0 ≤ b < 16)%Z →
                      Z.lor (Z.shiftl a 4) b = (16 * a + b)%Z) 16).
  vm_compute seqZ.
  repeat (apply Forall_cons; split;
          [apply (small_cases _ 16); vm_compute; repeat constructor|]).
  constructor.
Qed.

Lemma percent_byte_spec h l :
  percent_byte h l =
  if isxdigit h && isxdigit l
  then Some (chr (Z.lor (Z.shiftl (hex_nibble h) 4) (hex_nibble l)))
  else None.
Proof.
  unfold percent_byte. rewrite !hex_digit_value_spec.
  destruct (isxdigit h) eqn:Hh; [|done].
  destruct (isxdigit l) eqn:Hl; [|done]. simpl.
  by rewrite lor_shiftl_nibbles by by apply hex_nibble_range.
Qed.

Lemma is_nul_true c : is_nul c = true ↔ c = NUL.
Proof. apply Ascii.eqb_eq. Qed.

Lemma is_nul_not_xdigit c : is_nul c = true → isxdigit c = false.
Proof. intros ->%is_nul_true. reflexivity. Qed.

Lemma rd_drop inp i k : rd inp (i + k) = nth k (drop i inp) NUL.
Proof. unfold rd. by rewrite !nth_lookup, lookup_drop. Qed.

Lemma c_str_app_nul l rest : c_str (l ++ NUL :: rest) = c_str l.
Proof.
  induction l as [|c l IH]; simpl; [done|].
  destruct (is_nul c); [done|]. by rewrite IH.
Qed.

Lemma c_str_idemp l : c_str (c_str l) = c_str l.
Proof.
  induction l as [|c l IH]; simpl; [done|].
  destruct (is_nul c) eqn:E; simpl; [done|]. by rewrite E, IH.
Qed.

Lemma percent_decode_cons c s :
  percent_decode (c :: s) =
  if escape_at c s then escape_byte s :: percent_decode (drop 2 s)
  else plus_or_self c :: percent_decode s.
Proof.
  unfold escape_at, escape_byte.
  destruct s as [|h [|l r]]; simpl.
  - by rewrite andb_false_r.
  - by rewrite andb_false_r.
  - rewrite percent_byte_spec.
    destruct (Ascii.eqb c "%"); simpl; [|done].
    by destruct (isxdigit h && isxdigit l).
Qed.

Lemma escape_at_c_str c s :
  escape_at c (c_str s) = escape_at c s ∧
  (escape_at c s = true →
   escape_byte (c_str s) = escape_byte s ∧
   drop 2 (c_str s) = c_str (drop 2 s)).
Proof.
  unfold escape_at, escape_byte.
  destruct s as [|h [|l r]]; simpl; [done| |].
  - destruct (is_nul h) eqn:Eh; simpl; [|by rewrite !andb_false_r].
    by rewrite (is_nul_not_xdigit h), !andb_false_r.
  - destruct (is_nul h) eqn:Eh; simpl.
    { rewrite (is_nul_not_xdigit h) by done. by rewrite !andb_false_r. }
    destruct (is_nul l) eqn:El; simpl.
    { rewrite (is_nul_not_xdigit l) by done. by rewrite !andb_false_r. }
    done.
Qed.

Lemma url_decode_loop_spec inp outLen fuel : ∀ i o out,
  outLen - 1 - o ≤ fuel → o ≤ outLen - 1 → outLen ≤ length out →
  url_decode_loop fuel inp outLen i o out =
  let d := take (outLen - 1 - o) (percent_decode (c_str (drop i inp))) in
  (o + length d, take o out ++ d ++ drop (o + length d) out).
Proof.
  assert (Hstop : ∀ o (out : list ascii),
    (o, out) = (o + length (@nil ascii), take o out ++ [] ++ drop (o + length (@nil ascii)) out)).
  { intros o out. simpl. by rewrite Nat.add_0_r, take_drop. }
  induction fuel as [|fuel IH]; intros i o out Hfuel Ho Hlen; cbn zeta.
  { replace (outLen - 1 - o) with 0 by lia. apply Hstop. }
  cbn [url_decode_loop].
  replace (rd inp i) with (nth 0 (drop i inp) NUL)
    by by rewrite <- rd_drop, Nat.add_0_r.
  rewrite !rd_drop.
  destruct (drop i inp) as [|c s] eqn:Hdrop.
  { cbn [nth c_str percent_decode]. rewrite take_nil. apply Hstop. }
  cbn [nth c_str].
  destruct (is_nul c) eqn:Hc.
  { cbn [negb andb percent_decode]. rewrite take_nil. apply Hstop. }
  destruct (o <? outLen - 1) eqn:Hroom; cbn [negb andb].
  2:{ apply Nat.ltb_ge in Hroom. replace (outLen - 1 - o) with 0 by lia.
      apply Hstop. }
  apply Nat.ltb_lt in Hroom.
  assert (Hs : ∀ k, drop (i + S k) inp = drop k s).
  { intros k. rewrite <- (drop_drop inp (S k) i), Hdrop. done. }
  assert (Hstore : ∀ b (d : list ascii),
    (o + 1 + length d,
     take (o + 1) (<[o := b]> out) ++ d ++ drop (o + 1 + length d) (<[o := b]> out))
    = (o + length (b :: d),
       take o out ++ (b :: d) ++ drop (o + length (b :: d)) out)).
  { intros b d. simpl. f_equal; [lia|].
    rewrite Nat.add_1_r, (take_S_r _ _ b)
      by (apply list_lookup_insert_eq; lia).
    rewrite take_insert_ge by lia.
    rewrite drop_insert_lt by lia.
    rewrite <- app_assoc. simpl. repeat f_equal. lia. }
  replace (outLen - 1 - o) with (S (outLen - 1 - (o + 1))) by lia.
  rewrite percent_decode_cons.
  destruct (escape_at_c_str c s) as [Heq Hesc]. rewrite Heq.
  fold (escape_at c s). fold (escape_byte s).
  destruct (escape_at c s) eqn:Hat.
  - destruct (Hesc eq_refl) as [-> ->].
    rewrite IH by (rewrite ?length_insert; lia).
    replace (i + 2 + 1) with (i + 3) by lia. rewrite (Hs 2). cbn zeta.
    rewrite firstn_cons. apply Hstore.
  - rewrite firstn_cons. unfold plus_or_self.
    destruct (Ascii.eqb c "+");
      rewrite IH by (rewrite ?length_insert; lia);
      rewrite (Hs 0); cbn zeta; apply Hstore.
Qed.

Lemma url_decode_spec inp out outLen :
  0 < outLen → outLen ≤ length out →
  url_decode (Some inp) (Some out) outLen =
  let d := take (outLen - 1) (percent_decode (c_str inp)) in
  (true, Some (d ++ NUL :: drop (S (length d)) out)).
Proof.
  intros Hpos Hlen. unfold url_decode.
  destruct (outLen =? 0) eqn:E; [apply Nat.eqb_eq in E; lia|].
  rewrite url_decode_loop_spec by lia. cbn zeta.
  rewrite Nat.sub_0_r, take_0, drop_0. cbn [app Nat.add].
  set (d := take (outLen - 1) (percent_decode (c_str inp))).
  assert (length d ≤ outLen - 1) by (unfold d; rewrite length_take; lia).
  f_equal. f_equal.
  rewrite insert_app_r_alt by lia. rewrite Nat.sub_diag.
  destruct (drop (length d) out) as [|x r] eqn:Hd.
  { apply (f_equal length) in Hd. rewrite length_drop in Hd. simpl in Hd. lia. }
  change (S (length d)) with (1 + length d).
  rewrite Nat.add_comm, <- drop_drop, Hd. reflexivity.
Qed.

Lemma c_str_no_nul l : NUL ∉ l → c_str l = l.
Proof.
  induction l as [|c l IH]; [done|]. intros Hn. simpl.
  destruct (is_nul c) eqn:E.
  - apply is_nul_true in E. subst. exfalso. apply Hn. left.
  - f_equal. apply IH. intros ?. apply Hn. by right.
Qed.

(** C4.  For a non-null input and an output buffer of non-zero capacity
    [outLen], [url_decode] returns true; the output buffer then starts with
    the first [outLen - 1] bytes of the percent-decoding of the input string
    ([%XX] to its byte, [+] to a space, other bytes verbatim), followed by a
    NUL; the rest of the buffer is untouched.  When the decoding fits the
    capacity nothing is cut; when it does not, the cut is silent. *)
Theorem url_decode_happy_path (inp out : list ascii) (outLen : nat) :
  0 < outLen → outLen ≤ length out →
  let decoded := percent_decode (c_str inp) in
  let kept := take (outLen - 1) decoded in
  ∃ out',
    url_decode (Some inp) (Some out) outLen = (true, Some out') ∧
    out' = kept ++ NUL :: drop (S (length kept)) out ∧
    length out' = length out ∧
    c_str out' = c_str kept ∧
    (length decoded < outLen → kept = decoded).
Proof.
  intros Hpos Hlen decoded kept.
  assert (Hk : length kept ≤ outLen - 1)
    by (unfold kept; rewrite length_take; lia).
  eexists. split; [by apply url_decode_spec|]. cbn zeta. fold decoded kept.
  split_and!.
  - done.
  - rewrite length_app. simpl. rewrite length_drop. lia.
  - apply c_str_app_nul.
  - intros Hfit. unfold kept. apply take_ge. lia.
Qed.

Lemma url_decode_happy_path_witness :
  ∃ out',
    url_decode (Some (chars "a%2Fb+c%zz")) (Some (replicate 6 "x"%char)) 6
    = (true, Some out') ∧
    out' = chars "a/b c" ++ [NUL].
Proof.
  destruct (url_decode_happy_path (chars "a%2Fb+c%zz") (replicate 6 "x"%char) 6)
    as (out' & Hrun & Hout & _); [lia | simpl; lia |].
  exists out'. split; [exact Hrun | exact Hout].
Defined.




(** ** The model on concrete inputs *)

(** The example of the comment above [url_decode] in the source. *)
Example url_decode_ssid :
  url_decode (Some (chars "My%20SSID%21")) (Some (replicate 16 "x"%char)) 16
  = (true, Some (chars "My SSID!" ++ NUL :: replicate 7 "x"%char)).
Proof. vm_compute. reflexivity. Qed.

Example url_decode_lower_case_hex :
  decode_param "%2fa%2Fb%zz%4" 64 = Some (chars "/a/b%zz%4").
Proof. vm_compute. reflexivity. Qed.

Example url_decode_embedded_nul :
  decode_param "ab%00cd" 64 = Some (chars "ab").
Proof. vm_compute. reflexivity. Qed.

Example atoi_sign_and_tail : atoi (chars "  -12x") = (-12)%Z.
Proof. reflexivity. Qed.

Example atoi_saturates : atoi (chars "99999999999") = INT_MAX.
Proof. reflexivity. Qed.

Example base64_hello :
  base64_encode (chars "hello") = chars "aGVsbG8=" ∧
  base64_decode (chars "aGVsbG8=") = Some (chars "hello") ∧
  base64_decode (chars "aGVsbG8") = None.
Proof. vm_compute. auto. Qed.

Example split_path_separators :
  split_path (chars "/docs//note.txt/") = ["docs"; "note.txt"].
Proof. reflexivity. Qed.

Example find_returns_lowest_slot :
  find_ctx (run empty_pool [Allocate "t"; Allocate "t"]) "t" = Some 0.
Proof. vm_compute. reflexivity. Qed.

Example long_token_is_cut :
  token <$> run empty_pool
              [Allocate "0123456789012345678901234567890123456789"] !! 0
  = Some "0123456789012345678901234567890".
Proof. vm_compute. reflexivity. Qed.

Example upload_chunk_on_full_volume :
  json_buff (cgi_upload_chunk uploading_state
               (chunk_params "up" "1" "aGVsbG8%3D"))
  = JsonError "write failed".
Proof. vm_compute. reflexivity. Qed.

Example delete_missing_entry :
  json_buff (cgi_del (init_state sample_volume) (del_params "/docs" "none"))
  = JsonErrorCode "delete failed" 4.
Proof. vm_compute. reflexivity. Qed.

Example parseUrl_without_separator :
  (parseUrl (Sizes 16 128 256 256 128) (Some "example.com/a.zip")
            zero_components (DownloadFile "" "")).1.1 = (-1)%Z.
Proof. reflexivity. Qed.

Example largest_chunk_reply :
  length (render (JsonChunk 2048
                    (base64_encode (replicate 2048 "x"%char)))) = 2774.
Proof. vm_compute. reflexivity. Qed.

(** ** The context pools *)

Lemma find_ctx_Some pool tok i :
  find_ctx pool tok = Some i ↔
  ∃ c, pool !! i = Some c ∧ in_use c = true ∧ token c = tok ∧
       ∀ j cj, pool !! j = Some cj → j < i →
               ¬ (in_use cj = true ∧ token cj = tok).
Proof.
  unfold find_ctx. split.
  - intros H. apply fmap_Some in H as ([j c] & H & ->).
    apply list_find_Some in H as (Hl & [Hu Ht] & Hmin). eauto 10.
  - intros (c & Hl & Hu & Ht & Hmin). apply fmap_Some. exists (i, c).
    split; [|done]. apply list_find_Some. eauto.
Qed.

Lemma find_ctx_None pool tok :
  find_ctx pool tok = None ↔
  ∀ j cj, pool !! j = Some cj → ¬ (in_use cj = true ∧ token cj = tok).
Proof.
  unfold find_ctx. rewrite fmap_None, list_find_None, Forall_lookup. done.
Qed.

Lemma alloc_ctx_Some pool tok i pool' :
  alloc_ctx pool tok = Some (i, pool') ↔
  ∃ c, pool !! i = Some c ∧ in_use c = false ∧
       (∀ j cj, pool !! j = Some cj → j < i → in_use cj = true) ∧
       pool' = <[i := Ctx (strncpy_str tok (TOKEN_SIZE - 1)) (file c) true]> pool.
Proof.
  unfold alloc_ctx. split.
  - destruct (list_find _ pool) as [[j c]|] eqn:H; [|done].
    intros [= -> <-]. apply list_find_Some in H as (Hl & Hu & Hmin).
    exists c. split_and!; try done.
    intros k ck Hk Hlt. specialize (Hmin k ck Hk Hlt).
    by destruct (in_use ck).
  - intros (c & Hl & Hu & Hmin & ->).
    assert (list_find (λ c, in_use c = false) pool = Some (i, c)) as ->; [|done].
    apply list_find_Some. split_and!; try done.
    intros k ck Hk Hlt. rewrite (Hmin k ck Hk Hlt). done.
Qed.

Lemma alloc_ctx_None pool tok :
  alloc_ctx pool tok = None ↔ pool_full pool.
Proof.
  unfold alloc_ctx, pool_full.
  destruct (list_find _ pool) as [[j c]|] eqn:H.
  - split; [done|]. intros Hfull.
    apply list_find_Some in H as (Hl & Hu & _).
    rewrite Forall_lookup in Hfull. specialize (Hfull j c Hl). congruence.
  - split; [|done]. intros _. apply list_find_None in H.
    eapply Forall_impl; [exact H|]. intros c. simpl. by destruct (in_use c).
Qed.

Lemma length_free_ctx pool i : length (free_ctx pool i) = length pool.
Proof.
  unfold free_ctx. destruct (pool !! i) as [c|]; [|done].
  destruct (in_use c); [|done]. by rewrite length_insert.
Qed.

Lemma length_set_file pool i f : length (set_file pool i f) = length pool.
Proof.
  unfold set_file. destruct (pool !! i); [|done]. by rewrite length_insert.
Qed.

Lemma length_alloc_ctx pool tok i pool' :
  alloc_ctx pool tok = Some (i, pool') → length pool' = length pool.
Proof.
  intros (c & _ & _ & _ & ->)%alloc_ctx_Some. by rewrite length_insert.
Qed.

(** What the three slot updates do to the slot at [j]. *)
Lemma lookup_free_ctx pool i j :
  free_ctx pool i !! j =
  (λ c, if bool_decide (i = j) then Ctx (token c) (f_close (file c)).2 false
        else c) <$> pool !! j
  ∨ free_ctx pool i !! j = pool !! j ∧
    (i = j → ∀ c, pool !! j = Some c → in_use c = false).
Proof.
  unfold free_ctx. destruct (pool !! i) as [c|] eqn:Hi.
  - destruct (in_use c) eqn:Hu.
    + left. destruct (decide (i = j)) as [->|Hne].
      * rewrite list_lookup_insert_eq by by eapply lookup_lt_Some.
        rewrite Hi. simpl. by rewrite bool_decide_eq_true_2.
      * rewrite list_lookup_insert_ne by done.
        destruct (pool !! j); simpl; [|done].
        by rewrite bool_decide_eq_false_2.
    + right. split; [done|]. intros <- c' Hc'. congruence.
  - right. split; [done|]. intros <- c' Hc'. congruence.
Qed.

Lemma in_use_free_ctx pool i j c' :
  free_ctx pool i !! j = Some c' →
  ∃ c, pool !! j = Some c ∧ token c' = token c ∧
       in_use c' = (if bool_decide (i = j) then false else in_use c).
Proof.
  destruct (lookup_free_ctx pool i j) as [H|[H Hfree]]; rewrite H.
  - destruct (pool !! j) as [c|]; [|done]. simpl. intros [= <-].
    exists c. split; [done|]. by case_bool_decide.
  - intros Hj. exists c'. split_and!; try done.
    case_bool_decide; [|done]. by eapply Hfree.
Qed.

Lemma lookup_set_file pool i f j :
  set_file pool i f !! j =
  (λ c, if bool_decide (i = j) then Ctx (token c) f (in_use c) else c)
    <$> pool !! j.
Proof.
  unfold set_file. destruct (pool !! i) as [c|] eqn:Hi.
  - destruct (decide (i = j)) as [->|Hne].
    + rewrite list_lookup_insert_eq by by eapply lookup_lt_Some.
      rewrite Hi. simpl. by rewrite bool_decide_eq_true_2.
    + rewrite list_lookup_insert_ne by done.
      destruct (pool !! j); simpl; [|done]. by rewrite bool_decide_eq_false_2.
  - destruct (pool !! j) as [c|] eqn:Hj; simpl; [|done].
    case_bool_decide; [congruence|done].
Qed.

Lemma find_ctx_set_file pool i f tok :
  find_ctx (set_file pool i f) tok = find_ctx pool tok.
Proof.
  destruct (find_ctx pool tok) as [k|] eqn:Hf.
  - apply find_ctx_Some in Hf as (c & Hl & Hu & Ht & Hmin).
    apply find_ctx_Some. setoid_rewrite lookup_set_file.
    exists (if bool_decide (i = k) then Ctx (token c) f (in_use c) else c).
    rewrite Hl. split_and!; try by case_bool_decide.
    intros j cj Hj Hlt. destruct (pool !! j) as [c0|] eqn:Hj0; [|done].
    simpl in Hj. injection Hj as <-. specialize (Hmin j c0 Hj0 Hlt).
    by case_bool_decide.
  - rewrite find_ctx_None in Hf. apply find_ctx_None.
    intros j cj. rewrite lookup_set_file.
    destruct (pool !! j) as [c0|] eqn:Hj0; [|done]. simpl. intros [= <-].
    specialize (Hf j c0 Hj0). by case_bool_decide.
Qed.

Lemma in_use_set_file pool i f :
  in_use <$> set_file pool i f = in_use <$> pool.
Proof.
  apply list_eq. intros j. rewrite !list_lookup_fmap, lookup_set_file.
  destruct (pool !! j); simpl; [|done]. by case_bool_decide.
Qed.

Lemma in_use_count_fmap pool pool' :
  in_use <$> pool = in_use <$> pool' → in_use_count pool = in_use_count pool'.
Proof.
  unfold in_use_count. revert pool'.
  induction pool as [|c pool IH]; intros [|c' pool']; try done.
  intros [= Hc Hr]. rewrite !filter_cons, Hc.
  destruct (decide (in_use c' = true)); simpl; rewrite (IH pool' Hr); done.
Qed.

(** Allocating, attaching a file object and freeing again restores the
    in-use flag of every slot. *)
Lemma in_use_alloc_free pool tok i pool' f :
  alloc_ctx pool tok = Some (i, pool') →
  in_use <$> free_ctx (set_file pool' i f) i = in_use <$> pool.
Proof.
  intros (c & Hl & Hu & _ & ->)%alloc_ctx_Some.
  apply list_eq. intros j. rewrite !list_lookup_fmap.
  assert (Hi : i < length pool) by by eapply lookup_lt_Some.
  destruct (free_ctx _ i !! j) as [c'|] eqn:Hj.
  - apply in_use_free_ctx in Hj as (c1 & Hj & _ & Hin).
    rewrite lookup_set_file in Hj.
    destruct (decide (i = j)) as [->|Hne].
    + rewrite bool_decide_eq_true_2 in Hin by done. rewrite Hl. simpl. congruence.
    + rewrite bool_decide_eq_false_2 in Hin by done.
      rewrite list_lookup_insert_ne in Hj by done.
      destruct (pool !! j) as [c0|]; [|done]. simpl in *.
      rewrite bool_decide_eq_false_2 in Hj by done. congruence.
  - apply lookup_ge_None in Hj.
    rewrite length_free_ctx, length_set_file, length_insert in Hj.
    apply lookup_ge_None in Hj. by rewrite Hj.
Qed.

Lemma decode_param_spec value size :
  0 < size →
  decode_param value size =
  Some (c_str (take (size - 1) (percent_decode (c_str (chars value))))).
Proof.
  intros Hs. unfold decode_param.
  rewrite url_decode_spec by (rewrite ?length_replicate; lia). cbv beta iota zeta.
  by rewrite c_str_app_nul.
Qed.

Lemma length_alloc_upload st tok i st' :
  alloc_upload_ctx st tok = Some (i, st') →
  length (upload_contexts st') = length (upload_contexts st) ∧
  download_contexts st' = download_contexts st.
Proof.
  unfold alloc_upload_ctx. intros H. apply fmap_Some in H as ([j p] & H & [= -> ->]).
  simpl. split; [by eapply length_alloc_ctx|done].
Qed.

Lemma length_alloc_download st tok i st' :
  alloc_download_ctx st tok = Some (i, st') →
  length (download_contexts st') = length (download_contexts st) ∧
  upload_contexts st' = upload_contexts st.
Proof.
  unfold alloc_download_ctx. intros H. apply fmap_Some in H as ([j p] & H & [= -> ->]).
  simpl. split; [by eapply length_alloc_ctx|done].
Qed.

Lemma write_segments_lengths i p : ∀ st,
  length (upload_contexts (fold_left (write_segment i) p st))
  = length (upload_contexts st) ∧
  download_contexts (fold_left (write_segment i) p st) = download_contexts st.
Proof.
  induction p as [|seg p IH]; intros st; simpl; [done|].
  destruct (IH (write_segment i st seg)) as [-> ->].
  unfold write_segment. destruct (f_write _ _ _) as [[[? ?] ?] ?]. simpl.
  by rewrite length_set_file.
Qed.

Ltac pool_lengths :=
  repeat match goal with
  | H : alloc_upload_ctx _ _ = Some _ |- _ =>
    apply length_alloc_upload in H as [? ?]
  | H : alloc_download_ctx _ _ = Some _ |- _ =>
    apply length_alloc_download in H as [? ?]
  | |- context [match ?x with _ => _ end] => destruct x eqn:?
  | |- context [let '(_, _) := ?x in _] => destruct x eqn:?
  end;
  simpl in *; rewrite ?length_free_ctx, ?length_set_file; try done;
  try (split; congruence).

(** The two pools keep their size under every request. *)
Lemma handle_pool_lengths st r :
  length (upload_contexts (handle st r)) = length (upload_contexts st) ∧
  length (download_contexts (handle st r)) = length (download_contexts st).
Proof.
  destruct r; simpl.
  - unfold cgi_upload_start. pool_lengths.
  - unfold cgi_upload_chunk. pool_lengths.
  - unfold cgi_upload_end. pool_lengths.
  - unfold cgi_upload_cancel. pool_lengths.
  - unfold cgi_download_start. pool_lengths.
  - unfold cgi_download_chunk. pool_lengths.
  - unfold cgi_download_end. pool_lengths.
  - unfold cgi_download_cancel. pool_lengths.
  - unfold cgi_del. pool_lengths.
  - unfold httpd_post_begin. pool_lengths.
  - unfold httpd_post_receive_data.
    destruct (current_chunk_ctx st) as [i|]; [|done].
    destruct p as [|seg p]; [done|]. case_bool_decide; [|done].
    cbn [snd]. by destruct (write_segments_lengths i (seg :: p) st) as [-> ->].
  - done.
Qed.

Lemma alloc_after_free pool i c tok :
  pool !! i = Some c → in_use c = true →
  ∃ j pool', alloc_ctx (free_ctx pool i) tok = Some (j, pool') ∧ j ≤ i ∧
             (pool_full pool → j = i).
Proof.
  intros Hi Hu.
  assert (Hfree : free_ctx pool i !! i
                  = Some (Ctx (token c) (f_close (file c)).2 false)).
  { unfold free_ctx. rewrite Hi, Hu.
    apply list_lookup_insert_eq. by eapply lookup_lt_Some. }
  destruct (alloc_ctx (free_ctx pool i) tok) as [[j pool']|] eqn:Ha.
  - exists j, pool'. split; [done|].
    apply alloc_ctx_Some in Ha as (cj & Hj & Huj & Hmin & _).
    assert (j ≤ i) as Hle.
    { destruct (decide (j ≤ i)); [done|].
      specialize (Hmin i _ Hfree ltac:(lia)). done. }
    split; [done|]. intros Hfull.
    destruct (decide (j = i)) as [|Hne]; [done|].
    apply in_use_free_ctx in Hj as (c0 & Hj0 & _ & Hin).
    rewrite bool_decide_eq_false_2 in Hin by lia.
    unfold pool_full in Hfull. rewrite Forall_lookup in Hfull.
    specialize (Hfull j c0 Hj0). congruence.
  - apply alloc_ctx_None in Ha. unfold pool_full in Ha. rewrite Forall_lookup in Ha.
    specialize (Ha i _ Hfree). done.
Qed.

(** C5.  Each pool has four slots, at the start and after every request.
    With every upload (download) slot occupied, an [upload_start]
    ([download_start]) request carrying its two parameters is answered with
    the error "no context available" and changes nothing else; once an
    occupied slot of a pool is released, the next allocation in that pool
    succeeds (in the released slot itself when the pool was full). *)
Theorem pool_capacity (st : state) (ps : params) (tok fullpath : string) :
  param ps "token" = Some tok → param ps "fullpath" = Some fullpath →
  (∀ v, length (upload_contexts (init_state v)) = 4 ∧
        length (download_contexts (init_state v)) = 4) ∧
  (∀ r, length (upload_contexts (handle st r)) = length (upload_contexts st) ∧
        length (download_contexts (handle st r))
        = length (download_contexts st)) ∧
  (pool_full (upload_contexts st) →
   alloc_upload_ctx st tok = None ∧
   cgi_upload_start st ps = set_json st (JsonError "no context available")) ∧
  (pool_full (download_contexts st) →
   alloc_download_ctx st tok = None ∧
   cgi_download_start st ps = set_json st (JsonError "no context available")) ∧
  (∀ i c tok', upload_contexts st !! i = Some c → in_use c = true →
     ∃ j st', alloc_upload_ctx (free_upload_ctx st i) tok' = Some (j, st') ∧
              j ≤ i ∧ (pool_full (upload_contexts st) → j = i)) ∧
  (∀ i c tok', download_contexts st !! i = Some c → in_use c = true →
     ∃ j st', alloc_download_ctx (free_download_ctx st i) tok' = Some (j, st') ∧
              j ≤ i ∧ (pool_full (download_contexts st) → j = i)).
Proof.
  intros Htok Hpath. split_and!.
  - done.
  - apply handle_pool_lengths.
  - intros Hfull. apply (alloc_ctx_None _ tok) in Hfull.
    assert (alloc_upload_ctx st tok = None) as Hnone
      by (unfold alloc_upload_ctx; by rewrite Hfull).
    split; [done|]. unfold cgi_upload_start.
    by rewrite Htok, Hpath, decode_param_spec, Hnone by lia.
  - intros Hfull. apply (alloc_ctx_None _ tok) in Hfull.
    assert (alloc_download_ctx st tok = None) as Hnone
      by (unfold alloc_download_ctx; by rewrite Hfull).
    split; [done|]. unfold cgi_download_start.
    by rewrite Htok, Hpath, decode_param_spec, Hnone by lia.
  - intros i c tok' Hi Hu.
    destruct (alloc_after_free _ i c tok' Hi Hu) as (j & pool' & Ha & Hle & Hj).
    exists j, (set_uploads (free_upload_ctx st i) pool').
    unfold alloc_upload_ctx. simpl. by rewrite Ha.
  - intros i c tok' Hi Hu.
    destruct (alloc_after_free _ i c tok' Hi Hu) as (j & pool' & Ha & Hle & Hj).
    exists j, (set_downloads (free_download_ctx st i) pool').
    unfold alloc_download_ctx. simpl. by rewrite Ha.
Qed.

(** C6.  When [upload_start] answers with an error, whichever step failed,
    every upload slot has the in-use flag it had before the request: the
    slot taken for a file that could not be opened is released again, and
    the count of contexts in use is unchanged. *)
Theorem upload_start_failure_releases (st : state) (ps : params) :
  is_error (json_buff (cgi_upload_start st ps)) = true →
  in_use <$> upload_contexts (cgi_upload_start st ps)
  = in_use <$> upload_contexts st ∧
  in_use_count (upload_contexts (cgi_upload_start st ps))
  = in_use_count (upload_contexts st).
Proof.
  intros Herr.
  assert (in_use <$> upload_contexts (cgi_upload_start st ps)
          = in_use <$> upload_contexts st) as Heq;
    [|split; [done|by apply in_use_count_fmap]].
  revert Herr. unfold cgi_upload_start.
  destruct (param ps "token") as [tok|]; [|done].
  destruct (param ps "fullpath") as [fullpath|]; [|done].
  destruct (decode_param fullpath 256) as [decoded_path|]; [|done].
  unfold alloc_upload_ctx.
  destruct (alloc_ctx (upload_contexts st) tok) as [[i pool']|] eqn:Ha; [|done].
  simpl.
  destruct (f_open _ _ _) as [[res fil] v].
  case_bool_decide; simpl; [|done]. intros _.
  by eapply in_use_alloc_free.
Qed.

Lemma pool_capacity_witness :
  cgi_upload_start busy_state (start_params "x" "/x")
  = set_json busy_state (JsonError "no context available") ∧
  cgi_download_start busy_state (start_params "x" "/docs/note.txt")
  = set_json busy_state (JsonError "no context available") ∧
  ∃ j st', alloc_upload_ctx (free_upload_ctx busy_state 2) "x" = Some (j, st')
           ∧ j = 2.
Proof.
  destruct (pool_capacity busy_state (start_params "x" "/x") "x" "/x")
    as (_ & _ & Hup & _ & Hfree & _); [reflexivity..|].
  destruct (pool_capacity busy_state (start_params "x" "/docs/note.txt")
              "x" "/docs/note.txt")
    as (_ & _ & _ & Hdown & _); [reflexivity..|].
  assert (Hfull : pool_full (upload_contexts busy_state))
    by (vm_compute; repeat constructor).
  split_and!.
  - apply Hup, Hfull.
  - apply Hdown. vm_compute. repeat constructor.
  - destruct (Hfree 2 (Ctx "c" (Fil true ["c"] 10 0) true) "x")
      as (j & st' & Ha & _ & Hj); [reflexivity..|].
    exists j, st'. split; [exact Ha|exact (Hj Hfull)].
Defined.

Lemma upload_start_failure_releases_witness :
  json_buff (cgi_upload_start (init_state sample_volume)
               (start_params "t" "/missing/f.bin"))
  = JsonError "cannot open file" ∧
  in_use_count (upload_contexts
                  (cgi_upload_start (init_state sample_volume)
                     (start_params "t" "/missing/f.bin")))
  = in_use_count (upload_contexts (init_state sample_volume)).
Proof.
  split; [vm_compute; reflexivity|].
  apply upload_start_failure_releases. vm_compute. reflexivity.
Defined.

(** ** Token uniqueness *)

Lemma at_most_one_free pool i tok :
  at_most_one pool tok → at_most_one (free_ctx pool i) tok.
Proof.
  intros H j k cj ck Hj Hk Huj Huk Htj Htk.
  apply in_use_free_ctx in Hj as (cj0 & Hj0 & Htj0 & Hinj).
  apply in_use_free_ctx in Hk as (ck0 & Hk0 & Htk0 & Hink).
  case_bool_decide; [congruence|]. case_bool_decide; [congruence|].
  eapply (H j k cj0 ck0); congruence.
Qed.

Lemma at_most_one_alloc pool tok i pool' tok' :
  find_ctx pool (strncpy_str tok (TOKEN_SIZE - 1)) = None →
  alloc_ctx pool tok = Some (i, pool') →
  at_most_one pool tok' → at_most_one pool' tok'.
Proof.
  intros Hfresh (c & Hi & Hu & _ & ->)%alloc_ctx_Some H.
  rewrite find_ctx_None in Hfresh.
  assert (Hlt : i < length pool) by by eapply lookup_lt_Some.
  intros j k cj ck Hj Hk Huj Huk Htj Htk.
  destruct (decide (j = i)) as [->|Hji], (decide (k = i)) as [->|Hki];
    [done| | |].
  - rewrite list_lookup_insert_eq in Hj by done.
    rewrite list_lookup_insert_ne in Hk by done.
    injection Hj as <-. simpl in *. destruct (Hfresh k ck Hk). split; congruence.
  - rewrite list_lookup_insert_eq in Hk by done.
    rewrite list_lookup_insert_ne in Hj by done.
    injection Hk as <-. simpl in *. destruct (Hfresh j cj Hj). split; congruence.
  - rewrite list_lookup_insert_ne in Hj by done.
    rewrite list_lookup_insert_ne in Hk by done. by eapply (H j k cj ck).
Qed.

Lemma unique_tokens_step pool o :
  fresh_allocations pool [o] → unique_tokens pool → unique_tokens (step pool o).
Proof.
  intros [Hfresh _] H tok. destruct o as [t|t|t]; simpl.
  - destruct (alloc_ctx pool t) as [[i pool']|] eqn:Ha; [|apply H].
    by eapply at_most_one_alloc.
  - apply H.
  - destruct (find_ctx pool t); [|apply H]. by apply at_most_one_free.
Qed.

Lemma unique_tokens_run ops : ∀ pool,
  unique_tokens pool → fresh_allocations pool ops →
  unique_tokens (run pool ops).
Proof.
  induction ops as [|o ops IH]; intros pool Hu Hf; [done|].
  destruct Hf as [Ho Hrest]. simpl. apply IH; [|done].
  apply unique_tokens_step; [|done]. by split.
Qed.

Lemma unique_tokens_empty : unique_tokens empty_pool.
Proof.
  intros tok i j ci cj Hi _ Hu _ _ _.
  apply list_elem_of_lookup_2, elem_of_replicate in Hi as [-> _]. done.
Qed.

(** C2, as amended.  Starting from the empty pool, every sequence of
    allocate, find and release operations in which each allocation is given a
    token that (cut to the 31 characters a slot keeps) is not the token of a
    slot in use at that moment leaves at most one slot in use per token.
    The pool does not check this itself. *)
Theorem fresh_tokens_stay_unique (ops : list op) :
  fresh_allocations empty_pool ops → unique_tokens (run empty_pool ops).
Proof. apply unique_tokens_run, unique_tokens_empty. Qed.

Lemma fresh_tokens_stay_unique_witness :
  unique_tokens
    (run empty_pool
       [Allocate "a"; Allocate "b"; Find "a"; Release "a"; Allocate "a"]).
Proof.
  apply fresh_tokens_stay_unique. vm_compute. repeat split.
Defined.

(** C2, as stated, fails: a second [upload_start] with the token of an
    upload under way succeeds and leaves two slots in use with that token;
    so do two allocations with one token on the pool itself. *)
Lemma second_upload_start_shares_token :
  let st :=
    cgi_upload_start
      (cgi_upload_start (init_state sample_volume) (start_params "t" "/a"))
      (start_params "t" "/b") in
  json_buff st = JsonUploadStarted 4096 "POST" ∧
  ¬ at_most_one (upload_contexts st) "t" ∧
  ¬ at_most_one (run empty_pool [Allocate "t"; Allocate "t"]) "t".
Proof.
  split_and!.
  - vm_compute. reflexivity.
  - intros H.
    assert (0 = 1) as Hne; [|discriminate Hne].
    eapply H; vm_compute; reflexivity.
  - intros H.
    assert (0 = 1) as Hne; [|discriminate Hne].
    eapply H; vm_compute; reflexivity.
Qed.

(** ** The volume *)

Lemma file_data_Some v f data :
  file_data v f = Some data ↔
  fil_valid f = true ∧ entries v !! fil_path f = Some (File data).
Proof.
  unfold file_data. destruct (fil_valid f).
  - destruct (entries v !! fil_path f) as [[d|]|].
    + split; [by intros [= ->]|by intros [_ [= ->]]].
    + split; [done|by intros [_ ?]].
    + split; [done|by intros [_ ?]].
  - split; [done|by intros [? _]].
Qed.

Lemma extend_to_noop ofs data free :
  ofs ≤ length data → extend_to ofs data free = (data, free).
Proof.
  intros H. unfold extend_to. replace (ofs - length data) with 0 by lia.
  simpl. by rewrite app_nil_r, Nat.sub_0_r.
Qed.

Lemma f_lseek_write v f ofs data :
  file_data v f = Some data → has_flag (fil_flag f) FA_WRITE = true →
  let got := (ofs - length data) `min` free_bytes v in
  f_lseek v f ofs =
  (FR_OK, Fil true (fil_path f) (fil_flag f) (ofs `min` (length data + got)),
   Volume (<[fil_path f := File (data ++ replicate got NUL)]> (entries v))
          (free_bytes v - got)).
Proof.
  intros Hd Hw. unfold f_lseek, extend_to. rewrite Hd, Hw. cbn zeta.
  by rewrite length_app, length_replicate.
Qed.

Lemma f_write_in_range v f buf data :
  file_data v f = Some data → has_flag (fil_flag f) FA_WRITE = true →
  fptr f ≤ length data →
  let n := length buf `min` (length data - fptr f + free_bytes v) in
  f_write v f buf =
  (FR_OK, n, Fil true (fil_path f) (fil_flag f) (fptr f + n),
   Volume (<[fil_path f :=
               File (take (fptr f) data ++ take n buf ++ drop (fptr f + n) data)]>
             (entries v))
          (free_bytes v - (fptr f + n - length data))).
Proof.
  intros Hd Hw Hp. unfold f_write. rewrite Hd, Hw, extend_to_noop by done.
  destruct (length data <? fptr f) eqn:E; [apply Nat.ltb_lt in E; lia|done].
Qed.

Lemma splice_same {A} (pre mid post : list A) a b :
  length pre = a → length mid = b →
  take a (pre ++ mid ++ post) ++ mid ++ drop (a + b) (pre ++ mid ++ post)
  = pre ++ mid ++ post.
Proof.
  intros <- <-. rewrite take_app_length. do 2 f_equal.
  by rewrite app_assoc, <- length_app, drop_app_length.
Qed.

Lemma seek_write_fails v f ofs buf :
  file_data v f = None ∨ has_flag (fil_flag f) FA_WRITE = false →
  (seek_write v f ofs buf).1.1.1 ≠ FR_OK.
Proof.
  unfold seek_write, f_lseek, f_write.
  destruct (file_data v f) as [data|] eqn:Hd.
  - intros [?|Hw]; [done|]. rewrite Hw.
    assert (file_data v (Fil true (fil_path f) (fil_flag f)
                           (ofs `min` length data)) = Some data) as Hd'.
    { apply file_data_Some. apply file_data_Some in Hd. simpl. tauto. }
    rewrite Hd'. simpl. by rewrite Hw.
  - intros _. by rewrite Hd.
Qed.

(** The arithmetic of a seek to [ofs] in a file of [L] bytes with [F] bytes
    free, followed by a complete write of [B] bytes. *)
Lemma seek_write_arith (L F ofs B : nat) :
  let g := (ofs - L) `min` F in
  let fp := ofs `min` (L + g) in
  B `min` (L + g - fp + (F - g)) = B →
  fp ≤ L + g ∧ (B = 0 ∨ fp = ofs) ∧ (B = 0 ∨ ofs ≤ L + g) ∧
  (ofs ≤ L + g ∨ F - g = 0).
Proof.
  intros g fp Hn.
  destruct (Nat.min_spec (ofs - L) F) as [[Hlt Eg]|[Hge Eg]];
    fold g in Eg; clearbody g;
    destruct (Nat.min_spec ofs (L + g)) as [[Hlt' Ef]|[Hge' Ef]];
    fold fp in Ef; clearbody fp;
    destruct (Nat.min_spec B (L + g - fp + (F - g))) as [[Hlt'' En]|[Hge'' En]];
    rewrite En in Hn; clear En; lia.
Qed.

Lemma seek_write_ok v f ofs buf f2 v2 :
  seek_write v f ofs buf = (FR_OK, length buf, f2, v2) →
  ∃ old new,
    file_data v f = Some old ∧
    file_data v2 f2 = Some new ∧
    entries v2 = <[fil_path f := File new]> (entries v) ∧
    fil_path f2 = fil_path f ∧
    take (length buf) (drop ofs new) = buf ∧
    (∀ k, k < length old → k < ofs ∨ ofs + length buf ≤ k →
          new !! k = old !! k) ∧
    seek_write v2 f2 ofs buf = (FR_OK, length buf, f2, v2).
Proof.
  intros Hrun.
  destruct (file_data v f) as [old|] eqn:Hd.
  2:{ pose proof (seek_write_fails v f ofs buf (or_introl Hd)) as H.
      by rewrite Hrun in H. }
  destruct (has_flag (fil_flag f) FA_WRITE) eqn:Hw.
  2:{ pose proof (seek_write_fails v f ofs buf (or_intror Hw)) as H.
      by rewrite Hrun in H. }
  apply file_data_Some in Hd as Hd'. destruct Hd' as [Hvalid Hentry].
  revert Hrun. unfold seek_write.
  rewrite (f_lseek_write v f ofs old) by done. cbn zeta.
  pose proof (seek_write_arith (length old) (free_bytes v) ofs (length buf))
    as Harith. cbn zeta in Harith. revert Harith.
  set (g := (ofs - length old) `min` free_bytes v).
  set (fp := ofs `min` (length old + g)).
  assert (Hfpdef : fp = ofs `min` (length old + g)) by done.
  clearbody fp. clearbody g. intros Harith.
  set (data' := old ++ replicate g NUL).
  assert (Hlen' : length data' = length old + g)
    by (unfold data'; by rewrite length_app, length_replicate).
  assert (Hfpl : fp ≤ length data') by (clear -Hfpdef Hlen'; lia).
  rewrite (f_write_in_range _ _ buf data');
    cbn [fil_path fil_flag fptr entries free_bytes];
    [|apply file_data_Some; simpl; by rewrite lookup_insert_eq|done|done].
  cbn zeta. rewrite Hlen'.
  intros [= Hn <- <-]. rewrite Hn.
  destruct (Harith Hn) as (_ & Hfp & Hofs & Hfree). clear Harith.
  set (new := take fp data' ++ take (length buf) buf
              ++ drop (fp + length buf) data').
  assert (Hnewlen : length new = Nat.max (length data') (fp + length buf)).
  { unfold new. rewrite !length_app, !length_take, length_drop.
    clear -Hfpl. lia. }
  exists old, new. split_and!.
  - done.
  - apply file_data_Some. simpl. by rewrite lookup_insert_eq.
  - simpl. by rewrite insert_insert_eq.
  - done.
  - destruct Hfp as [H0|Hfp]; [by destruct buf|]. rewrite <- Hfp.
    unfold new. rewrite firstn_all.
    rewrite drop_app_length'; [|rewrite length_take; clear -Hfpl; lia].
    by rewrite take_app_length.
  - intros k Hk Hrange. unfold new. rewrite firstn_all.
    destruct Hfp as [H0|Hfp].
    + destruct buf; [|done]. simpl. rewrite Nat.add_0_r, take_drop.
      unfold data'. by rewrite lookup_app_l.
    + rewrite <- Hfp in Hrange. destruct Hrange as [Hlt|Hge].
      * rewrite lookup_app_l by (rewrite length_take; clear -Hfpl Hlt; lia).
        rewrite lookup_take_lt by done. unfold data'. by rewrite lookup_app_l.
      * rewrite lookup_app_r by (rewrite length_take; clear -Hfpl Hge; lia).
        rewrite lookup_app_r by (rewrite length_take; clear -Hfpl Hge; lia).
        rewrite lookup_drop, length_take.
        replace (fp + length buf + (k - fp `min` length data' - length buf))
          with k by (clear -Hfpl Hge; lia).
        unfold data'. by rewrite lookup_app_l.
  - (* the retry *)
    rewrite (f_lseek_write _ _ ofs new);
      [|apply file_data_Some; simpl; by rewrite lookup_insert_eq|done].
    cbn [fil_path fil_flag fptr entries free_bytes]. cbn zeta.
    rewrite Hnewlen.
    set (free2 := free_bytes v - g - (fp + length buf - (length old + g))).
    assert (Hg0 : (ofs - length data' `max` (fp + length buf)) `min` free2 = 0).
    { unfold free2. rewrite Hlen'. clear -Hfree Hofs. lia. }
    rewrite Hg0. simpl replicate. rewrite app_nil_r, Nat.add_0_r, Nat.sub_0_r.
    rewrite insert_insert_eq.
    assert (Hfp2 : ofs `min` (length data' `max` (fp + length buf)) = fp).
    { rewrite Hlen'. clear -Hfp Hfpdef. lia. }
    rewrite Hfp2.
    rewrite (f_write_in_range _ _ buf new);
      cbn [fil_path fil_flag fptr entries free_bytes];
      [|apply file_data_Some; simpl; by rewrite lookup_insert_eq|done
       |rewrite Hnewlen; clear; lia].
    cbn zeta. rewrite Hnewlen.
    assert (Hn2 : length buf `min`
                    (length data' `max` (fp + length buf) - fp + free2)
                  = length buf) by (clear; lia).
    rewrite Hn2.
    replace (free2 - (fp + length buf - length data' `max` (fp + length buf)))
      with free2 by (clear; lia).
    rewrite insert_insert_eq.
    assert (Hsame : take fp new ++ take (length buf) buf
                    ++ drop (fp + length buf) new = new).
    { unfold new. apply splice_same; [rewrite length_take; clear -Hfpl; lia|].
      by rewrite firstn_all. }
    rewrite Hsame. reflexivity.
Qed.

(** ** Upload chunks *)


Lemma ctx_file_set_file pool i f :
  i < length pool → ctx_file (set_file pool i f) i = f.
Proof.
  intros Hi. unfold ctx_file. rewrite lookup_set_file.
  destruct (lookup_lt_is_Some_2 pool i Hi) as [c ->]. simpl.
  by rewrite bool_decide_eq_true_2.
Qed.

Lemma find_ctx_lt pool tok i : find_ctx pool tok = Some i → i < length pool.
Proof.
  intros (c & Hl & _)%find_ctx_Some. by eapply lookup_lt_Some.
Qed.


(** [cgi_upload_chunk] once its parameters are read and the payload is
    decoded. *)
Lemma cgi_upload_chunk_eq st ps tok chunkStr payload i text bytes :
  param ps "token" = Some tok → param ps "chunk" = Some chunkStr →
  param ps "payload" = Some payload →
  find_upload_ctx st tok = Some i →
  decode_param payload (length (chars payload) + 1) = Some text →
  mbedtls_base64_decode (length text * 3 / 4) text = (0%Z, bytes) →
  cgi_upload_chunk st ps =
  let '(res, written, f2, v2) :=
    seek_write (vol st) (ctx_file (upload_contexts st) i)
      (Z.to_nat (u32 (atoi (chars chunkStr) * UPLOAD_CHUNK_SIZE))) bytes in
  let st1 := set_vol (set_uploads st (set_file (upload_contexts st) i f2)) v2 in
  if bool_decide (res ≠ FR_OK) || negb (written =? length bytes)
  then set_json st1 (JsonError "write failed")
  else set_json st1 (JsonStatus "chunk_ok").
Proof.
  intros Ht Hc Hp Hf Hd Hb. unfold cgi_upload_chunk, seek_write.
  rewrite Ht, Hc, Hp, Hf, Hd, Hb. simpl.
  by destruct (f_lseek _ _ _) as [[? ?] ?].
Qed.



(** ** Base64 *)

Lemma code_range a : (0 ≤ code a < 256)%Z.
Proof. unfold code. pose proof (N_ascii_bounded a). lia. Qed.

Lemma chr_code a : chr (code a) = a.
Proof.
  unfold chr, code. pose proof (N_ascii_bounded a).
  rewrite Z.mod_small by lia. by rewrite N2Z.id, ascii_N_embedding.
Qed.

Lemma dec6_enc6 v : (0 ≤ v < 64)%Z → dec6 (enc6 v) = Some v.
Proof.
  revert v. apply small_cases. vm_compute. repeat constructor.
Qed.

Lemma enc6_not_pad v : (0 ≤ v < 64)%Z → Ascii.eqb (enc6 v) PAD = false.
Proof.
  revert v. apply small_cases. vm_compute. repeat constructor.
Qed.

Lemma triple_ind {A} (P : list A → Prop) :
  P [] → (∀ a, P [a]) → (∀ a b, P [a; b]) →
  (∀ a b c rest, P rest → P (a :: b :: c :: rest)) →
  ∀ l, P l.
Proof.
  intros H0 H1 H2 H3.
  assert (∀ l, P l ∧ (∀ a, P (a :: l)) ∧ (∀ a b, P (a :: b :: l))) as H.
  { induction l as [|x l (IH0 & IH1 & IH2)]; [by auto|].
    split_and!; auto. }
  intros l. apply H.
Qed.

Ltac b64_groups :=
  repeat match goal with
  | |- context [dec6 (enc6 ?v)] =>
    rewrite (dec6_enc6 v) by (Z.to_euclidean_division_equations; lia)
  | |- context [Ascii.eqb (enc6 ?v) PAD] =>
    rewrite (enc6_not_pad v) by (Z.to_euclidean_division_equations; lia)
  end.

Lemma chr_eq z a : z = code a → chr z = a.
Proof. intros ->. apply chr_code. Qed.

Lemma base64_decode_encode l : base64_decode (base64_encode l) = Some l.
Proof.
  induction l as [|a|a b|a b c rest IH] using triple_ind.
  - done.
  - pose proof (code_range a). cbn [base64_encode base64_decode].
    b64_groups. cbn. do 2 f_equal.
    apply chr_eq. Z.to_euclidean_division_equations; lia.
  - pose proof (code_range a). pose proof (code_range b).
    cbn [base64_encode base64_decode].
    b64_groups. cbn. b64_groups. cbn.
    f_equal. f_equal; [|f_equal];
      apply chr_eq; Z.to_euclidean_division_equations; lia.
  - pose proof (code_range a). pose proof (code_range b).
    pose proof (code_range c).
    cbn [base64_encode base64_decode app].
    b64_groups. cbn [mbind option_bind]. b64_groups. rewrite IH.
    cbn [mbind option_bind app].
    f_equal. f_equal; [|f_equal; [|f_equal]];
      apply chr_eq; Z.to_euclidean_division_equations; lia.
Qed.

Lemma length_encode l :
  length (base64_encode l) = 4 * ((length l + 2) / 3).
Proof.
  induction l as [|a|a b|a b c rest IH] using triple_ind; try done.
  cbn [base64_encode app length]. rewrite IH.
  replace (S (S (S (length rest))) + 2) with (length rest + 2 + 1 * 3) by lia.
  rewrite Nat.div_add by done. lia.
Qed.

Lemma mbedtls_base64_encode_ok src :
  length src ≤ DOWNLOAD_CHUNK_SIZE →
  mbedtls_base64_encode MAX_JSON_PAYLOAD_SIZE src = (0%Z, base64_encode src).
Proof.
  intros Hlen. unfold mbedtls_base64_encode.
  destruct (length (base64_encode src) <? MAX_JSON_PAYLOAD_SIZE) eqn:E; [done|].
  apply Nat.ltb_ge in E. rewrite length_encode in E.
  unfold DOWNLOAD_CHUNK_SIZE, MAX_JSON_PAYLOAD_SIZE in *.
  assert ((length src + 2) / 3 < 684); [|lia].
  apply Nat.Div0.div_lt_upper_bound. lia.
Qed.

(** ** Decimal text *)

Lemma digits_value_uint d : ∀ acc,
  digits_value (chars (NilEmpty.string_of_uint d)) (Z.of_nat acc)
  = Z.of_nat (Nat.of_uint_acc d acc).
Proof.
  induction d; intros acc; simpl; [done|..];
    rewrite <- IHd, Nat.tail_mul_spec; f_equal; unfold code; simpl; lia.
Qed.

Lemma uint_head_digit d :
  match chars (NilEmpty.string_of_uint d) with
  | [] => True
  | c :: _ => isdigit c = true
  end.
Proof. by destruct d. Qed.

Lemma atoi_dec n : (Z.of_nat n ≤ INT_MAX)%Z → atoi (chars (dec n)) = Z.of_nat n.
Proof.
  intros Hn. unfold atoi, dec.
  pose proof (uint_head_digit (Nat.to_uint n)) as Hhead.
  pose proof (digits_value_uint (Nat.to_uint n) 0) as Hval.
  change (Nat.of_uint_acc (Nat.to_uint n) 0) with (Nat.of_uint (Nat.to_uint n))
    in Hval.
  rewrite DecimalNat.Unsigned.of_to in Hval.
  destruct (chars (NilEmpty.string_of_uint (Nat.to_uint n))) as [|c s] eqn:E.
  - simpl in *. unfold INT_MIN, INT_MAX in *. lia.
  - assert (skip_spaces (c :: s) = c :: s) as ->.
    { simpl. revert Hhead. clear. destruct c as [[] [] [] [] [] [] [] []]; by vm_compute. }
    assert (Ascii.eqb c "-" = false ∧ Ascii.eqb c "+" = false) as [-> ->].
    { revert Hhead. clear. destruct c as [[] [] [] [] [] [] [] []]; by vm_compute. }
    change (Z.of_nat 0) with 0%Z in Hval. rewrite Hval.
    unfold INT_MIN, INT_MAX in *. lia.
Qed.

(** ** Download *)

Lemma total_length_cons len data replies :
  total_length ((len, data) :: replies) = len + total_length replies.
Proof. done. Qed.

Lemma dec_length_chunk n :
  n ≤ DOWNLOAD_CHUNK_SIZE → length (chars (dec n)) ≤ 4.
Proof.
  intros Hn.
  assert (forallb (λ k, length (chars (dec k)) <=? 4)
            (seq 0 (S DOWNLOAD_CHUNK_SIZE)) = true) as Hall
    by (vm_compute; reflexivity).
  rewrite forallb_forall in Hall.
  apply Nat.leb_le, Hall, in_seq. lia.
Qed.

(** The reply to a chunk request never reaches the size of [json_buff]:
    [snprintf] does not cut it. *)
Lemma chunk_reply_fits chunk :
  length chunk ≤ DOWNLOAD_CHUNK_SIZE →
  length (render (JsonChunk (length chunk) (base64_encode chunk)))
  < MAX_JSON_PAYLOAD_SIZE.
Proof.
  intros Hlen. pose proof (dec_length_chunk _ Hlen) as Hdigits.
  pose proof (length_encode chunk) as Henc.
  assert ((length chunk + 2) / 3 < 684) as Hdiv
    by (apply Nat.Div0.div_lt_upper_bound; unfold DOWNLOAD_CHUNK_SIZE in *; lia).
  unfold render, object, member, quoted, number, join_members.
  rewrite Nat2Z.id.
  repeat (rewrite ?length_app, ?length_cons). rewrite Henc.
  unfold MAX_JSON_PAYLOAD_SIZE. simpl length. lia.
Qed.

Section OneDownload.

(** One download under way: the token [tok] is served by slot [i], open on
    the file at [p] with content [data], of a size a FAT volume allows. *)
Variables (tok : string) (i : nat) (p : list string) (data : list ascii).
Hypothesis Hsize : (Z.of_nat (length data) < 4294967296)%Z.

Lemma cgi_download_chunk_spec st k :
  downloading st tok i p data →
  k * DOWNLOAD_CHUNK_SIZE ≤ length data →
  let chunk := take DOWNLOAD_CHUNK_SIZE (drop (k * DOWNLOAD_CHUNK_SIZE) data) in
  let st' := cgi_download_chunk st [("token", Some tok); ("chunk", Some (dec k))] in
  json_buff st' = JsonChunk (length chunk) (base64_encode chunk) ∧
  length (render (json_buff st')) < MAX_JSON_PAYLOAD_SIZE ∧
  downloading st' tok i p data.
Proof.
  intros (Hfind & Hentry & Hvalid & Hpath & Hflag) Hk chunk st'.
  assert (Hi : i < length (download_contexts st)) by by eapply find_ctx_lt.
  unfold DOWNLOAD_CHUNK_SIZE in *.
  assert (Hatoi : atoi (chars (dec k)) = Z.of_nat k)
    by (apply atoi_dec; unfold INT_MAX; lia).
  assert (Hofs : Z.to_nat (u32 (u32 (Z.of_nat k) * Z.of_nat 2048)) = k * 2048).
  { unfold u32. rewrite (Z.mod_small (Z.of_nat k)) by lia.
    rewrite Z.mod_small by lia. lia. }
  set (f := ctx_file (download_contexts st) i) in *.
  assert (Hdata : file_data (vol st) f = Some data).
  { apply file_data_Some. by rewrite Hpath. }
  assert (Hchunk : length chunk ≤ 2048)
    by (unfold chunk; rewrite length_take; lia).
  subst st'. unfold cgi_download_chunk.
  cbn [param fold_left fst snd String.eqb Ascii.eqb Bool.eqb].
  rewrite Hfind, Hatoi. unfold DOWNLOAD_CHUNK_SIZE. rewrite Hofs. fold f.
  unfold f_lseek. rewrite Hdata, Hflag.
  change (has_flag FA_READ FA_WRITE) with false. cbn iota.
  unfold f_read.
  assert (Hdata' : file_data (vol st)
            (Fil true (fil_path f) FA_READ ((k * 2048) `min` length data))
            = Some data).
  { apply file_data_Some. by rewrite Hpath. }
  rewrite Hdata'. cbn [fil_flag fil_path fptr].
  change (has_flag FA_READ FA_READ) with true. cbn iota.
  replace ((k * 2048) `min` length data) with (k * 2048) by lia.
  fold chunk. cbn zeta.
  rewrite bool_decide_eq_false_2 by (intros H; by apply H).
  rewrite mbedtls_base64_encode_ok by done.
  rewrite bool_decide_eq_false_2 by (intros H; by apply H).
  split; [done|]. split; [by apply chunk_reply_fits|].
  unfold downloading, find_download_ctx. simpl.
  rewrite find_ctx_set_file, ctx_file_set_file by done. simpl.
  split_and!; try done.
Qed.

Lemma download_loop_spec fuel : ∀ k st,
  downloading st tok i p data →
  k * DOWNLOAD_CHUNK_SIZE ≤ length data →
  (length data - k * DOWNLOAD_CHUNK_SIZE) / DOWNLOAD_CHUNK_SIZE < fuel →
  ∃ replies st',
    download_loop fuel st tok k DOWNLOAD_CHUNK_SIZE = Some (replies, st') ∧
    total_length replies = length data - k * DOWNLOAD_CHUNK_SIZE ∧
    decoded_content replies = Some (drop (k * DOWNLOAD_CHUNK_SIZE) data) ∧
    downloading st' tok i p data.
Proof.
  induction fuel as [|fuel IH]; intros k st Hdl Hk Hfuel; [lia|].
  destruct (cgi_download_chunk_spec st k Hdl Hk) as (Hjson & _ & Hdl').
  cbn [download_loop]. rewrite Hjson.
  set (chunk := take DOWNLOAD_CHUNK_SIZE (drop (k * DOWNLOAD_CHUNK_SIZE) data)).
  assert (Hlen : length chunk
                 = DOWNLOAD_CHUNK_SIZE `min` (length data - k * DOWNLOAD_CHUNK_SIZE))
    by (unfold chunk; by rewrite length_take, length_drop).
  unfold DOWNLOAD_CHUNK_SIZE in *.
  destruct (length chunk <? 2048) eqn:Hshort.
  - apply Nat.ltb_lt in Hshort.
    eexists _, _. split; [done|].
    rewrite total_length_cons. change (total_length []) with 0.
    cbn [decoded_content snd]. rewrite base64_decode_encode.
    cbn [mbind option_bind].
    split_and!; [lia| |done].
    rewrite app_nil_r. unfold chunk. f_equal. apply take_ge.
    rewrite length_drop. lia.
  - apply Nat.ltb_ge in Hshort.
    assert (Hnext : S k * 2048 ≤ length data) by lia.
    destruct (IH (S k) _ Hdl' Hnext) as (replies & st' & Hrun & Hsum & Hdec & Hdl'').
    { replace (length data - k * 2048)
        with (length data - S k * 2048 + 1 * 2048) in Hfuel by lia.
      rewrite Nat.div_add in Hfuel by done. lia. }
    rewrite Hrun.
    exists ((length chunk, base64_encode chunk) :: replies), st'.
    split; [done|].
    rewrite total_length_cons.
    cbn [decoded_content snd]. rewrite base64_decode_encode, Hdec.
    cbn [mbind option_bind].
    split_and!; [lia| |done].
    f_equal. unfold chunk.
    replace (S k * 2048) with (k * 2048 + 2048) by lia.
    by rewrite <- drop_drop, take_drop.
Qed.

End OneDownload.

Lemma strncpy_str_short s n : length (chars s) ≤ n → strncpy_str s n = s.
Proof.
  intros H. unfold strncpy_str, text, chars. rewrite take_ge by done.
  apply string_of_list_ascii_of_string.
Qed.

Lemma f_open_read v path data :
  split_path path ≠ [] →
  entries v !! split_path path = Some (File data) →
  f_open v path FA_READ = (FR_OK, Fil true (split_path path) FA_READ 0, v).
Proof.
  intros Hne Hentry. unfold f_open. rewrite Hentry.
  destruct (split_path path); [done|]. done.
Qed.

(** C1.  For a readable file, a free download slot and a fresh token of at
    most 31 characters, [download_start] reports the chunk size 2048 and the
    exact size of the file; the client loop that then asks for chunks
    0, 1, 2, ... until a reported length is below the chunk size ends, the
    reported lengths add up to the file size and the base64-decoded data
    fields, put together, are the content of the file. *)
Theorem download_round_trip (st : state) (ps : params)
    (tok fullpath : string) (path data : list ascii) :
  param ps "token" = Some tok → param ps "fullpath" = Some fullpath →
  length (chars tok) ≤ 31 →
  find_download_ctx st tok = None →
  ¬ pool_full (download_contexts st) →
  decode_param fullpath 256 = Some path →
  split_path path ≠ [] →
  entries (vol st) !! split_path path = Some (File data) →
  (Z.of_nat (length data) < 4294967296)%Z →
  let st1 := cgi_download_start st ps in
  json_buff st1
  = JsonDownloadStarted DOWNLOAD_CHUNK_SIZE (Z.of_nat (length data)) ∧
  ∃ replies st2,
    (∀ fuel, length data / DOWNLOAD_CHUNK_SIZE < fuel →
       download_loop fuel st1 tok 0 DOWNLOAD_CHUNK_SIZE = Some (replies, st2)) ∧
    total_length replies = length data ∧
    decoded_content replies = Some data.
Proof.
  intros Htok Hfull Hshort Hfresh Hroom Hpath Hne Hentry Hsize st1.
  destruct (alloc_ctx (download_contexts st) tok) as [[i pool']|] eqn:Ha.
  2:{ by apply alloc_ctx_None in Ha. }
  pose proof Ha as (c & Hi & Hfree & Hmin & Hpool')%alloc_ctx_Some.
  assert (Hlt : i < length (download_contexts st)) by by eapply lookup_lt_Some.
  assert (Hst1 : st1 = set_json
            (set_vol (set_downloads st
               (set_file pool' i (Fil true (split_path path) FA_READ 0)))
               (vol st))
            (JsonDownloadStarted DOWNLOAD_CHUNK_SIZE (Z.of_nat (length data)))).
  { subst st1. unfold cgi_download_start, alloc_download_ctx.
    rewrite Htok, Hfull, Hpath, Ha. simpl.
    rewrite (f_open_read _ _ data) by done. simpl.
    unfold f_size, file_data. simpl. rewrite Hentry.
    unfold u32. by rewrite Z.mod_small by lia. }
  assert (Hdl : downloading st1 tok i (split_path path) data).
  { rewrite Hst1. unfold downloading, find_download_ctx. simpl.
    rewrite find_ctx_set_file, ctx_file_set_file
      by (subst pool'; by rewrite length_insert).
    split_and!; try done.
    apply find_ctx_Some. subst pool'.
    rewrite list_lookup_insert_eq by done. eexists. split; [done|].
    simpl. split_and!; [done|by apply strncpy_str_short|].
    intros j cj Hj Hji [Hu Ht].
    rewrite list_lookup_insert_ne in Hj by lia.
    unfold find_download_ctx in Hfresh. rewrite find_ctx_None in Hfresh.
    by apply (Hfresh j cj Hj). }
  split; [by rewrite Hst1|].
  destruct (download_loop_spec tok i (split_path path) data Hsize
              (S (length data / DOWNLOAD_CHUNK_SIZE)) 0 st1 Hdl)
    as (replies & st2 & Hrun & Hsum & Hdec & _);
    [lia|rewrite Nat.sub_0_r; lia|].
  exists replies, st2. rewrite Nat.sub_0_r in Hsum. rewrite drop_0 in Hdec.
  split_and!; try done.
  intros fuel Hfuel.
  destruct (download_loop_spec tok i (split_path path) data Hsize fuel 0 st1 Hdl)
    as (replies' & st2' & Hrun' & _); [lia|rewrite Nat.sub_0_r; lia|].
  rewrite Hrun'.
  (* the result does not depend on the fuel *)
  clear -Hrun Hrun' Hfuel.
  assert (Hmono : ∀ f1 f2 s k r1 r2,
    download_loop f1 s tok k DOWNLOAD_CHUNK_SIZE = Some r1 →
    download_loop f2 s tok k DOWNLOAD_CHUNK_SIZE = Some r2 → r1 = r2).
  { induction f1 as [|f1 IH]; intros f2 s k r1 r2; [done|].
    destruct f2 as [|f2]; [done|]. cbn [download_loop].
    destruct (json_buff _); try done.
    destruct (_ <? _); [congruence|].
    destruct (download_loop f1 _ _ _ _) as [q1|] eqn:E1; [|done].
    destruct (download_loop f2 _ _ _ _) as [q2|] eqn:E2; [|done].
    rewrite (IH _ _ _ _ _ E1 E2). simpl. congruence. }
  f_equal. by eapply Hmono.
Qed.

Lemma download_round_trip_witness :
  let st1 := cgi_download_start (init_state big_volume)
               (start_params "dl" "/big.bin") in
  json_buff st1 = JsonDownloadStarted 2048 5000 ∧
  ∃ replies st2,
    download_loop 3 st1 "dl" 0 2048 = Some (replies, st2) ∧
    total_length replies = 5000 ∧
    decoded_content replies = Some (replicate 5000 "z"%char).
Proof.
  destruct (download_round_trip (init_state big_volume)
              (start_params "dl" "/big.bin") "dl" "/big.bin"
              (chars "/big.bin") (replicate 5000 "z"%char))
    as (Hjson & replies & st2 & Hrun & Hsum & Hdec).
  - reflexivity.
  - reflexivity.
  - simpl. lia.
  - vm_compute. reflexivity.
  - intros Hfull. vm_compute in Hfull. inversion Hfull. discriminate.
  - vm_compute. reflexivity.
  - vm_compute. discriminate.
  - vm_compute. reflexivity.
  - rewrite length_replicate. lia.
  - split; [exact Hjson|]. exists replies, st2.
    split; [apply Hrun; vm_compute; lia|]. split; [exact Hsum|exact Hdec].
Defined.

(** ** Delete *)

Lemma is_child_spec d k :
  is_child d k = true ↔ ∃ name, k = d ++ [name].
Proof.
  unfold is_child. rewrite bool_decide_eq_true. split.
  - intros [Hlen Htake]. rewrite <- (take_drop (length d) k), Htake.
    destruct (drop (length d) k) as [|x [|y r]] eqn:Hd.
    + apply (f_equal length) in Hd. rewrite length_drop in Hd. simpl in Hd. lia.
    + by exists x.
    + apply (f_equal length) in Hd. rewrite length_drop in Hd. simpl in Hd. lia.
  - intros [name ->]. rewrite length_app. simpl.
    split; [lia|]. by rewrite take_app_length.
Qed.

Lemma children_elem v d k n :
  (k, n) ∈ children v d ↔ entries v !! k = Some n ∧ is_child d k = true.
Proof.
  unfold children. rewrite list_elem_of_filter, elem_of_map_to_list. simpl.
  tauto.
Qed.

Lemma children_empty v d :
  (∀ name, entries v !! (d ++ [name]) = None) → children v d = [].
Proof.
  intros Hnone. destruct (children v d) as [|[k n] r] eqn:E; [done|].
  assert ((k, n) ∈ children v d) as [Hk Hc]%children_elem
    by (rewrite E; left).
  apply is_child_spec in Hc as [name ->]. by rewrite Hnone in Hk.
Qed.



Lemma valid_name_head s : valid_name s → is_nul (rd (chars s) 0) = false.
Proof.
  intros [Hne Hnul]. destruct s as [|c s]; [done|]. simpl.
  destruct (is_nul c) eqn:E; [|done].
  apply is_nul_true in E. subst. exfalso. apply Hnul. left.
Qed.

Lemma valid_volume_lookup v p n :
  valid_volume v → entries v !! p = Some n → p ≠ [] ∧ Forall valid_name p.
Proof. intros Hv Hp. exact (Hv p n Hp). Qed.

Lemma f_stat_found v path n :
  split_path path ≠ [] → entries v !! split_path path = Some n →
  f_stat v path = (FR_OK, info_of (split_path path) n).
Proof.
  intros Hne Hn. unfold f_stat. rewrite Hn. by destruct (split_path path).
Qed.

Lemma f_opendir_found v path :
  split_path path ≠ [] → entries v !! split_path path = Some Dir →
  f_opendir v path = (FR_OK, Dirobj true (split_path path) 0).
Proof.
  intros Hne Hn. unfold f_opendir, lookup_node.
  destruct (split_path path); [done|]. by rewrite Hn.
Qed.

Lemma f_unlink_found v path n :
  split_path path ≠ [] → entries v !! split_path path = Some n →
  (n = Dir → children v (split_path path) = []) →
  f_unlink v path =
  (FR_OK, Volume (delete (split_path path) (entries v))
                 (free_bytes v + node_size n)).
Proof.
  intros Hne Hn Hch. unfold f_unlink. rewrite Hn.
  destruct (split_path path); [done|].
  destruct n; [done|]. by rewrite Hch.
Qed.


Lemma delete_path_empty_dir v path :
  split_path path ≠ [] →
  entries v !! split_path path = Some Dir →
  (∀ name, entries v !! (split_path path ++ [name]) = None) →
  delete_path v path =
  (FR_OK, Volume (delete (split_path path) (entries v)) (free_bytes v)).
Proof.
  intros Hne Hdir Hnone.
  pose proof (children_empty _ _ Hnone) as Hch.
  unfold delete_path.
  rewrite (f_stat_found _ _ Dir), f_opendir_found by done.
  cbn [info_of fattrib]. change (has_flag AM_DIR AM_DIR) with true.
  change (bool_decide (FR_OK ≠ FR_OK)) with false. cbn iota.
  unfold f_readdir. cbn [dir_valid dir_path dir_index]. rewrite Hch.
  cbn [lookup list_lookup no_info fname f_closedir dir_valid].
  change (bool_decide (FR_OK ≠ FR_OK)) with false. cbn iota.
  change (negb (is_nul (rd (chars "") 0))) with false. cbn iota.
  rewrite (f_unlink_found _ _ Dir) by done. cbn [node_size].
  by rewrite Nat.add_0_r.
Qed.




(** ** [parseUrl] *)

Lemma strrchr_snoc s c : strrchr (s ++ [c]) c = Some (length s).
Proof.
  induction s as [|a s IH]; simpl.
  - by rewrite Ascii.eqb_refl.
  - by rewrite IH.
Qed.

Lemma chars_text l : chars (text l) = l.
Proof. apply list_ascii_of_string_of_list_ascii. Qed.

Lemma text_chars s : text (chars s) = s.
Proof. apply string_of_list_ascii_of_string. Qed.

Lemma no_trailing_segment_start u :
  no_trailing_segment (text u) →
  rd (match strrchr u "/" with
      | Some lastSlash => drop (lastSlash + 1) u
      | None => u
      end) 0 = NUL.
Proof.
  intros [Hempty|Hlast].
  - assert (u = []) as ->; [|done].
    apply (f_equal chars) in Hempty. by rewrite chars_text in Hempty.
  - rewrite chars_text in Hlast. apply last_Some in Hlast as [u' ->].
    rewrite strrchr_snoc, Nat.add_1_r.
    rewrite drop_ge; [done|]. rewrite length_app. simpl. lia.
Qed.

(** C9.  With arrays large enough for the three components and the name,
    [parseUrl] splits [http://example.com/files/demo.zip] into the protocol
    [http], the host [example.com] and the URI [/files/demo.zip], and
    derives the file name [demo.zip]; and whenever it succeeds with a URI
    that is empty or ends in a slash, the file name is the fallback name. *)
Theorem parseUrl_components_and_filename (sz : sizes)
    (c0 : download_url_components_t) (f0 : download_file_t) :
  4 < protocol_size sz → 11 < host_size sz → 15 < uri_size sz →
  8 < filename_size sz →
  (∃ file,
     parseUrl sz (Some "http://example.com/files/demo.zip") c0 f0
     = (0%Z, Components "http" "example.com" "/files/demo.zip", file) ∧
     filename file = "demo.zip") ∧
  (∀ url comps file,
     parseUrl sz (Some url) c0 f0 = (0%Z, comps, file) →
     no_trailing_segment (uri comps) →
     filename file = fallback_name sz).
Proof.
  intros Hproto Hhost Huri Hname. split.
  - eexists. unfold parseUrl.
    change (strstr (chars "http://example.com/files/demo.zip") (chars "://"))
      with (Some 4).
    cbv beta iota.
    replace (protocol_size sz <=? 4) with false
      by (symmetry; apply Nat.leb_gt; lia).
    cbv beta iota zeta.
    change (strchr (drop (4 + 3) (chars "http://example.com/files/demo.zip")) "/")
      with (Some 11).
    cbv beta iota.
    replace (host_size sz <=? 11) with false
      by (symmetry; apply Nat.leb_gt; lia).
    cbv beta iota.
    change (text (drop 11 (drop (4 + 3) (chars "http://example.com/files/demo.zip"))))
      with "/files/demo.zip".
    rewrite (strncpy_str_short "/files/demo.zip") by (simpl; lia).
    cbn [uri].
    change (strrchr (chars "/files/demo.zip") "/") with (Some 6).
    cbv beta iota.
    change (rd (drop (6 + 1) (chars "/files/demo.zip")) 0) with "d"%char.
    change (negb (is_nul "d")) with true. cbv beta iota.
    change (text (drop (6 + 1) (chars "/files/demo.zip"))) with "demo.zip".
    rewrite (strncpy_str_short "demo.zip") by (simpl; lia).
    split; reflexivity.
  - intros url comps file. unfold parseUrl.
    destruct (strstr (chars url) (chars "://")) as [protocolLen|]; [|done].
    destruct (protocol_size sz <=? protocolLen); [done|].
    cbv zeta.
    match goal with
    | |- context [match ?parsed with Some _ => _ | None => (_, _, _) end] =>
      destruct parsed as [comps'|] eqn:Hparsed
    end; [|done].
    intros [= <- <-] Hseg. cbn [filename].
    rewrite <- (text_chars (uri comps')) in Hseg.
    apply no_trailing_segment_start in Hseg. rewrite Hseg. done.
Qed.

Lemma parseUrl_components_and_filename_witness :
  let sz := Sizes 16 128 256 256 128 in
  let c0 := zero_components in
  let f0 := DownloadFile "" "" in
  (parseUrl sz (Some "http://example.com/files/demo.zip") c0 f0).1
  = (0%Z, Components "http" "example.com" "/files/demo.zip") ∧
  filename (parseUrl sz (Some "http://example.com/") c0 f0).2 = "default.bin".
Proof.
  intros sz c0 f0.
  destruct (parseUrl_components_and_filename sz c0 f0)
    as [(file & Hrun & Hname) Hfallback]; [simpl; lia..|].
  split.
  - rewrite Hrun. reflexivity.
  - apply (Hfallback "http://example.com/" (Components "http" "example.com" "/")).
    + reflexivity.
    + right. reflexivity.
Defined.

(** ** The raw POST path *)



(** ** Invariants of the server *)

Lemma at_most_one_set_file pool i f tok :
  at_most_one pool tok → at_most_one (set_file pool i f) tok.
Proof.
  intros H a b ca cb Ha Hb. rewrite lookup_set_file in Ha, Hb.
  destruct (pool !! a) as [ca0|] eqn:Ea; [|done].
  destruct (pool !! b) as [cb0|] eqn:Eb; [|done].
  simpl in Ha, Hb. injection Ha as <-. injection Hb as <-.
  intros. apply (H a b ca0 cb0); auto; by repeat case_bool_decide.
Qed.

Lemma unique_tokens_set_file pool i f :
  unique_tokens pool → unique_tokens (set_file pool i f).
Proof. intros H tok. apply at_most_one_set_file, H. Qed.

Lemma unique_tokens_free pool i :
  unique_tokens pool → unique_tokens (free_ctx pool i).
Proof. intros H tok. apply at_most_one_free, H. Qed.

Lemma unique_tokens_alloc pool tok i pool' :
  find_ctx pool (strncpy_str tok (TOKEN_SIZE - 1)) = None →
  alloc_ctx pool tok = Some (i, pool') →
  unique_tokens pool → unique_tokens pool'.
Proof. intros Hf Ha H tok'. eapply at_most_one_alloc; eauto. Qed.

Lemma write_segments_pools i p : ∀ st,
  unique_tokens (upload_contexts st) →
  unique_tokens (upload_contexts (fold_left (write_segment i) p st)) ∧
  download_contexts (fold_left (write_segment i) p st) = download_contexts st.
Proof.
  induction p as [|seg p IH]; intros st H; [done|].
  simpl. unfold write_segment at 2 4.
  destruct (f_write _ _ _) as [[[? ?] f1] v1].
  destruct (IH (set_vol (set_uploads st (set_file (upload_contexts st) i f1)) v1))
    as [? ?]; [by apply unique_tokens_set_file|]. done.
Qed.

Lemma unique_tokens_handle st r :
  fresh_request st r →
  unique_tokens (upload_contexts st) → unique_tokens (download_contexts st) →
  unique_tokens (upload_contexts (handle st r)) ∧
  unique_tokens (download_contexts (handle st r)).
Proof.
  intros Hfresh Hu Hd.
  destruct r as [ps|ps|ps|ps|ps|ps|ps|ps|ps|c uri|c p|c]; simpl in *.
  - unfold cgi_upload_start.
    destruct (param ps "token") as [tok|]; [|done].
    destruct (param ps "fullpath") as [fp|]; [|done].
    destruct (decode_param _ _); [|done].
    unfold alloc_upload_ctx.
    destruct (alloc_ctx _ _) as [[i pool']|] eqn:Ha; [|done]. simpl.
    destruct (f_open _ _ _) as [[res fil] v].
    assert (unique_tokens pool') by (eapply unique_tokens_alloc; eauto).
    case_bool_decide; simpl; split; auto using unique_tokens_set_file, unique_tokens_free.
  - unfold cgi_upload_chunk.
    destruct (match param ps "token" with Some _ => _ | None => _ end); [|done].
    destruct (param ps "chunk"); [|done]. destruct (param ps "payload"); [|done].
    destruct (decode_param _ _); [|done].
    destruct (mbedtls_base64_decode _ _) as [rc buffer].
    case_bool_decide; [done|].
    destruct (f_lseek _ _ _) as [[? f1] v1].
    destruct (f_write _ _ _) as [[[res w] f2] v2].
    destruct (_ || _); simpl; split; auto using unique_tokens_set_file.
  - unfold cgi_upload_end.
    destruct (match param ps "token" with Some _ => _ | None => _ end);
      simpl; split; auto using unique_tokens_free.
  - unfold cgi_upload_cancel.
    destruct (match param ps "token" with Some _ => _ | None => _ end);
      simpl; split; auto using unique_tokens_free.
  - unfold cgi_download_start.
    destruct (param ps "token") as [tok|]; [|done].
    destruct (param ps "fullpath") as [fp|]; [|done].
    destruct (decode_param _ _); [|done].
    unfold alloc_download_ctx.
    destruct (alloc_ctx _ _) as [[i pool']|] eqn:Ha; [|done]. simpl.
    destruct (f_open _ _ _) as [[res fil] v].
    assert (unique_tokens pool') by (eapply unique_tokens_alloc; eauto).
    case_bool_decide; simpl; split; auto using unique_tokens_set_file, unique_tokens_free.
  - unfold cgi_download_chunk.
    destruct (match param ps "token" with Some _ => _ | None => _ end); [|done].
    destruct (param ps "chunk"); [|done].
    destruct (f_lseek _ _ _) as [[? f1] v1].
    destruct (f_read _ _ _) as [[res raw] f2].
    case_bool_decide; [simpl; split; auto using unique_tokens_set_file|].
    destruct (mbedtls_base64_encode _ _) as [rc b64].
    case_bool_decide; simpl; split; auto using unique_tokens_set_file.
  - unfold cgi_download_end.
    destruct (match param ps "token" with Some _ => _ | None => _ end);
      simpl; split; auto using unique_tokens_free.
  - unfold cgi_download_cancel.
    destruct (match param ps "token" with Some _ => _ | None => _ end);
      simpl; split; auto using unique_tokens_free.
  - unfold cgi_del.
    destruct (param ps "folder"); [|done]. destruct (param ps "src"); [|done].
    destruct (decode_param _ 256); [|done]. destruct (decode_param _ 128); [|done].
    destruct (delete_path _ _) as [r v].
    repeat case_bool_decide; done.
  - unfold httpd_post_begin.
    destruct (is_prefix _ _); [|done].
    destruct (strchr _ _) as [k|]; [|done].
    set (qs := drop k (chars uri)).
    set (st1 := match query_token qs with Some _ => _ | None => _ end).
    set (st2 := match strstr qs _ with Some _ => _ | None => _ end).
    assert (upload_contexts st2 = upload_contexts st ∧
            download_contexts st2 = download_contexts st) as [E1 E2].
    { unfold st2, st1. destruct (strstr qs _); destruct (query_token qs); done. }
    destruct (current_chunk_ctx st2); simpl; [|by rewrite E1, E2].
    destruct (f_lseek _ _ _) as [[? f1] v1]. simpl. rewrite E1, E2.
    split; auto using unique_tokens_set_file.
  - unfold httpd_post_receive_data.
    destruct (current_chunk_ctx st) as [i|]; [|done].
    destruct p as [|seg p]; [done|].
    case_bool_decide; [|done]. cbn [snd].
    destruct (write_segments_pools i (seg :: p) st Hu) as [? E]. by rewrite E.
  - done.
Qed.

Lemma serve_app st rs r : serve st (rs ++ [r]) = handle (serve st rs) r.
Proof. unfold serve. by rewrite fold_left_app. Qed.

Lemma unique_tokens_serve rs : ∀ st,
  fresh_requests st rs →
  unique_tokens (upload_contexts st) → unique_tokens (download_contexts st) →
  unique_tokens (upload_contexts (serve st rs)) ∧
  unique_tokens (download_contexts (serve st rs)).
Proof.
  induction rs as [|r rs IH]; intros st Hf Hu Hd; [done|].
  destruct Hf as [Hr Hf]. simpl.
  destruct (unique_tokens_handle st r Hr Hu Hd) as [? ?]. by apply IH.
Qed.

Lemma unique_tokens_find pool i c :
  unique_tokens pool → pool !! i = Some c → in_use c = true →
  find_ctx pool (token c) = Some i.
Proof.
  intros Hu Hi Hc. apply find_ctx_Some. exists c. split_and!; try done.
  intros j cj Hj Hlt [Hin Htok].
  assert (j = i) by (eapply (Hu (token c) j i); eauto). lia.
Qed.

(** X1.  Over any run of the server from its initial state in which every
    start request brings a token that, cut to 31 characters, is not the
    token of a transfer under way in the same pool, no two slots in use of
    a pool hold the same token, and every slot in use is the slot that a
    lookup of its token finds: no transfer is hidden behind another. *)
Theorem serve_keeps_tokens_unique (v : volume) (rs : list request) :
  fresh_requests (init_state v) rs →
  let st := serve (init_state v) rs in
  (unique_tokens (upload_contexts st) ∧ unique_tokens (download_contexts st)) ∧
  (∀ i c, upload_contexts st !! i = Some c → in_use c = true →
          find_upload_ctx st (token c) = Some i) ∧
  (∀ i c, download_contexts st !! i = Some c → in_use c = true →
          find_download_ctx st (token c) = Some i).
Proof.
  intros Hf st.
  destruct (unique_tokens_serve rs (init_state v) Hf) as [Hu Hd];
    [apply unique_tokens_empty..|].
  split; [done|]. split; intros i c Hi Hc; by eapply unique_tokens_find.
Qed.

Lemma serve_keeps_tokens_unique_witness :
  let st :=
    serve (init_state sample_volume)
      [UploadStart (start_params "a" "/a.bin");
       DownloadStart (start_params "a" "/docs/note.txt");
       UploadStart (start_params "b" "/b.bin");
       UploadEnd [("token", Some "a")];
       UploadStart (start_params "a" "/c.bin")] in
  unique_tokens (upload_contexts st) ∧ unique_tokens (download_contexts st) ∧
  find_upload_ctx st "b" = Some 1.
Proof.
  intros st.
  destruct (serve_keeps_tokens_unique sample_volume
              [UploadStart (start_params "a" "/a.bin");
               DownloadStart (start_params "a" "/docs/note.txt");
               UploadStart (start_params "b" "/b.bin");
               UploadEnd [("token", Some "a")];
               UploadStart (start_params "a" "/c.bin")])
    as ([Hu Hd] & Hf & _); [vm_compute; tauto|].
  split_and!; [exact Hu|exact Hd|].
  apply (Hf 1 (Ctx "b" (Fil true ["b.bin"] (Z.lor FA_WRITE FA_CREATE_ALWAYS) 0)
                   true)); reflexivity.
Defined.

Lemma f_open_ok v path mode res f v' :
  f_open v path mode = (res, f, v') → res = FR_OK →
  fil_valid f = true ∧ fil_flag f = mode.
Proof.
  unfold f_open. intros H ->.
  destruct (split_path path); [done|].
  destruct (entries v !! _) as [[data|]|].
  - destruct (has_flag mode FA_CREATE_ALWAYS); by injection H as <- <-.
  - by destruct (has_flag mode FA_CREATE_ALWAYS).
  - destruct (lookup_node _ _) as [[|]|]; try done.
    destruct (has_flag mode FA_CREATE_ALWAYS); [|done]. by injection H as <- <-.
Qed.

Lemma f_lseek_keeps_open v f ofs :
  fil_valid f = true →
  fil_valid (f_lseek v f ofs).1.2 = true ∧
  fil_flag (f_lseek v f ofs).1.2 = fil_flag f.
Proof.
  intros Hv. unfold f_lseek. destruct (file_data v f); [|done].
  destruct (has_flag _ _); [|done]. by destruct (extend_to _ _ _).
Qed.

Lemma f_write_keeps_open v f buf :
  fil_valid f = true →
  fil_valid (f_write v f buf).1.2 = true ∧
  fil_flag (f_write v f buf).1.2 = fil_flag f.
Proof.
  intros Hv. unfold f_write. destruct (file_data v f); [|done].
  destruct (has_flag _ _); [|done]. destruct (extend_to _ _ _).
  by destruct (_ <? _).
Qed.

Lemma f_read_keeps_open v f btr :
  fil_valid f = true →
  fil_valid (f_read v f btr).2 = true ∧
  fil_flag (f_read v f btr).2 = fil_flag f.
Proof.
  intros Hv. unfold f_read. destruct (file_data v f); [|done].
  by destruct (has_flag _ _).
Qed.

Lemma slots_open_set_file m pool i f :
  slots_open m pool →
  (∀ c, pool !! i = Some c → in_use c = true →
        fil_valid f = true ∧ fil_flag f = m) →
  slots_open m (set_file pool i f).
Proof.
  intros H Hf j c Hj Hc. rewrite lookup_set_file in Hj.
  destruct (pool !! j) as [c0|] eqn:Ej; [|done]. simpl in Hj.
  injection Hj as <-. case_bool_decide; [subst j; simpl in *; eauto|eauto].
Qed.

Lemma slots_open_same_file m pool i f :
  slots_open m pool →
  (fil_valid (ctx_file pool i) = true →
   fil_valid f = true ∧ fil_flag f = fil_flag (ctx_file pool i)) →
  slots_open m (set_file pool i f).
Proof.
  intros H Hf. apply slots_open_set_file; [done|].
  intros c Hi Hc. unfold ctx_file in Hf. rewrite Hi in Hf.
  destruct (H i c Hi Hc) as [Hv Hm]. destruct (Hf Hv) as [? ?]. split; congruence.
Qed.

Lemma slots_open_free m pool i :
  slots_open m pool → slots_open m (free_ctx pool i).
Proof.
  intros H j c Hj Hc. unfold free_ctx in Hj.
  destruct (pool !! i) as [ci|] eqn:Ei; [|eauto].
  destruct (in_use ci) eqn:Eu; [|eauto].
  destruct (decide (i = j)) as [->|Hne].
  - rewrite list_lookup_insert_eq in Hj by (by eapply lookup_lt_Some).
    injection Hj as <-. done.
  - rewrite list_lookup_insert_ne in Hj by done. eauto.
Qed.

Lemma slots_open_alloc m pool tok i pool' f :
  slots_open m pool → alloc_ctx pool tok = Some (i, pool') →
  (slots_open m (free_ctx (set_file pool' i f) i)) ∧
  (fil_valid f = true ∧ fil_flag f = m → slots_open m (set_file pool' i f)).
Proof.
  intros H Ha. apply alloc_ctx_Some in Ha as (c & Hi & Hc & _ & ->).
  assert (Hlt : i < length pool) by (by eapply lookup_lt_Some).
  assert (Hany : ∀ g, fil_valid g = true ∧ fil_flag g = m →
            slots_open m (set_file (<[i:=Ctx (strncpy_str tok (TOKEN_SIZE - 1))
                                          (file c) true]> pool) i g)).
  { intros g Hg j cj Hj Hcj. rewrite lookup_set_file in Hj.
    destruct (decide (i = j)) as [->|Hne].
    - rewrite list_lookup_insert_eq in Hj by done. simpl in Hj.
      rewrite bool_decide_eq_true_2 in Hj by done. by injection Hj as <-.
    - rewrite list_lookup_insert_ne in Hj by done.
      destruct (pool !! j) as [c0|] eqn:Ej; [|done]. simpl in Hj.
      rewrite bool_decide_eq_false_2 in Hj by done. injection Hj as <-. eauto. }
  split; [|apply Hany].
  intros j cj Hj Hcj. rewrite lookup_set_file in Hj || idtac.
  unfold free_ctx in Hj. rewrite lookup_set_file in Hj.
  rewrite list_lookup_insert_eq in Hj by done. simpl in Hj.
  rewrite bool_decide_eq_true_2 in Hj by done. simpl in Hj.
  destruct (decide (i = j)) as [->|Hne].
  - rewrite list_lookup_insert_eq in Hj
      by (by rewrite length_set_file, length_insert).
    by injection Hj as <-.
  - rewrite list_lookup_insert_ne in Hj by done.
    rewrite lookup_set_file in Hj.
    rewrite list_lookup_insert_ne in Hj by done.
    destruct (pool !! j) as [c0|] eqn:Ej; [|done]. simpl in Hj.
    rewrite bool_decide_eq_false_2 in Hj by done. injection Hj as <-. eauto.
Qed.

Lemma write_segments_open m i p : ∀ st,
  slots_open m (upload_contexts st) →
  slots_open m (upload_contexts (fold_left (write_segment i) p st)) ∧
  download_contexts (fold_left (write_segment i) p st) = download_contexts st.
Proof.
  induction p as [|seg p IH]; intros st H; [done|].
  simpl. unfold write_segment at 2 4.
  pose proof (f_write_keeps_open (vol st) (ctx_file (upload_contexts st) i) seg)
    as Hw.
  destruct (f_write _ _ _) as [[[? ?] f1] v1]. simpl in Hw.
  destruct (IH (set_vol (set_uploads st (set_file (upload_contexts st) i f1)) v1))
    as [? ?]; [by apply slots_open_same_file|]. done.
Qed.

Lemma slots_open_handle st r :
  slots_open (Z.lor FA_WRITE FA_CREATE_ALWAYS) (upload_contexts st) →
  slots_open FA_READ (download_contexts st) →
  slots_open (Z.lor FA_WRITE FA_CREATE_ALWAYS) (upload_contexts (handle st r)) ∧
  slots_open FA_READ (download_contexts (handle st r)).
Proof.
  intros Hu Hd.
  destruct r as [ps|ps|ps|ps|ps|ps|ps|ps|ps|c uri|c p|c]; simpl in *.
  - unfold cgi_upload_start.
    destruct (param ps "token") as [tok|]; [|done].
    destruct (param ps "fullpath") as [fp|]; [|done].
    destruct (decode_param _ _); [|done].
    unfold alloc_upload_ctx.
    destruct (alloc_ctx _ _) as [[i pool']|] eqn:Ha; [|done]. simpl.
    destruct (f_open _ _ _) as [[res fil] v] eqn:Ho.
    destruct (slots_open_alloc _ _ _ _ _ fil Hu Ha) as [H1 H2].
    case_bool_decide as Hr; simpl; split; auto.
    apply H2. eapply f_open_ok; [exact Ho|]. by destruct res.
  - unfold cgi_upload_chunk.
    destruct (match param ps "token" with Some _ => _ | None => _ end) as [i|];
      [|done].
    destruct (param ps "chunk"); [|done]. destruct (param ps "payload"); [|done].
    destruct (decode_param _ _); [|done].
    destruct (mbedtls_base64_decode _ _) as [rc buffer].
    case_bool_decide; [done|].
    pose proof (f_lseek_keeps_open (vol st) (ctx_file (upload_contexts st) i)
      (Z.to_nat (u32 (atoi (chars s) * UPLOAD_CHUNK_SIZE)))) as Hl.
    destruct (f_lseek _ _ _) as [[? f1] v1]. simpl in Hl.
    pose proof (f_write_keeps_open v1 f1 buffer) as Hw.
    destruct (f_write _ _ _) as [[[res w] f2] v2]. simpl in Hw.
    assert (slots_open (Z.lor FA_WRITE FA_CREATE_ALWAYS)
              (set_file (upload_contexts st) i f2)).
    { apply slots_open_same_file; [done|]. intros Hv.
      destruct (Hl Hv) as [? ?]. destruct Hw as [? ?]; [done|]. split; congruence. }
    destruct (_ || _); simpl; split; auto.
  - unfold cgi_upload_end.
    destruct (match param ps "token" with Some _ => _ | None => _ end);
      simpl; split; auto using slots_open_free.
  - unfold cgi_upload_cancel.
    destruct (match param ps "token" with Some _ => _ | None => _ end);
      simpl; split; auto using slots_open_free.
  - unfold cgi_download_start.
    destruct (param ps "token") as [tok|]; [|done].
    destruct (param ps "fullpath") as [fp|]; [|done].
    destruct (decode_param _ _); [|done].
    unfold alloc_download_ctx.
    destruct (alloc_ctx _ _) as [[i pool']|] eqn:Ha; [|done]. simpl.
    destruct (f_open _ _ _) as [[res fil] v] eqn:Ho.
    destruct (slots_open_alloc _ _ _ _ _ fil Hd Ha) as [H1 H2].
    case_bool_decide as Hr; simpl; split; auto.
    apply H2. eapply f_open_ok; [exact Ho|]. by destruct res.
  - unfold cgi_download_chunk.
    destruct (match param ps "token" with Some _ => _ | None => _ end) as [i|];
      [|done].
    destruct (param ps "chunk"); [|done].
    pose proof (f_lseek_keeps_open (vol st) (ctx_file (download_contexts st) i)
      (Z.to_nat (u32 (u32 (atoi (chars s)) * Z.of_nat DOWNLOAD_CHUNK_SIZE)))) as Hl.
    destruct (f_lseek _ _ _) as [[? f1] v1]. simpl in Hl.
    pose proof (f_read_keeps_open v1 f1 DOWNLOAD_CHUNK_SIZE) as Hw.
    destruct (f_read _ _ _) as [[res raw] f2]. simpl in Hw.
    assert (slots_open FA_READ (set_file (download_contexts st) i f2)).
    { apply slots_open_same_file; [done|]. intros Hv.
      destruct (Hl Hv) as [? ?]. destruct Hw as [? ?]; [done|]. split; congruence. }
    case_bool_decide; [simpl; split; auto|].
    destruct (mbedtls_base64_encode _ _) as [rc b64].
    case_bool_decide; simpl; split; auto.
  - unfold cgi_download_end.
    destruct (match param ps "token" with Some _ => _ | None => _ end);
      simpl; split; auto using slots_open_free.
  - unfold cgi_download_cancel.
    destruct (match param ps "token" with Some _ => _ | None => _ end);
      simpl; split; auto using slots_open_free.
  - unfold cgi_del.
    destruct (param ps "folder"); [|done]. destruct (param ps "src"); [|done].
    destruct (decode_param _ 256); [|done]. destruct (decode_param _ 128); [|done].
    destruct (delete_path _ _) as [r v].
    repeat case_bool_decide; done.
  - unfold httpd_post_begin.
    destruct (is_prefix _ _); [|done].
    destruct (strchr _ _) as [k|]; [|done].
    set (qs := drop k (chars uri)).
    set (st1 := match query_token qs with Some _ => _ | None => _ end).
    set (st2 := match strstr qs _ with Some _ => _ | None => _ end).
    assert (upload_contexts st2 = upload_contexts st ∧
            download_contexts st2 = download_contexts st) as [E1 E2].
    { unfold st2, st1. destruct (strstr qs _); destruct (query_token qs); done. }
    destruct (current_chunk_ctx st2) as [i|]; simpl; [|by rewrite E1, E2].
    pose proof (f_lseek_keeps_open (vol st2) (ctx_file (upload_contexts st2) i)
      (Z.to_nat (u32 (current_chunk_idx st2 * UPLOAD_CHUNK_SIZE)))) as Hl.
    destruct (f_lseek _ _ _) as [[? f1] v1]. simpl in *. rewrite E1, E2 in *.
    split; [|done]. by apply slots_open_same_file.
  - unfold httpd_post_receive_data.
    destruct (current_chunk_ctx st) as [i|]; [|done].
    destruct p as [|seg p]; [done|].
    case_bool_decide; [|done]. cbn [snd].
    destruct (write_segments_open _ i (seg :: p) st Hu) as [? E]. by rewrite E.
  - done.
Qed.

Lemma slots_open_init m v :
  slots_open m (upload_contexts (init_state v)) ∧
  slots_open m (download_contexts (init_state v)).
Proof.
  split; intros i c Hi Hc; apply lookup_replicate in Hi as [-> _]; done.
Qed.

Lemma slots_open_serve rs : ∀ st,
  slots_open (Z.lor FA_WRITE FA_CREATE_ALWAYS) (upload_contexts st) →
  slots_open FA_READ (download_contexts st) →
  slots_open (Z.lor FA_WRITE FA_CREATE_ALWAYS) (upload_contexts (serve st rs)) ∧
  slots_open FA_READ (download_contexts (serve st rs)).
Proof.
  induction rs as [|r rs IH]; intros st Hu Hd; [done|].
  simpl. destruct (slots_open_handle st r Hu Hd) as [? ?]. by apply IH.
Qed.

(** X2.  In every state the server reaches from its initial state, whatever
    the requests were, a slot in use holds an open file object: one opened
    for writing with truncation in the upload pool, one opened read-only in
    the download pool.  No request leaves a slot marked in use without an
    open file behind it. *)
Theorem slots_in_use_hold_open_files (v : volume) (rs : list request) :
  slots_open (Z.lor FA_WRITE FA_CREATE_ALWAYS)
             (upload_contexts (serve (init_state v) rs)) ∧
  slots_open FA_READ (download_contexts (serve (init_state v) rs)).
Proof.
  destruct (slots_open_init (Z.lor FA_WRITE FA_CREATE_ALWAYS) v) as [Hu _].
  destruct (slots_open_init FA_READ v) as [_ Hd].
  by apply slots_open_serve.
Qed.

Lemma download_vol_unchanged st r :
  slots_open FA_READ (download_contexts st) →
  is_download_request r = true → vol (handle st r) = vol st.
Proof.
  intros Hd Hr. destruct r as [| | | |ps|ps|ps|ps| | | |]; try done; simpl.
  - unfold cgi_download_start.
    destruct (param ps "token") as [tok|]; [|done].
    destruct (param ps "fullpath") as [fp|]; [|done].
    destruct (decode_param _ _) as [path|]; [|done].
    unfold alloc_download_ctx.
    destruct (alloc_ctx _ _) as [[i pool']|] eqn:Ha; [|done]. simpl.
    assert (Hv : (f_open (vol st) path FA_READ).2 = vol st).
    { unfold f_open. destruct (split_path path); [done|].
      change (has_flag FA_READ FA_CREATE_ALWAYS) with false.
      destruct (entries _ !! _) as [[|]|]; try done.
      by destruct (lookup_node _ _) as [[|]|]. }
    destruct (f_open _ _ _) as [[res fil] v']. simpl in Hv. subst v'.
    by case_bool_decide.
  - unfold cgi_download_chunk.
    destruct (match param ps "token" with Some _ => _ | None => _ end) as [i|] eqn:Ef;
      [|done].
    destruct (param ps "chunk"); [|done].
    assert (Hv : ∀ ofs, (f_lseek (vol st) (ctx_file (download_contexts st) i) ofs).2
                        = vol st).
    { intros ofs. unfold f_lseek. destruct (file_data _ _) eqn:Efd; [|done].
      destruct (param ps "token") as [tok|]; [|done].
      apply find_ctx_Some in Ef as (c & Hi & Hc & _).
      unfold ctx_file. rewrite Hi. destruct (Hd i c Hi Hc) as [_ ->].
      by change (has_flag FA_READ FA_WRITE) with false. }
    specialize (Hv (Z.to_nat (u32 (u32 (atoi (chars s)) * Z.of_nat DOWNLOAD_CHUNK_SIZE)))).
    destruct (f_lseek _ _ _) as [[? f1] v1]. simpl in Hv. subst v1.
    destruct (f_read _ _ _) as [[res raw] f2].
    case_bool_decide; [done|].
    destruct (mbedtls_base64_encode _ _) as [rc b64]. by case_bool_decide.
  - unfold cgi_download_end.
    by destruct (match param ps "token" with Some _ => _ | None => _ end).
  - unfold cgi_download_cancel.
    by destruct (match param ps "token" with Some _ => _ | None => _ end).
Qed.

(** X3.  The download handlers never change the volume: in any state the
    server reaches, a download start, chunk, end or cancel request leaves
    every file, every directory and the free space as they were. *)
Theorem downloads_never_change_the_volume (v : volume) (rs : list request)
    (r : request) :
  is_download_request r = true →
  vol (handle (serve (init_state v) rs) r) = vol (serve (init_state v) rs).
Proof.
  intros Hr. apply download_vol_unchanged; [|done].
  destruct (slots_open_init (Z.lor FA_WRITE FA_CREATE_ALWAYS) v) as [Hu _].
  destruct (slots_open_init FA_READ v) as [_ Hd].
  by apply slots_open_serve.
Qed.

Lemma downloads_never_change_the_volume_witness :
  let st :=
    serve (init_state sample_volume)
      [DownloadStart (start_params "d" "/docs/note.txt");
       UploadStart (start_params "u" "/docs/new.bin")] in
  vol (handle st (DownloadChunk [("token", Some "d"); ("chunk", Some "7")]))
  = vol st.
Proof.
  apply (downloads_never_change_the_volume sample_volume). reflexivity.
Defined.

(** ** Replies that cannot occur *)

Lemma decode_param_is_Some value size :
  0 < size → is_Some (decode_param value size).
Proof. intros H. rewrite decode_param_spec by done. eauto. Qed.

Lemma decode_error_handle st r :
  decode_error (json_buff st) = false →
  decode_error (json_buff (handle st r)) = false.
Proof.
  intros H.
  destruct r as [ps|ps|ps|ps|ps|ps|ps|ps|ps|c uri|c p|c]; simpl.
  - unfold cgi_upload_start.
    destruct (param ps "token") as [tok|]; [|done].
    destruct (param ps "fullpath") as [fp|]; [|done].
    destruct (decode_param_is_Some fp 256) as [path ->]; [lia|].
    destruct (alloc_upload_ctx _ _) as [[i st1]|]; [|done].
    destruct (f_open _ _ _) as [[res fil] v]. by case_bool_decide.
  - unfold cgi_upload_chunk.
    destruct (match param ps "token" with Some _ => _ | None => _ end); [|done].
    destruct (param ps "chunk"); [|done].
    destruct (param ps "payload") as [payload|]; [|done].
    destruct (decode_param_is_Some payload (length (chars payload) + 1))
      as [text ->]; [lia|].
    destruct (mbedtls_base64_decode _ _) as [rc buffer].
    case_bool_decide; [done|].
    destruct (f_lseek _ _ _) as [[? f1] v1].
    destruct (f_write _ _ _) as [[[res w] f2] v2].
    by destruct (_ || _).
  - unfold cgi_upload_end.
    by destruct (match param ps "token" with Some _ => _ | None => _ end).
  - unfold cgi_upload_cancel.
    by destruct (match param ps "token" with Some _ => _ | None => _ end).
  - unfold cgi_download_start.
    destruct (param ps "token") as [tok|]; [|done].
    destruct (param ps "fullpath") as [fp|]; [|done].
    destruct (decode_param_is_Some fp 256) as [path ->]; [lia|].
    destruct (alloc_download_ctx _ _) as [[i st1]|]; [|done].
    destruct (f_open _ _ _) as [[res fil] v]. by case_bool_decide.
  - unfold cgi_download_chunk.
    destruct (match param ps "token" with Some _ => _ | None => _ end); [|done].
    destruct (param ps "chunk"); [|done].
    destruct (f_lseek _ _ _) as [[? f1] v1].
    destruct (f_read _ _ _) as [[res raw] f2].
    case_bool_decide; [done|].
    destruct (mbedtls_base64_encode _ _) as [rc b64]. by case_bool_decide.
  - unfold cgi_download_end.
    by destruct (match param ps "token" with Some _ => _ | None => _ end).
  - unfold cgi_download_cancel.
    by destruct (match param ps "token" with Some _ => _ | None => _ end).
  - unfold cgi_del.
    destruct (param ps "folder") as [folder|]; [|done].
    destruct (param ps "src") as [src|]; [|done].
    destruct (decode_param_is_Some folder 256) as [df ->]; [lia|].
    destruct (decode_param_is_Some src 128) as [ds ->]; [lia|].
    destruct (delete_path _ _) as [r v].
    repeat case_bool_decide; done.
  - unfold httpd_post_begin.
    destruct (is_prefix _ _); [|done].
    destruct (strchr _ _) as [k|]; [|done].
    set (qs := drop k (chars uri)).
    set (st1 := match query_token qs with Some _ => _ | None => _ end).
    set (st2 := match strstr qs _ with Some _ => _ | None => _ end).
    assert (json_buff st2 = json_buff st) as E.
    { unfold st2, st1. destruct (strstr qs _); destruct (query_token qs); done. }
    destruct (current_chunk_ctx st2) as [i|]; simpl; [|by rewrite E].
    destruct (f_lseek _ _ _) as [[? f1] v1]. simpl. by rewrite E.
  - unfold httpd_post_receive_data.
    destruct (current_chunk_ctx st) as [i|]; [|done].
    destruct p as [|seg p]; [done|].
    case_bool_decide; [|done]. cbn [snd].
    assert (∀ p st, json_buff (fold_left (write_segment i) p st) = json_buff st)
      as E.
    { clear. induction p as [|seg p IH]; intros st; [done|].
      simpl. rewrite IH. unfold write_segment.
      by destruct (f_write _ _ _) as [[[? ?] ?] ?]. }
    by rewrite E.
  - done.
Qed.

(** X4.  The replies "invalid path", "invalid payload encoding" and
    "invalid encoding" are never produced: the handlers call [url_decode]
    only with a value they have checked to be present, a buffer of their own
    and a capacity of at least one, and then the decoder cannot fail. *)
Theorem decode_errors_never_reported (v : volume) (rs : list request) :
  decode_error (json_buff (serve (init_state v) rs)) = false.
Proof.
  assert (∀ st, decode_error (json_buff st) = false →
                decode_error (json_buff (serve st rs)) = false) as H.
  { induction rs as [|r rs IH]; intros st Hst; [done|].
    simpl. by apply IH, decode_error_handle. }
  by apply H.
Qed.

(** ** Ending and cancelling a transfer *)

Lemma in_use_count_free pool i c :
  pool !! i = Some c → in_use c = true →
  in_use_count pool = S (in_use_count (free_ctx pool i)).
Proof.
  intros Hi Hc. unfold free_ctx. rewrite Hi, Hc.
  assert (Hlt : i < length pool) by (by eapply lookup_lt_Some).
  rewrite insert_take_drop by done. unfold in_use_count.
  rewrite <- (take_drop_middle pool i c Hi) at 1.
  rewrite !filter_app, !length_app, filter_cons_True by done.
  rewrite (filter_cons_False _ (Ctx _ _ false)) by done. simpl. lia.
Qed.

Lemma find_ctx_free pool i tok :
  unique_tokens pool → find_ctx pool tok = Some i →
  find_ctx (free_ctx pool i) tok = None.
Proof.
  intros Hu Hf. apply find_ctx_Some in Hf as (c & Hi & Hc & Ht & _).
  apply find_ctx_None. intros j cj Hj [Hin Htok].
  apply in_use_free_ctx in Hj as (c0 & Hj & Ht0 & Hin0).
  case_bool_decide as Hij; [congruence|].
  apply Hij. eapply (Hu tok i j); eauto; congruence.
Qed.

Lemma release_spec pool i tok :
  unique_tokens pool → find_ctx pool tok = Some i →
  in_use_count pool = S (in_use_count (free_ctx pool i)) ∧
  find_ctx (free_ctx pool i) tok = None.
Proof.
  intros Hu Hf. split; [|by apply find_ctx_free].
  apply find_ctx_Some in Hf as (c & Hi & Hc & _). by eapply in_use_count_free.
Qed.

(** X5.  Ending or cancelling a transfer retires its token.  With distinct
    tokens in the pool, a successful [*_end] or [*_cancel] leaves the volume
    as it was, brings the number of slots in use down by exactly one, and
    the token no longer answers: a repeated end request, and a further
    chunk request, are refused.  An end or cancel request whose token
    matches no slot in use changes nothing but the reply. *)
Theorem end_and_cancel_retire_the_token (st : state) (ps : params)
    (tok : string) :
  param ps "token" = Some tok →
  (∀ i, unique_tokens (upload_contexts st) → find_upload_ctx st tok = Some i →
     ∀ st', st' = cgi_upload_end st ps ∨ st' = cgi_upload_cancel st ps →
       is_error (json_buff st') = false ∧ vol st' = vol st ∧
       in_use_count (upload_contexts st) = S (in_use_count (upload_contexts st')) ∧
       find_upload_ctx st' tok = None ∧
       cgi_upload_end st' ps = set_json st' (JsonError "invalid token") ∧
       cgi_upload_chunk st' ps = set_json st' (JsonError "invalid parameters")) ∧
  (∀ i, unique_tokens (download_contexts st) → find_download_ctx st tok = Some i →
     ∀ st', st' = cgi_download_end st ps ∨ st' = cgi_download_cancel st ps →
       is_error (json_buff st') = false ∧ vol st' = vol st ∧
       in_use_count (download_contexts st)
       = S (in_use_count (download_contexts st')) ∧
       find_download_ctx st' tok = None ∧
       cgi_download_end st' ps = set_json st' (JsonError "invalid token") ∧
       cgi_download_chunk st' ps = set_json st' (JsonError "invalid parameters")) ∧
  (find_upload_ctx st tok = None →
     cgi_upload_end st ps = set_json st (JsonError "invalid token") ∧
     cgi_upload_cancel st ps = set_json st (JsonError "invalid token")) ∧
  (find_download_ctx st tok = None →
     cgi_download_end st ps = set_json st (JsonError "invalid token") ∧
     cgi_download_cancel st ps = set_json st (JsonError "invalid token")).
Proof.
  intros Hp. split_and!.
  - intros i Hu Hf st' Hst'.
    destruct (release_spec _ _ _ Hu Hf) as [Hcount Hnone].
    assert (upload_contexts st' = free_ctx (upload_contexts st) i ∧
            vol st' = vol st ∧ is_error (json_buff st') = false) as (E & Ev & Ej).
    { destruct Hst' as [-> | ->];
        unfold cgi_upload_end, cgi_upload_cancel; by rewrite Hp, Hf. }
    assert (find_upload_ctx st' tok = None) as Hn
      by (unfold find_upload_ctx; by rewrite E).
    split_and!; try done.
    + by rewrite E.
    + unfold cgi_upload_end. by rewrite Hp, Hn.
    + unfold cgi_upload_chunk. by rewrite Hp, Hn.
  - intros i Hu Hf st' Hst'.
    destruct (release_spec _ _ _ Hu Hf) as [Hcount Hnone].
    assert (download_contexts st' = free_ctx (download_contexts st) i ∧
            vol st' = vol st ∧ is_error (json_buff st') = false) as (E & Ev & Ej).
    { destruct Hst' as [-> | ->];
        unfold cgi_download_end, cgi_download_cancel; by rewrite Hp, Hf. }
    assert (find_download_ctx st' tok = None) as Hn
      by (unfold find_download_ctx; by rewrite E).
    split_and!; try done.
    + by rewrite E.
    + unfold cgi_download_end. by rewrite Hp, Hn.
    + unfold cgi_download_chunk. by rewrite Hp, Hn.
  - intros Hn. unfold cgi_upload_end, cgi_upload_cancel. by rewrite Hp, Hn.
  - intros Hn. unfold cgi_download_end, cgi_download_cancel. by rewrite Hp, Hn.
Qed.

Lemma end_and_cancel_retire_the_token_witness :
  let ps := [("token", Some "up")] in
  let st' := cgi_upload_end uploading_state ps in
  in_use_count (upload_contexts uploading_state)
  = S (in_use_count (upload_contexts st')) ∧
  cgi_upload_end st' ps = set_json st' (JsonError "invalid token").
Proof.
  intros ps st'.
  destruct (end_and_cancel_retire_the_token uploading_state ps "up" eq_refl)
    as (H & _).
  destruct (H 0) with (st' := st') as (_ & _ & Hc & _ & He & _); [| | |done].
  - apply (unique_tokens_serve [UploadStart (start_params "up" "/up.bin")]
             (init_state sample_volume)); [vm_compute; tauto| |];
      apply unique_tokens_empty.
  - vm_compute. reflexivity.
  - by left.
Defined.

(** ** A cancelled upload *)

Lemma f_open_create v path fil v' :
  f_open v path (Z.lor FA_WRITE FA_CREATE_ALWAYS) = (FR_OK, fil, v') →
  entries v' !! split_path path = Some (File []).
Proof.
  unfold f_open. change (has_flag (Z.lor FA_WRITE FA_CREATE_ALWAYS) FA_CREATE_ALWAYS)
    with true.
  destruct (split_path path) as [|a p] eqn:Ep; [done|].
  destruct (entries v !! _) as [[data|]|]; [| done |].
  - intros H. injection H as <- <-. simpl. by rewrite lookup_insert_eq.
  - destruct (lookup_node _ _) as [[|]|]; try done.
    intros H. injection H as <- <-. simpl. by rewrite lookup_insert_eq.
Qed.

Lemma find_ctx_is_Some pool i c :
  pool !! i = Some c → in_use c = true → is_Some (find_ctx pool (token c)).
Proof.
  intros Hi Hc. destruct (find_ctx pool (token c)) eqn:Hf; [eauto|].
  exfalso. eapply find_ctx_None; eauto.
Qed.

(** X6.  Cancelling an upload does not undo its start.  When a start
    request with a token of at most 31 characters has been accepted, a
    cancel request with the same token is answered "cancelled" and brings
    the number of slots in use back to what it was, but the file that the
    start request created or truncated stays on the volume, empty. *)
Theorem cancelled_upload_leaves_empty_file (st : state) (ps : params)
    (tok fullpath : string) :
  param ps "token" = Some tok → param ps "fullpath" = Some fullpath →
  length (chars tok) ≤ 31 →
  json_buff (cgi_upload_start st ps)
  = JsonUploadStarted UPLOAD_CHUNK_SIZE UPLOAD_CHUNK_METHOD →
  let st2 := cgi_upload_cancel (cgi_upload_start st ps) ps in
  json_buff st2 = JsonStatus "cancelled" ∧
  in_use_count (upload_contexts st2) = in_use_count (upload_contexts st) ∧
  ∃ path, decode_param fullpath 256 = Some path ∧
          entries (vol st2) !! split_path path = Some (File []).
Proof.
  intros Ht Hp Hlen. unfold cgi_upload_start. rewrite Ht, Hp.
  destruct (decode_param fullpath 256) as [path|]; [|done].
  unfold alloc_upload_ctx.
  destruct (alloc_ctx _ _) as [[i pool']|] eqn:Ha; [|done]. simpl.
  destruct (f_open _ _ _) as [[res fil] v] eqn:Ho.
  case_bool_decide as Hres; [done|]. intros _.
  assert (res = FR_OK) as -> by (by destruct res).
  pose proof (in_use_alloc_free _ _ _ _ fil Ha) as Hflags.
  apply in_use_count_fmap in Hflags.
  apply alloc_ctx_Some in Ha as (c & Hi & Hc & _ & ->).
  assert (Hlt : i < length (upload_contexts st)) by (by eapply lookup_lt_Some).
  set (pool1 := set_file _ i fil) in *.
  assert (Hi1 : pool1 !! i = Some (Ctx tok fil true)).
  { unfold pool1. rewrite lookup_set_file, list_lookup_insert_eq by done.
    simpl. rewrite bool_decide_eq_true_2 by done.
    by rewrite strncpy_str_short by done. }
  destruct (find_ctx_is_Some pool1 i _ Hi1 eq_refl) as [j Hj]. simpl in Hj.
  unfold cgi_upload_cancel, find_upload_ctx. rewrite Ht. simpl. rewrite Hj.
  simpl. split; [done|]. split.
  - apply find_ctx_Some in Hj as (cj & Hj & Hcj & _).
    pose proof (in_use_count_free pool1 j cj Hj Hcj).
    pose proof (in_use_count_free pool1 i _ Hi1 eq_refl). lia.
  - exists path. split; [done|]. by eapply f_open_create.
Qed.

Lemma cancelled_upload_leaves_empty_file_witness :
  let ps := start_params "t" "/docs/note.txt" in
  let st2 :=
    cgi_upload_cancel (cgi_upload_start (init_state sample_volume) ps) ps in
  json_buff st2 = JsonStatus "cancelled" ∧
  in_use_count (upload_contexts st2) = 0 ∧
  ∃ path, decode_param "/docs/note.txt" 256 = Some path ∧
          entries (vol st2) !! split_path path = Some (File []).
Proof.
  apply (cancelled_upload_leaves_empty_file (init_state sample_volume)
           (start_params "t" "/docs/note.txt") "t" "/docs/note.txt");
    [reflexivity | reflexivity | simpl; lia | vm_compute; reflexivity].
Defined.

(** ** What a delete request changes *)

Lemma f_unlink_cases v path :
  ((f_unlink v path).1 ≠ FR_OK ∧ (f_unlink v path).2 = v) ∨
  ((f_unlink v path).1 = FR_OK ∧
   ∃ n, entries v !! split_path path = Some n ∧
        (f_unlink v path).2
        = Volume (delete (split_path path) (entries v))
                 (free_bytes v + node_size n)).
Proof.
  unfold f_unlink. destruct (split_path path) as [|a p]; [by left|].
  destruct (entries v !! _) as [n|]; [|by left].
  destruct n as [data|]; [right; eauto|].
  destruct (children _ _); [right; eauto|by left].
Qed.

Lemma delete_path_cases v path :
  ((delete_path v path).1 ≠ FR_OK ∧ (delete_path v path).2 = v) ∨
  ((delete_path v path).1 = FR_OK ∧
   ∃ n, entries v !! split_path path = Some n ∧
        (delete_path v path).2
        = Volume (delete (split_path path) (entries v))
                 (free_bytes v + node_size n)).
Proof.
  unfold delete_path. destruct (f_stat v path) as [fr fno].
  case_bool_decide; [by left|].
  destruct (has_flag _ _); [|apply f_unlink_cases].
  destruct (f_opendir v path) as [fr1 dir].
  case_bool_decide; [by left|].
  destruct (f_readdir v dir) as [[fr2 fno2] dir2].
  destruct (f_closedir dir2) as [? ?].
  case_bool_decide; [by left|].
  destruct (negb _); [by left|apply f_unlink_cases].
Qed.

(** X7.  A delete request removes one entry or nothing.  The transfer pools
    are never touched; unless the reply is "deleted" the volume is exactly
    as before; and when the reply is "deleted", the entry named by the
    joined path existed, it alone is gone, and the free space has grown by
    its size. *)
Theorem del_removes_one_entry_or_nothing (st : state) (ps : params) :
  let st' := cgi_del st ps in
  upload_contexts st' = upload_contexts st ∧
  download_contexts st' = download_contexts st ∧
  (json_buff st' ≠ JsonStatus "deleted" → vol st' = vol st) ∧
  (json_buff st' = JsonStatus "deleted" →
   ∃ df ds n,
     (param ps "folder" ≫= λ f, decode_param f 256) = Some df ∧
     (param ps "src" ≫= λ s, decode_param s 128) = Some ds ∧
     let p := split_path (join_path 512 df ds) in
     entries (vol st) !! p = Some n ∧
     entries (vol st') = delete p (entries (vol st)) ∧
     free_bytes (vol st') = free_bytes (vol st) + node_size n).
Proof.
  unfold cgi_del.
  destruct (param ps "folder") as [folder|]; [|done].
  destruct (param ps "src") as [src|]; [|done].
  simpl.
  destruct (decode_param folder 256) as [df|]; [|done].
  destruct (decode_param src 128) as [ds|]; [|done].
  pose proof (delete_path_cases (vol st) (join_path 512 df ds)) as Hd.
  destruct (delete_path _ _) as [r v]. simpl in Hd.
  destruct Hd as [[Hr ->] | [-> (n & Hn & ->)]].
  - repeat case_bool_decide; simpl; split_and!; try done.
  - change (bool_decide (FR_OK = FR_DENIED)) with false.
    change (bool_decide (FR_OK ≠ FR_OK)) with false. simpl.
    split_and!; try done. intros _. exists df, ds, n. done.
Qed.

Lemma del_removes_one_entry_or_nothing_witness :
  let st' := cgi_del (init_state sample_volume) (del_params "/docs" "note.txt") in
  entries (vol st') !! ["docs"; "note.txt"] = None ∧
  free_bytes (vol st') = 75.
Proof.
  intros st'.
  destruct (del_removes_one_entry_or_nothing (init_state sample_volume)
              (del_params "/docs" "note.txt")) as (_ & _ & _ & H).
  destruct H as (df & ds & n & Hdf & Hds & Hn & He & Hf);
    [vm_compute; reflexivity|].
  vm_compute in Hdf, Hds. injection Hdf as <-. injection Hds as <-.
  vm_compute in Hn. injection Hn as <-.
  split; [|exact Hf].
  unfold st'. rewrite He. apply lookup_delete_eq.
Defined.

(** ** What upload data can touch *)

Lemma f_lseek_frame v f ofs q :
  (fil_valid f = true → fil_path f ≠ q) →
  entries (f_lseek v f ofs).2 !! q = entries v !! q ∧
  (fil_valid (f_lseek v f ofs).1.2 = true → fil_path (f_lseek v f ofs).1.2 ≠ q).
Proof.
  intros H. unfold f_lseek. destruct (file_data v f) eqn:Ed; [|done].
  apply file_data_Some in Ed as [Hv _]. specialize (H Hv).
  destruct (has_flag _ _); [|done]. destruct (extend_to _ _ _). simpl.
  by rewrite lookup_insert_ne.
Qed.

Lemma f_write_frame v f buf q :
  (fil_valid f = true → fil_path f ≠ q) →
  entries (f_write v f buf).2 !! q = entries v !! q ∧
  (fil_valid (f_write v f buf).1.2 = true → fil_path (f_write v f buf).1.2 ≠ q).
Proof.
  intros H. unfold f_write. destruct (file_data v f) eqn:Ed; [|done].
  apply file_data_Some in Ed as [Hv _]. specialize (H Hv).
  destruct (has_flag _ _); [|done]. destruct (extend_to _ _ _).
  destruct (_ <? _); simpl; by rewrite lookup_insert_ne.
Qed.

Lemma not_an_upload_target_ctx_file pool i q :
  not_an_upload_target pool q →
  fil_valid (ctx_file pool i) = true → fil_path (ctx_file pool i) ≠ q.
Proof.
  intros H. unfold ctx_file. destruct (pool !! i) as [c|] eqn:Hi; [|done].
  by apply (H i).
Qed.

Lemma not_an_upload_target_set_file pool i f q :
  not_an_upload_target pool q → (fil_valid f = true → fil_path f ≠ q) →
  not_an_upload_target (set_file pool i f) q.
Proof.
  intros H Hf j c Hj. rewrite lookup_set_file in Hj.
  destruct (pool !! j) as [c0|] eqn:Ej; [|done]. simpl in Hj. injection Hj as <-.
  case_bool_decide; [done|]. by apply (H j).
Qed.

Lemma write_segment_frame i st seg q :
  not_an_upload_target (upload_contexts st) q →
  entries (vol (write_segment i st seg)) !! q = entries (vol st) !! q ∧
  not_an_upload_target (upload_contexts (write_segment i st seg)) q.
Proof.
  intros H. unfold write_segment.
  destruct (f_write_frame (vol st) (ctx_file (upload_contexts st) i) seg q)
    as [He Hp]; [by apply not_an_upload_target_ctx_file|].
  destruct (f_write _ _ _) as [[[? ?] f1] v1]. simpl in *.
  split; [done|]. by apply not_an_upload_target_set_file.
Qed.

Lemma write_segments_frame i p q : ∀ st,
  not_an_upload_target (upload_contexts st) q →
  entries (vol (fold_left (write_segment i) p st)) !! q = entries (vol st) !! q ∧
  not_an_upload_target (upload_contexts (fold_left (write_segment i) p st)) q.
Proof.
  induction p as [|seg p IH]; intros st H; [done|]. simpl.
  destruct (write_segment_frame i st seg q H) as [He Hn].
  destruct (IH _ Hn) as [He' Hn']. split; [congruence|done].
Qed.

(** X8.  Upload data reaches only files that an upload slot has open.  A
    chunk request, or any of the three raw POST callbacks, leaves the entry
    at every path on which no upload slot holds an open file object exactly
    as it was, whatever token, chunk number and payload it carries; and no
    slot comes to hold such a path. *)
Theorem chunk_traffic_touches_only_open_uploads (st : state) (r : request)
    (q : list string) :
  is_chunk_traffic r = true →
  not_an_upload_target (upload_contexts st) q →
  entries (vol (handle st r)) !! q = entries (vol st) !! q ∧
  not_an_upload_target (upload_contexts (handle st r)) q.
Proof.
  intros Hr H. destruct r as [|ps| | | | | | | |c uri|c p|c]; try done; simpl.
  - unfold cgi_upload_chunk.
    destruct (match param ps "token" with Some _ => _ | None => _ end) as [i|];
      [|done].
    destruct (param ps "chunk") as [chunkStr|]; [|done].
    destruct (param ps "payload"); [|done].
    destruct (decode_param _ _); [|done].
    destruct (mbedtls_base64_decode _ _) as [rc buffer].
    case_bool_decide; [done|].
    destruct (f_lseek_frame (vol st) (ctx_file (upload_contexts st) i)
      (Z.to_nat (u32 (atoi (chars chunkStr) * UPLOAD_CHUNK_SIZE))) q) as [He Hp];
      [by apply not_an_upload_target_ctx_file|].
    destruct (f_lseek _ _ _) as [[? f1] v1]. simpl in He, Hp.
    destruct (f_write_frame v1 f1 buffer q Hp) as [He' Hp'].
    destruct (f_write _ _ _) as [[[res w] f2] v2]. simpl in He', Hp'.
    destruct (_ || _); simpl; (split; [congruence|]);
      by apply not_an_upload_target_set_file.
  - unfold httpd_post_begin.
    destruct (is_prefix _ _); [|done].
    destruct (strchr _ _) as [k|]; [|done].
    set (qs := drop k (chars uri)).
    set (st1 := match query_token qs with Some _ => _ | None => _ end).
    set (st2 := match strstr qs _ with Some _ => _ | None => _ end).
    assert (upload_contexts st2 = upload_contexts st ∧ vol st2 = vol st)
      as [E1 E2].
    { unfold st2, st1. destruct (strstr qs _); destruct (query_token qs); done. }
    destruct (current_chunk_ctx st2) as [i|]; simpl; [|by rewrite E1, E2].
    destruct (f_lseek_frame (vol st2) (ctx_file (upload_contexts st2) i)
      (Z.to_nat (u32 (current_chunk_idx st2 * UPLOAD_CHUNK_SIZE))) q) as [He Hp];
      [rewrite E1; by apply not_an_upload_target_ctx_file|].
    destruct (f_lseek _ _ _) as [[? f1] v1]. simpl in *. rewrite E1, E2 in *.
    split; [done|]. by apply not_an_upload_target_set_file.
  - unfold httpd_post_receive_data.
    destruct (current_chunk_ctx st) as [i|]; [|done].
    destruct p as [|seg p]; [done|].
    case_bool_decide; [|done]. cbn [snd].
    by apply write_segments_frame.
Qed.

Lemma chunk_traffic_touches_only_open_uploads_witness :
  entries (vol (handle uploading_state
                  (UploadChunk (chunk_params "up" "0" "aGVsbG8%3D"))))
    !! ["docs"; "note.txt"]
  = entries (vol uploading_state) !! ["docs"; "note.txt"].
Proof.
  apply (chunk_traffic_touches_only_open_uploads uploading_state
           (UploadChunk (chunk_params "up" "0" "aGVsbG8%3D"))
           ["docs"; "note.txt"]); [reflexivity|].
  intros i c Hi Hv. destruct i as [|[|[|[|i]]]]; vm_compute in Hi;
    try discriminate Hi; injection Hi as <-; try discriminate Hv.
  vm_compute. discriminate.
Defined.

(** ** The body of a raw POST *)

Lemma splice_step {A} (data seg rest : list A) a :
  a ≤ length data →
  let data2 := take a data ++ seg ++ drop (a + length seg) data in
  take (a + length seg) data2 ++ rest
    ++ drop (a + length seg + length rest) data2
  = take a data ++ (seg ++ rest) ++ drop (a + length (seg ++ rest)) data.
Proof.
  intros Ha data2.
  assert (Hl : length (take a data ++ seg) = a + length seg).
  { rewrite length_app, length_take. lia. }
  assert (E : data2 = (take a data ++ seg) ++ drop (a + length seg) data).
  { unfold data2. by rewrite app_assoc. }
  rewrite E, take_app_length' by done.
  replace (a + length seg + length rest)
    with (length (take a data ++ seg) + length rest) by lia.
  rewrite drop_app_add', drop_drop, length_app, <- !app_assoc by done.
  do 4 f_equal. lia.
Qed.

Lemma write_segments_spec i p : ∀ st data,
  let f := ctx_file (upload_contexts st) i in
  i < length (upload_contexts st) →
  file_data (vol st) f = Some data →
  has_flag (fil_flag f) FA_WRITE = true →
  fptr f ≤ length data →
  fptr f + length (concat p) ≤ length data + free_bytes (vol st) →
  let st' := fold_left (write_segment i) p st in
  let f' := ctx_file (upload_contexts st') i in
  file_data (vol st') f'
  = Some (take (fptr f) data ++ concat p
            ++ drop (fptr f + length (concat p)) data) ∧
  fptr f' = fptr f + length (concat p).
Proof.
  induction p as [|seg p IH]; intros st data f Hi Hd Hw Ha Hroom.
  - simpl. rewrite Nat.add_0_r, take_drop. done.
  - cbn [fold_left concat]. cbn [concat] in Hroom. rewrite length_app in Hroom.
    pose proof (f_write_in_range (vol st) f seg data Hd Hw Ha) as Hfw.
    cbv zeta in Hfw.
    rewrite (Nat.min_l (length seg)) in Hfw by (clear -Hroom Ha; lia).
    set (a := fptr f) in *.
    set (data2 := take a data ++ take (length seg) seg
                    ++ drop (a + length seg) data) in *.
    set (st1 := write_segment i st seg).
    assert (Hst1 : upload_contexts st1
                   = set_file (upload_contexts st) i
                       (Fil true (fil_path f) (fil_flag f) (a + length seg)) ∧
                   vol st1
                   = Volume (<[fil_path f := File data2]> (entries (vol st)))
                            (free_bytes (vol st) - (a + length seg - length data))).
    { unfold st1, write_segment. fold f. by rewrite Hfw. }
    destruct Hst1 as [Hu Hv].
    assert (Hf1 : ctx_file (upload_contexts st1) i
                  = Fil true (fil_path f) (fil_flag f) (a + length seg)).
    { rewrite Hu. by apply ctx_file_set_file. }
    assert (Hl2 : length data2 = length data `max` (a + length seg)).
    { unfold data2. rewrite !length_app, !length_take, length_drop.
      clear -Ha. lia. }
    specialize (IH st1 data2). cbv zeta in IH. rewrite Hf1 in IH. simpl in IH.
    destruct IH as [IHd IHp].
    + rewrite Hu, length_set_file. done.
    + apply file_data_Some. split; [done|]. simpl. rewrite Hv. simpl.
      by rewrite lookup_insert_eq.
    + done.
    + rewrite Hl2. clear. lia.
    + rewrite Hl2, Hv. simpl. clear -Hroom Ha. lia.
    + split.
      * rewrite IHd. f_equal. unfold data2. rewrite firstn_all.
        apply splice_step. done.
      * rewrite IHp, length_app. clear. lia.
Qed.

(** X9.  The body of a raw POST is written in one piece at the chunk
    offset.  When [httpd_post_begin] accepts a POST for chunk [idx] of an
    upload whose file holds [old], and the volume has room for what
    follows, the segments handed to [httpd_post_receive_data] land one after
    another from offset [idx * 4096]: the file then holds the old content
    (padded up to the offset if it was shorter) with the concatenated body
    spliced in at that offset, and the write pointer stands at its end. *)
Theorem raw_post_body_lands_at_chunk_offset (st : state) (connection : nat)
    (uri tok : string) (k cpos i idx : nat) (old : list ascii)
    (p : list (list ascii)) :
  let qs := drop k (chars uri) in
  let f := ctx_file (upload_contexts st) i in
  let ofs := idx * 4096 in
  let body := concat p in
  is_prefix (chars "/upload_chunk.cgi") (chars uri) = true →
  strchr (chars uri) "?" = Some k →
  query_token qs = Some tok → find_upload_ctx st tok = Some i →
  strstr qs (chars "chunk=") = Some cpos →
  atoi (drop (cpos + 6) qs) = Z.of_nat idx →
  (Z.of_nat ofs < 2 ^ 32)%Z →
  file_data (vol st) f = Some old → has_flag (fil_flag f) FA_WRITE = true →
  ofs + length body ≤ length old + free_bytes (vol st) →
  p ≠ [] →
  let st1 := (httpd_post_begin st connection uri).2 in
  let st2 := (httpd_post_receive_data st1 connection p).2 in
  let padded := old ++ replicate (ofs - length old) NUL in
  (httpd_post_begin st connection uri).1 = ERR_OK ∧
  (httpd_post_receive_data st1 connection p).1 = ERR_OK ∧
  file_data (vol st2) (ctx_file (upload_contexts st2) i)
  = Some (take ofs padded ++ body ++ drop (ofs + length body) padded) ∧
  fptr (ctx_file (upload_contexts st2) i) = ofs + length body.
Proof.
  intros qs f ofs body Hpre Hq Htok Hfind Hchunk Hatoi Hofs Hd Hw Hroom Hp
         st1 st2 padded.
  assert (Hi : i < length (upload_contexts st)) by (by eapply find_ctx_lt).
  assert (Hseek : Z.to_nat (u32 (u32 (Z.of_nat idx) * UPLOAD_CHUNK_SIZE)) = ofs).
  { unfold u32, UPLOAD_CHUNK_SIZE, ofs in *.
    rewrite Z.mul_mod_idemp_l by lia.
    rewrite Z.mod_small by lia. lia. }
  pose proof (f_lseek_write (vol st) f ofs old Hd Hw) as Hl. cbv zeta in Hl.
  rewrite (Nat.min_l (ofs - length old)) in Hl by (clear -Hroom; lia).
  rewrite (Nat.min_l ofs) in Hl by (clear; lia).
  fold padded in Hl.
  assert (Hbegin : httpd_post_begin st connection uri
    = (ERR_OK,
       set_connection
         (set_vol
            (set_uploads (set_chunk_idx (set_chunk_ctx st (Some i))
                            (u32 (Z.of_nat idx)))
               (set_file (upload_contexts st) i
                  (Fil true (fil_path f) (fil_flag f) ofs)))
            (Volume (<[fil_path f := File padded]> (entries (vol st)))
                    (free_bytes (vol st) - (ofs - length old))))
         connection)).
  { unfold httpd_post_begin. rewrite Hpre, Hq. fold qs.
    rewrite Htok, Hchunk, Hatoi. unfold find_upload_ctx in Hfind.
    unfold find_upload_ctx. rewrite Hfind. cbn [current_chunk_ctx set_chunk_idx
      set_chunk_ctx current_chunk_idx vol upload_contexts].
    rewrite Hseek. fold f. by rewrite Hl. }
  unfold st2, st1. rewrite Hbegin. cbn [fst snd]. split; [done|].
  unfold httpd_post_receive_data.
  cbn [current_chunk_ctx set_connection set_vol set_uploads set_chunk_idx
       set_chunk_ctx current_connection].
  destruct p as [|seg p]; [done|].
  rewrite bool_decide_eq_true_2 by done. cbn [fst snd]. split; [done|].
  match goal with
  | |- context [fold_left _ _ ?s] => set (st0 := s)
  end.
  assert (Hf0 : ctx_file (upload_contexts st0) i
                = Fil true (fil_path f) (fil_flag f) ofs).
  { unfold st0. simpl. by apply ctx_file_set_file. }
  pose proof (write_segments_spec i (seg :: p) st0 padded) as Hspec.
  cbv zeta in Hspec. rewrite Hf0 in Hspec. simpl fptr in Hspec.
  assert (Hlp : length padded = length old `max` ofs).
  { unfold padded. rewrite length_app, length_replicate. clear. lia. }
  apply Hspec.
  - unfold st0. simpl. by rewrite length_set_file.
  - apply file_data_Some. split; [done|]. unfold st0. simpl.
    by rewrite lookup_insert_eq.
  - done.
  - rewrite Hlp. clear. lia.
  - rewrite Hlp. unfold st0. simpl free_bytes. fold body.
    clear -Hroom. lia.
Qed.

Lemma raw_post_body_lands_at_chunk_offset_witness :
  let st1 :=
    (httpd_post_begin uploading_state 7 "/upload_chunk.cgi?token=up&chunk=0").2 in
  let st2 := (httpd_post_receive_data st1 7 [chars "hel"; chars "lo"]).2 in
  file_data (vol st2) (ctx_file (upload_contexts st2) 0) = Some (chars "hello").
Proof.
  pose proof (raw_post_body_lands_at_chunk_offset uploading_state 7
                "/upload_chunk.cgi?token=up&chunk=0" "up" 17 10 0 0 []
                [chars "hel"; chars "lo"]) as H.
  cbv zeta in H.
  destruct H as (_ & _ & H & _);
    [vm_compute; reflexivity..| vm_compute; lia| discriminate|].
  exact H.
Defined.

(** ** Chunk requests with any chunk number *)

(** X10.  A chunk request on a download under way never fails, whatever
    its chunk parameter holds.  The parameter goes through [atoi] and the
    offset is the product with 2048 reduced modulo 2^32; the reply carries
    the up to 2048 bytes of the file at that offset, and an offset at or
    past the end of the file gives a chunk of length 0 with empty data, not
    an error.  The download stays as it was. *)
Theorem download_chunk_never_fails (st : state) (ps : params)
    (tok chunkStr : string) (i : nat) (p : list string) (data : list ascii) :
  param ps "token" = Some tok → param ps "chunk" = Some chunkStr →
  downloading st tok i p data →
  let ofs := Z.to_nat (u32 (atoi (chars chunkStr) * 2048)) in
  let chunk := take DOWNLOAD_CHUNK_SIZE (drop ofs data) in
  let st' := cgi_download_chunk st ps in
  json_buff st' = JsonChunk (length chunk) (base64_encode chunk) ∧
  (length data ≤ ofs → json_buff st' = JsonChunk 0 []) ∧
  downloading st' tok i p data.
Proof.
  intros Ht Hc (Hfind & Hentry & Hvalid & Hpath & Hflag) ofs chunk st'.
  assert (Hi : i < length (download_contexts st)) by by eapply find_ctx_lt.
  assert (Hofs : Z.to_nat (u32 (u32 (atoi (chars chunkStr))
                                * Z.of_nat DOWNLOAD_CHUNK_SIZE)) = ofs).
  { unfold ofs, u32, DOWNLOAD_CHUNK_SIZE.
    change (Z.of_nat 2048) with 2048%Z.
    by rewrite Z.mul_mod_idemp_l by lia. }
  set (f := ctx_file (download_contexts st) i) in *.
  assert (Hdata : file_data (vol st) f = Some data).
  { apply file_data_Some. by rewrite Hpath. }
  assert (Hchunk : length chunk ≤ DOWNLOAD_CHUNK_SIZE)
    by (unfold chunk; rewrite length_take; lia).
  assert (Hjson : json_buff st' = JsonChunk (length chunk) (base64_encode chunk)
                  ∧ downloading st' tok i p data).
  { subst st'. unfold cgi_download_chunk. rewrite Ht, Hc, Hfind, Hofs. fold f.
    unfold f_lseek. rewrite Hdata, Hflag.
    change (has_flag FA_READ FA_WRITE) with false. cbn iota.
    unfold f_read.
    assert (Hdata' : file_data (vol st)
              (Fil true (fil_path f) FA_READ (ofs `min` length data))
              = Some data).
    { apply file_data_Some. by rewrite Hpath. }
    rewrite Hdata'. cbn [fil_flag fil_path fptr].
    change (has_flag FA_READ FA_READ) with true. cbn iota.
    assert (Hclip : take DOWNLOAD_CHUNK_SIZE (drop (ofs `min` length data) data)
                    = chunk).
    { unfold chunk. destruct (Nat.min_spec ofs (length data)) as [[_ ->]|[Hge ->]];
        [done|]. by rewrite !drop_ge by lia. }
    rewrite Hclip. cbn zeta.
    rewrite bool_decide_eq_false_2 by (intros H; by apply H).
    rewrite mbedtls_base64_encode_ok by done.
    rewrite bool_decide_eq_false_2 by (intros H; by apply H).
    split; [done|].
    unfold downloading, find_download_ctx. simpl.
    rewrite find_ctx_set_file, ctx_file_set_file by done. simpl.
    split_and!; try done. }
  destruct Hjson as [Hjson Hdl]. split_and!; [done| |done].
  intros Hge. rewrite Hjson. unfold chunk. by rewrite drop_ge by done.
Qed.

Lemma download_chunk_never_fails_witness :
  let st :=
    cgi_download_start (init_state sample_volume)
      (start_params "d" "/docs/note.txt") in
  json_buff (cgi_download_chunk st [("token", Some "d"); ("chunk", Some "-1")])
  = JsonChunk 0 [].
Proof.
  intros st.
  destruct (download_chunk_never_fails st
              [("token", Some "d"); ("chunk", Some "-1")] "d" "-1" 0
              ["docs"; "note.txt"] (chars "hello world") eq_refl eq_refl)
    as (_ & H & _).
  - vm_compute. split_and!; reflexivity.
  - apply H. apply Nat2Z.inj_le.
    rewrite Z2Nat.id by (vm_compute; discriminate).
    vm_compute. discriminate.
Defined.

(** ** More on the parameter decoder *)

Lemma percent_decode_length s : length (percent_decode s) ≤ length s.
Proof.
  remember (length s) as n eqn:Hn. revert s Hn.
  induction n as [n IH] using lt_wf_ind. intros s ->.
  destruct s as [|c s]; [done|]. rewrite percent_decode_cons.
  destruct (escape_at c s).
  - simpl. pose proof (IH (length (drop 2 s))) as H.
    rewrite length_drop in *. simpl in H.
    specialize (H ltac:(lia) (drop 2 s)). rewrite length_drop in H.
    specialize (H eq_refl). lia.
  - simpl. specialize (IH (length s) ltac:(simpl; lia) s eq_refl). lia.
Qed.

Lemma c_str_length l : length (c_str l) ≤ length l.
Proof.
  induction l as [|c l IH]; [done|]. simpl. destruct (is_nul c); simpl; lia.
Qed.

(** X11.  The decoder never produces more characters than it reads, so a
    capacity of one more than the length of the value, as [cgi_upload_chunk]
    allocates for the payload, always holds the whole decoded text: nothing
    is cut, and a larger capacity gives the same result. *)
Theorem decoded_text_fits_input_length (value : string) (size : nat) :
  length (chars value) < size →
  length (percent_decode (c_str (chars value))) ≤ length (chars value) ∧
  decode_param value size = Some (c_str (percent_decode (c_str (chars value)))).
Proof.
  intros Hsize.
  assert (H : length (percent_decode (c_str (chars value)))
              ≤ length (chars value)).
  { etrans; [apply percent_decode_length|apply c_str_length]. }
  split; [done|].
  rewrite decode_param_spec by lia. by rewrite take_ge by lia.
Qed.

Lemma decoded_text_fits_input_length_witness :
  decode_param "a%2Fb+c" 8 = Some (chars "a/b c").
Proof.
  destruct (decoded_text_fits_input_length "a%2Fb+c" 8) as [_ H];
    [simpl; lia|].
  rewrite H. reflexivity.
Defined.

Lemma rd_insert_ne (buf : list ascii) o k x :
  k ≠ o → rd (<[o := x]> buf) k = rd buf k.
Proof.
  intros Hne. unfold rd. rewrite !nth_lookup.
  by rewrite list_lookup_insert_ne.
Qed.

Lemma url_decode_loop_ext fuel outLen : ∀ inp inp' i o out,
  (∀ k, i ≤ k → rd inp k = rd inp' k) →
  url_decode_loop fuel inp outLen i o out
  = url_decode_loop fuel inp' outLen i o out.
Proof.
  induction fuel as [|fuel IH]; intros inp inp' i o out H; [done|].
  cbn [url_decode_loop].
  rewrite <- !H by lia.
  destruct (negb _ && _); [|done].
  destruct (_ && _ && _).
  - apply IH. intros k Hk. apply H. lia.
  - destruct (Ascii.eqb _ _); apply IH; intros k Hk; apply H; lia.
Qed.

Lemma url_decode_loop_in_place_spec fuel outLen : ∀ i o buf,
  o ≤ i →
  url_decode_loop_in_place fuel outLen i o buf
  = url_decode_loop fuel buf outLen i o buf.
Proof.
  induction fuel as [|fuel IH]; intros i o buf Hoi; [done|].
  cbn [url_decode_loop_in_place url_decode_loop].
  destruct (negb _ && _); [|done].
  destruct (_ && _ && _); [|destruct (Ascii.eqb _ _)];
    (rewrite IH by lia; apply url_decode_loop_ext;
     intros k Hk; apply rd_insert_ne; lia).
Qed.

Lemma url_decode_in_place_eq buf outLen :
  url_decode_in_place (Some buf) outLen
  = url_decode (Some buf) (Some buf) outLen.
Proof.
  unfold url_decode_in_place, url_decode.
  destruct (outLen =? 0); [done|].
  by rewrite url_decode_loop_in_place_spec by done.
Qed.

Lemma strlen_lt buf : NUL ∈ buf → strlen buf < length buf.
Proof.
  unfold strlen. induction buf as [|c l IH]; intros Hnul.
  - by apply elem_of_nil in Hnul.
  - simpl. destruct (is_nul c) eqn:Hc; simpl; [lia|].
    apply elem_of_cons in Hnul as [Hnul|Hnul].
    + subst c. done.
    + specialize (IH Hnul). lia.
Qed.

Lemma url_decode_in_place_strlen buf :
  NUL ∈ buf →
  let d := percent_decode (c_str buf) in
  url_decode_in_place (Some buf) (strlen buf + 1)
  = (true, Some (d ++ NUL :: drop (S (length d)) buf)).
Proof.
  intros Hnul d.
  assert (Hd : length d ≤ strlen buf) by apply percent_decode_length.
  pose proof (strlen_lt buf Hnul) as Hlen.
  rewrite url_decode_in_place_eq, url_decode_spec by lia. cbv zeta.
  replace (strlen buf + 1 - 1) with (strlen buf) by lia.
  fold d. by rewrite take_ge by done.
Qed.

(** X12.  Decoding in place is sound.  With the output pointer equal to
    the input pointer, as in [cgi_folder] and [cgi_ls], the loop never reads
    a byte it has already overwritten: the result is the one of a call with
    separate buffers on the same text.  With the capacity [strlen + 1] that
    those handlers pass, the buffer then holds the whole decoded text and
    its terminator, and what followed the old terminator is untouched. *)
Theorem url_decode_in_place_is_sound (buf : list ascii) (outLen : nat) :
  url_decode_in_place (Some buf) outLen
  = url_decode (Some buf) (Some buf) outLen ∧
  (NUL ∈ buf →
   let d := percent_decode (c_str buf) in
   url_decode_in_place (Some buf) (strlen buf + 1)
   = (true, Some (d ++ NUL :: drop (S (length d)) buf)) ∧
   drop (S (strlen buf)) (d ++ NUL :: drop (S (length d)) buf)
   = drop (S (strlen buf)) buf).
Proof.
  split; [apply url_decode_in_place_eq|]. intros Hnul d.
  assert (Hd : length d ≤ strlen buf) by apply percent_decode_length.
  split; [by apply url_decode_in_place_strlen|].
  rewrite drop_app_ge by lia.
  replace (S (strlen buf) - length d) with (S (strlen buf - length d)) by lia.
  simpl. rewrite drop_drop. f_equal. lia.
Qed.

Lemma url_decode_in_place_is_sound_witness :
  url_decode_in_place (Some (chars "%2Fa+b" ++ NUL :: chars "&x=1"))
    (strlen (chars "%2Fa+b" ++ NUL :: chars "&x=1") + 1)
  = (true, Some (chars "/a b" ++ NUL :: chars "b" ++ NUL :: chars "&x=1")).
Proof.
  destruct (url_decode_in_place_is_sound
              (chars "%2Fa+b" ++ NUL :: chars "&x=1") 0) as [_ H].
  destruct H as [H _]; [vm_compute; set_solver|].
  rewrite H. reflexivity.
Defined.

(** ** The reply text as lwIP receives it *)

Lemma ssi_handler_jsonpld_spec json pcInsert iInsertLen part next :
  (128 < iInsertLen ≤ INT_MAX)%Z → (iInsertLen ≤ Z.of_nat (length pcInsert))%Z →
  length json < MAX_JSON_PAYLOAD_SIZE →
  part * 128 < length json →
  let chunk := take 128 (drop (part * 128) json) in
  ∃ pcInsert',
    ssi_handler_jsonpld json pcInsert iInsertLen part next
    = (length chunk, pcInsert',
       if (part + 1) * 128 <? length json then part + 1 else next) ∧
    length pcInsert' = length pcInsert ∧
    take (length chunk) pcInsert' = chunk ∧
    pcInsert' !! length chunk = Some NUL.
Proof.
  intros Hins Hbuf0 Hjson Hpart chunk. unfold ssi_handler_jsonpld, MAX_JSON_PAYLOAD_SIZE in *.
  destruct (length json <=? part * 128) eqn:E; [apply Nat.leb_le in E; lia|].
  clear E.
  assert (Hc : length chunk = (length json - part * 128) `min` 128).
  { unfold chunk. rewrite length_take, length_drop. lia. }
  assert (Hroom : 128 ≤ Z.to_nat (u32 (iInsertLen - 1))).
  { unfold u32, INT_MAX in *. rewrite Z.mod_small by lia. lia. }
  set (room := Z.to_nat (u32 (iInsertLen - 1))) in *. clearbody room.
  set (cl := if length json - part * 128 <? 128
             then length json - part * 128 else 128).
  assert (Hcl : cl = length chunk).
  { unfold cl. rewrite Hc. destruct (_ <? _) eqn:E.
    - apply Nat.ltb_lt in E. lia.
    - apply Nat.ltb_ge in E. lia. }
  rewrite Hcl.
  assert (Hle : length chunk ≤ 128) by lia.
  destruct (room <? length chunk) eqn:E; [apply Nat.ltb_lt in E; lia|]. clear E.
  assert (Hbuf : 128 < length pcInsert) by lia.
  assert (Htake : take (length chunk) (drop (part * 128) json) = chunk).
  { unfold chunk. rewrite length_take.
    destruct (Nat.min_spec 128 (length (drop (part * 128) json)))
      as [[_ ->]|[Hge ->]]; [done|]. by rewrite !take_ge by lia. }
  rewrite Htake.
  eexists. split; [|split_and!].
  - f_equal; [f_equal|].
    + unfold u16. rewrite Z.mod_small by lia. lia.
    + assert (part < 32) by lia.
      replace (u16 (part + 1)) with (part + 1)
        by (unfold u16; rewrite Z.mod_small by lia; lia).
      replace (part * 128 + length chunk <? length json)
        with ((part + 1) * 128 <? length json); [done|].
      destruct ((part + 1) * 128 <? length json) eqn:E1;
        destruct (part * 128 + length chunk <? length json) eqn:E2; try done.
      * apply Nat.ltb_lt in E1. apply Nat.ltb_ge in E2. lia.
      * apply Nat.ltb_ge in E1. apply Nat.ltb_lt in E2. lia.
  - unfold memcpy. rewrite length_insert, length_app, length_take, length_drop.
    lia.
  - unfold memcpy. rewrite take_insert_ge by lia.
    rewrite (take_ge chunk) by lia. by rewrite take_app_length.
  - unfold memcpy. rewrite (take_ge chunk) by lia.
    apply list_lookup_insert_eq. rewrite length_app, length_drop. lia.
Qed.

Lemma ssi_insert_spec fuel json iInsertLen : ∀ part pcInsert,
  (128 < iInsertLen ≤ INT_MAX)%Z → (iInsertLen ≤ Z.of_nat (length pcInsert))%Z →
  length json < MAX_JSON_PAYLOAD_SIZE →
  part * 128 ≤ length json →
  (length json - part * 128) / 128 < fuel →
  ssi_insert fuel json pcInsert iInsertLen part = Some (drop (part * 128) json).
Proof.
  induction fuel as [|fuel IH]; intros part pcInsert Hins Hbuf Hjson Hpart Hfuel;
    [lia|].
  cbn [ssi_insert].
  destruct (decide (part * 128 = length json)) as [Heq|Hne].
  - unfold ssi_handler_jsonpld. rewrite Heq, Nat.leb_refl.
    change (HTTPD_LAST_TAG_PART =? HTTPD_LAST_TAG_PART) with true. cbn iota.
    by rewrite drop_all.
  - destruct (ssi_handler_jsonpld_spec json pcInsert iInsertLen part
                HTTPD_LAST_TAG_PART Hins Hbuf Hjson) as (pc & -> & Hlen & Htake & _);
      [lia|].
    rewrite Htake.
    assert (part < 32) by (unfold MAX_JSON_PAYLOAD_SIZE in *; lia).
    destruct ((part + 1) * 128 <? length json) eqn:E.
    + apply Nat.ltb_lt in E.
      replace (part + 1 =? HTTPD_LAST_TAG_PART) with false
        by (symmetry; apply Nat.eqb_neq; unfold HTTPD_LAST_TAG_PART; lia).
      rewrite IH; [| done | lia | done | lia |].
      * simpl. f_equal.
        replace ((part + 1) * 128) with (part * 128 + 128) by lia.
        by rewrite <- drop_drop, take_drop.
      * replace (length json - part * 128)
          with (length json - (part + 1) * 128 + 1 * 128) in Hfuel by lia.
        rewrite Nat.div_add in Hfuel by done. lia.
    + apply Nat.ltb_ge in E.
      change (HTTPD_LAST_TAG_PART =? HTTPD_LAST_TAG_PART) with true. cbn iota.
      f_equal. apply take_ge. rewrite length_drop. lia.
Qed.

(** X13.  The [JSONPLD] tag delivers the whole reply.  With an insert
    buffer of more than 128 characters, each call of the handler for a part
    that exists copies the next 128 characters of the reply text (fewer for
    the last part), terminates them, and names a further part exactly when
    text remains; lwIP, following the parts from part 0, receives the reply
    text complete and unchanged, within [length / 128 + 1] calls. *)
Theorem jsonpld_delivers_the_reply (json pcInsert : list ascii)
    (iInsertLen : Z) (fuel : nat) :
  (128 < iInsertLen ≤ INT_MAX)%Z → (iInsertLen ≤ Z.of_nat (length pcInsert))%Z →
  length json < MAX_JSON_PAYLOAD_SIZE →
  length json / 128 < fuel →
  ssi_insert fuel json pcInsert iInsertLen 0 = Some json ∧
  ∀ part next, part * 128 < length json →
    let chunk := take 128 (drop (part * 128) json) in
    ∃ pcInsert',
      ssi_handler_jsonpld json pcInsert iInsertLen part next
      = (length chunk, pcInsert',
         if (part + 1) * 128 <? length json then part + 1 else next) ∧
      take (length chunk) pcInsert' = chunk ∧
      pcInsert' !! length chunk = Some NUL.
Proof.
  intros Hins Hbuf Hjson Hfuel. split.
  - rewrite ssi_insert_spec; try done; [lia|]. by rewrite Nat.sub_0_r.
  - intros part next Hpart chunk.
    destruct (ssi_handler_jsonpld_spec json pcInsert iInsertLen part next)
      as (pc & E & _ & Ht & Hn); try done.
    exists pc. done.
Qed.

Lemma jsonpld_delivers_the_reply_witness :
  let json := render (JsonChunk 300 (replicate 400 "A"%char)) in
  ssi_insert 4 json (replicate 192 NUL) 192 0 = Some json.
Proof.
  apply (jsonpld_delivers_the_reply
           (render (JsonChunk 300 (replicate 400 "A"%char)))
           (replicate 192 NUL) 192 4);
    [unfold INT_MAX; lia | vm_compute; discriminate
    | vm_compute; lia | vm_compute; lia].
Defined.

(** ** The listing handlers *)

Lemma decode_folder_spec value :
  decode_folder value = (true, c_str (percent_decode (c_str (chars value)))).
Proof.
  unfold decode_folder.
  rewrite url_decode_in_place_strlen by (apply elem_of_app; right; left).
  cbv zeta.
  replace (chars value ++ [NUL]) with (chars value ++ NUL :: []) by done.
  by rewrite !c_str_app_nul.
Qed.

Lemma f_opendir_dir v path :
  lookup_node v (split_path path) = Some Dir →
  f_opendir v path = (FR_OK, Dirobj true (split_path path) 0).
Proof. unfold f_opendir. by intros ->. Qed.

Lemma f_opendir_not_dir v path :
  lookup_node v (split_path path) ≠ Some Dir → (f_opendir v path).1 ≠ FR_OK.
Proof.
  unfold f_opendir. intros H. by destruct (lookup_node _ _) as [[|]|].
Qed.

Lemma f_readdir_at v p k :
  f_readdir v (Dirobj true p k)
  = match dir_infos v p !! k with
    | Some fno => (FR_OK, fno, Dirobj true p (S k))
    | None => (FR_OK, no_info, Dirobj true p k)
    end.
Proof.
  unfold f_readdir, dir_infos. simpl. rewrite list_lookup_fmap.
  by destruct (children v p !! k) as [[kk n]|].
Qed.

Lemma dir_infos_name v p k fno :
  valid_volume v → dir_infos v p !! k = Some fno →
  is_nul (rd (chars (fname fno)) 0) = false.
Proof.
  intros Hv Hk. unfold dir_infos in Hk. rewrite list_lookup_fmap in Hk.
  destruct (children v p !! k) as [[kk n]|] eqn:Hc; [|done].
  simpl in Hk. injection Hk as <-.
  apply list_elem_of_lookup_2, children_elem in Hc as [He Hchild].
  apply is_child_spec in Hchild as [name ->].
  destruct (valid_volume_lookup v _ _ Hv He) as [_ Hnames].
  rewrite Forall_app, Forall_singleton in Hnames. destruct Hnames as [_ Hname].
  simpl. rewrite last_snoc. simpl. by apply valid_name_head.
Qed.

Lemma join_members_snoc items :
  items ≠ [] →
  concat ((λ o, o ++ [","%char]) <$> items) = join_members items ++ [","%char].
Proof.
  induction items as [|a [|b rest] IH]; intros Hne; [done| |].
  - simpl. by rewrite app_nil_r.
  - change (join_members (a :: b :: rest))
      with (a ++ ","%char :: join_members (b :: rest)).
    rewrite fmap_cons. cbn [concat]. rewrite IH by done.
    by rewrite <- !app_assoc.
Qed.

Lemma ends_with_comma_snoc json :
  ends_with_comma ("["%char :: json ++ [","%char]) = true.
Proof.
  unfold ends_with_comma. cbn [length]. rewrite length_app. simpl length.
  replace (1 <? S (length json + 1)) with true
    by (symmetry; apply Nat.ltb_lt; lia).
  replace (S (length json + 1) - 1) with (S (length json)) by lia.
  unfold rd. cbn [nth]. rewrite app_nth2 by lia.
  by rewrite Nat.sub_diag.
Qed.

Lemma close_array json :
  <[length ("["%char :: json ++ [","%char]) - 1 := "]"%char]>
    ("["%char :: json ++ [","%char])
  = "["%char :: json ++ ["]"%char].
Proof.
  cbn [length]. rewrite length_app. simpl length.
  replace (S (length json + 1) - 1) with (S (length json)) by lia.
  change (<[S (length json) := "]"%char]> ("["%char :: json ++ [","%char]))
    with ("["%char :: <[length json := "]"%char]> (json ++ [","%char])).
  rewrite insert_app_r_alt by lia. by rewrite Nat.sub_diag.
Qed.

Section Directory.

Variables (v : volume) (p : list string).
Hypothesis Hvalid : valid_volume v.

Let infos := dir_infos v p.

Lemma folder_loop_spec fuel : ∀ k json found,
  length infos - k < fuel →
  let dirs := filter (λ f, is_dir f = true) (drop k infos) in
  let items := concat ((λ f, folder_item (fname f)) <$> dirs) in
  length json + length items < MAX_JSON_PAYLOAD_SIZE →
  folder_loop fuel v (Dirobj true p k) json found
  = Some (json ++ items, found || bool_decide (dirs ≠ [])).
Proof.
  induction fuel as [|fuel IH]; intros k json found Hfuel dirs items Hfit;
    [lia|].
  cbn [folder_loop]. rewrite f_readdir_at. fold infos.
  destruct (infos !! k) as [fno|] eqn:Hk.
  - change (bool_decide (FR_OK ≠ FR_OK)) with false.
    rewrite (dir_infos_name v p k fno Hvalid Hk). cbn [orb].
    assert (Hlt : k < length infos) by (by eapply lookup_lt_Some).
    assert (Hdrop : drop k infos = fno :: drop (S k) infos)
      by (by apply drop_S).
    subst items dirs. rewrite Hdrop in *.
    rewrite filter_cons in *. fold (is_dir fno).
    destruct (decide (is_dir fno = true)) as [Hd|Hd].
    + rewrite Hd. rewrite fmap_cons in *. cbn [concat] in *.
      rewrite length_app in Hfit.
      unfold strcat.
      replace (_ <? MAX_JSON_PAYLOAD_SIZE) with true
        by (symmetry; apply Nat.ltb_lt; lia).
      cbn [mbind option_bind].
      rewrite IH by (rewrite ?length_app; lia).
      rewrite <- app_assoc. cbn [orb].
      rewrite (bool_decide_eq_true_2 (_ :: _ ≠ [])) by done.
      by rewrite orb_true_r.
    + apply not_true_is_false in Hd. rewrite Hd.
      by rewrite IH by lia.
  - change (rd (chars (fname no_info)) 0) with NUL.
    change (is_nul NUL) with true. rewrite orb_true_r.
    apply lookup_ge_None in Hk.
    subst items dirs. rewrite drop_ge by done. simpl.
    by rewrite app_nil_r, orb_false_r.
Qed.



End Directory.


(** X14.  [cgi_folder] lists exactly the sub-directories.  When the
    decoded [folder] value names a directory, the reply is the JSON array of
    the quoted names of its sub-directories, in the order [f_readdir]
    reports them, with files left out, provided no name is longer than 252
    characters and the array fits [json_buff]; when it names no directory
    the reply is the empty array. *)
Theorem cgi_folder_lists_subdirectories (v : volume) (ps : params)
    (value : string) (fuel : nat) :
  valid_volume v →
  first_param ps "folder" = Some (Some value) →
  let p := split_path (c_str (percent_decode (c_str (chars value)))) in
  let names := fname <$> filter (λ f, is_dir f = true) (dir_infos v p) in
  (lookup_node v p ≠ Some Dir → cgi_folder fuel v ps = Some (chars "[]")) ∧
  (lookup_node v p = Some Dir →
   Forall (λ n, length (chars n) ≤ 252) names →
   length (json_array (quoted ∘ chars <$> names)) < MAX_JSON_PAYLOAD_SIZE →
   length (dir_infos v p) < fuel →
   cgi_folder fuel v ps = Some (json_array (quoted ∘ chars <$> names))).
Proof.
  intros Hvalid Hfirst p names. unfold cgi_folder.
  rewrite Hfirst, decode_folder_spec. cbn [negb]. fold p. split.
  - intros Hno. pose proof (f_opendir_not_dir v _ Hno) as Hfr.
    destruct (f_opendir _ _) as [fr dir]. simpl in Hfr.
    by rewrite bool_decide_eq_true_2.
  - intros Hdir Hnames Hfit Hfuel.
    rewrite (f_opendir_dir v _ Hdir). fold p.
    change (bool_decide (FR_OK ≠ FR_OK)) with false. cbn iota.
    set (dirs := filter (λ f, is_dir f = true) (dir_infos v p)) in *.
    assert (Hitems : concat ((λ f, folder_item (fname f)) <$> dirs)
                     = concat ((λ o, o ++ [","%char])
                                 <$> (quoted ∘ chars <$> names))).
    { unfold names. rewrite <- !list_fmap_compose. f_equal.
      apply Forall_fmap_ext_1. unfold names in Hnames.
      rewrite Forall_fmap in Hnames.
      eapply Forall_impl; [exact Hnames|]. intros f Hf. simpl in Hf.
      unfold compose, folder_item, snprintf_tmp. apply take_ge.
      unfold quoted. repeat (rewrite ?length_app; cbn [length]). lia. }
    unfold json_array in *.
    assert (Hnil : dirs = [] → names = []) by (by intros ->).
    assert (Hcons : dirs ≠ [] → quoted ∘ chars <$> names ≠ []).
    { intros Hne E. apply fmap_nil_inv, fmap_nil_inv in E. done. }
    rewrite (folder_loop_spec v p Hvalid fuel 0 (chars "[") false).
    + rewrite drop_0. fold dirs. rewrite Hitems. clearbody names dirs.
      destruct (decide (dirs = [])) as [Hd|Hd].
      * rewrite (Hnil Hd). subst dirs. reflexivity.
      * specialize (Hcons Hd).
        rewrite bool_decide_eq_true_2 by done. cbn [orb].
        rewrite join_members_snoc by done.
        change (chars "[" ++ ?x) with ("["%char :: x).
        rewrite ends_with_comma_snoc. cbn [andb]. by rewrite close_array.
    + by rewrite Nat.sub_0_r.
    + rewrite drop_0. fold dirs. rewrite Hitems. clearbody names dirs.
      destruct (decide (dirs = [])) as [Hd|Hd].
      * rewrite (Hnil Hd). simpl. unfold MAX_JSON_PAYLOAD_SIZE. lia.
      * specialize (Hcons Hd). rewrite join_members_snoc by done.
        cbn [length] in *. rewrite !length_app in *. cbn [length] in *.
        change (length (chars "[")) with 1. lia.
Qed.

Lemma cgi_folder_lists_subdirectories_witness :
  cgi_folder 20 listing_volume [("folder", Some "%2Fd")]
  = Some (json_array [quoted (chars "sub")]).
Proof.
  destruct (cgi_folder_lists_subdirectories listing_volume
              [("folder", Some "%2Fd")] "%2Fd" 20) as [_ H].
  - apply (bool_decide_unpack _). vm_compute. exact I.
  - reflexivity.
  - apply H.
    + reflexivity.
    + vm_compute. repeat constructor.
    + vm_compute. lia.
    + vm_compute. lia.
Defined.



(** ** [parseUrl] on a composed URL *)

Lemma eqb_not_elem (x c : ascii) (l : list ascii) :
  c ∉ x :: l → Ascii.eqb x c = false ∧ c ∉ l.
Proof.
  intros H. split.
  - apply Ascii.eqb_neq. intros ->. apply H. left.
  - intros Hin. apply H. by right.
Qed.

Lemma strstr_separator a b :
  ":"%char ∉ a → strstr (a ++ chars "://" ++ b) (chars "://") = Some (length a).
Proof.
  induction a as [|x a IH]; intros Hno; [done|].
  apply eqb_not_elem in Hno as [Hx Hno].
  cbn [app strstr length]. cbn [chars list_ascii_of_string is_prefix].
  rewrite Ascii.eqb_sym, Hx. cbn [andb].
  change (":"%char :: "/"%char :: "/"%char :: []) with (chars "://").
  by rewrite IH.
Qed.

Lemma strchr_found a c b : c ∉ a → strchr (a ++ c :: b) c = Some (length a).
Proof.
  induction a as [|x a IH]; intros Hno.
  - simpl. by rewrite Ascii.eqb_refl.
  - apply eqb_not_elem in Hno as [Hx Hno]. simpl. by rewrite Hx, IH.
Qed.

Lemma strchr_none a c : c ∉ a → strchr a c = None.
Proof.
  induction a as [|x a IH]; intros Hno; [done|].
  apply eqb_not_elem in Hno as [Hx Hno]. simpl. by rewrite Hx, IH.
Qed.

(** X16.  [parseUrl] takes apart what URL composition puts together.  For
    the URL made of a protocol without a colon, the separator [://], a host
    without a slash and a path that is empty or starts with a slash, the
    call succeeds with exactly that protocol and host, and the path cut to
    the capacity of the [uri] member, whenever protocol and host are shorter
    than their arrays.  A protocol that does not fit is refused; so is a
    host that does not fit when a path follows it, whereas a host with no
    path after it is cut to the capacity of its array and accepted. *)
Theorem parseUrl_takes_composition_apart (sz : sizes)
    (proto host path : string)
    (c0 : download_url_components_t) (f0 : download_file_t) :
  ":"%char ∉ chars proto → "/"%char ∉ chars host →
  (path = "" ∨ head (chars path) = Some "/"%char) →
  let s := text (chars proto ++ chars "://" ++ chars host ++ chars path) in
  let r := parseUrl sz (Some s) c0 f0 in
  (length (chars proto) < protocol_size sz → length (chars host) < host_size sz →
   r.1 = (0%Z, Components proto host (strncpy_str path (uri_size sz - 1)))) ∧
  (protocol_size sz ≤ length (chars proto) → r.1.1 = (-1)%Z) ∧
  (length (chars proto) < protocol_size sz →
   host_size sz ≤ length (chars host) → path ≠ "" → r.1.1 = (-1)%Z) ∧
  (length (chars proto) < protocol_size sz → path = "" →
   r.1 = (0%Z, Components proto (strncpy_str host (host_size sz - 1)) "")).
Proof.
  intros Hproto Hhost Hpath s r. subst r. unfold parseUrl.
  assert (Hs : chars s
               = chars proto ++ chars "://" ++ chars host ++ chars path)
    by apply chars_text.
  rewrite Hs, strstr_separator by done.
  rewrite take_app_length, text_chars.
  assert (Hrest : drop (length (chars proto) + 3)
                    (chars proto ++ chars "://" ++ chars host ++ chars path)
                  = chars host ++ chars path).
  { rewrite (app_assoc (chars proto)). apply drop_app_length'.
    by rewrite length_app. }
  rewrite Hrest.
  assert (Hcase : (path = "" ∧
                   strchr (chars host ++ chars path) "/" = None) ∨
                  (path ≠ "" ∧
                   strchr (chars host ++ chars path) "/"
                   = Some (length (chars host)))).
  { destruct Hpath as [->|Hhead].
    - left. split; [done|]. simpl. rewrite app_nil_r. by apply strchr_none.
    - right. destruct (chars path) as [|c rest] eqn:Hc; [done|].
      injection Hhead as ->. split; [by intros ->|]. by apply strchr_found. }
  split_and!.
  - intros Hp Hh.
    replace (protocol_size sz <=? length (chars proto)) with false
      by (symmetry; apply Nat.leb_gt; lia).
    destruct Hcase as [[-> Hc]|[Hne Hc]]; rewrite Hc.
    + simpl. rewrite app_nil_r.
      rewrite strncpy_str_short by (rewrite chars_text; lia).
      rewrite text_chars. unfold strncpy_str.
      change (chars "") with (@nil ascii). by rewrite take_nil.
    + replace (host_size sz <=? length (chars host)) with false
        by (symmetry; apply Nat.leb_gt; lia).
      rewrite take_app_length, drop_app_length, !text_chars. done.
  - intros Hp.
    replace (protocol_size sz <=? length (chars proto)) with true
      by (symmetry; apply Nat.leb_le; lia). done.
  - intros Hp Hh Hne.
    replace (protocol_size sz <=? length (chars proto)) with false
      by (symmetry; apply Nat.leb_gt; lia).
    destruct Hcase as [[-> _]|[_ Hc]]; [done|]. rewrite Hc.
    replace (host_size sz <=? length (chars host)) with true
      by (symmetry; apply Nat.leb_le; lia). done.
  - intros Hp ->.
    replace (protocol_size sz <=? length (chars proto)) with false
      by (symmetry; apply Nat.leb_gt; lia).
    destruct Hcase as [[_ Hc]|[Hne _]]; [|done]. rewrite Hc.
    simpl. rewrite app_nil_r. by rewrite text_chars.
Qed.

Lemma parseUrl_takes_composition_apart_witness :
  let sz := Sizes 8 8 16 64 16 in
  (parseUrl sz (Some "https://host/a/b.zip") zero_components
     (DownloadFile "" "")).1
  = (0%Z, Components "https" "host" "/a/b.zip") ∧
  (parseUrl sz (Some "https://averylonghost") zero_components
     (DownloadFile "" "")).1
  = (0%Z, Components "https" "averylo" "").
Proof.
  intros sz. split.
  - destruct (parseUrl_takes_composition_apart sz "https" "host" "/a/b.zip"
                zero_components (DownloadFile "" "")) as (H & _);
      [apply (bool_decide_unpack _); vm_compute; exact I
      |apply (bool_decide_unpack _); vm_compute; exact I | by right |].
    apply H; simpl; lia.
  - destruct (parseUrl_takes_composition_apart sz "https" "averylonghost" ""
                zero_components (DownloadFile "" "")) as (_ & _ & _ & H);
      [apply (bool_decide_unpack _); vm_compute; exact I
      |apply (bool_decide_unpack _); vm_compute; exact I | by left |].
    apply H; [simpl; lia|done].
Defined.

(** ** Fetching a file from a URL *)

Lemma param_snoc (ps : params) kv name :
  param (ps ++ [kv]) name = if String.eqb kv.1 name then kv.2 else param ps name.
Proof. unfold param. by rewrite fold_left_app. Qed.

Lemma url_decode_into buf value size :
  0 < size → length buf = size →
  ∃ buf', url_decode (Some (chars value)) (Some buf) size = (true, Some buf') ∧
          length buf' = size ∧
          decode_param value size = Some (c_str buf').
Proof.
  intros Hpos Hlen.
  rewrite url_decode_spec by lia. cbv zeta.
  set (dd := take (size - 1) (percent_decode (c_str (chars value)))).
  assert (Hd : length dd ≤ size - 1) by (unfold dd; rewrite length_take; lia).
  eexists. split; [done|]. split.
  - rewrite length_app. cbn [length]. rewrite length_drop. lia.
  - rewrite decode_param_spec by done. fold dd. by rewrite c_str_app_nul.
Qed.

Section Fetching.

Variable sz : sizes.
Variable B : nat.
Hypothesis HB : 0 < B.

Lemma cgi_download_loop_app ps qs : ∀ bf bu hf hu,
  cgi_download_loop B (ps ++ qs) bf bu hf hu
  = match cgi_download_loop B ps bf bu hf hu with
    | inl page => inl page
    | inr (bf', bu', hf', hu') => cgi_download_loop B qs bf' bu' hf' hu'
    end.
Proof.
  induction ps as [|[name value] ps IH]; intros bf bu hf hu; [done|].
  cbn [app cgi_download_loop].
  destruct (String.eqb name "folder").
  - destruct (url_decode _ _ _) as [[|] [buf|]]; try done.
  - destruct (String.eqb name "url"); [|apply IH].
    destruct (url_decode _ _ _) as [[|] [buf|]]; try done.
Qed.

Lemma cgi_download_loop_spec ps : ∀ bf bu hf hu,
  Forall (λ kv : string * option string,
            kv.1 = "folder" ∨ kv.1 = "url" → is_Some kv.2) ps →
  length bf = 256 → length bu = B →
  ∃ bf' bu' hf' hu',
    cgi_download_loop B ps bf bu hf hu = inr (bf', bu', hf', hu') ∧
    length bf' = 256 ∧ length bu' = B ∧
    (∀ f, param ps "folder" = Some f →
          hf' = true ∧ decode_param f 256 = Some (c_str bf')) ∧
    (∀ u, param ps "url" = Some u →
          hu' = true ∧ decode_param u B = Some (c_str bu')).
Proof.
  induction ps as [|[name value] ps IH] using rev_ind;
    intros bf bu hf hu Hvals Hbf Hbu.
  - exists bf, bu, hf, hu. split_and!; done.
  - rewrite Forall_app in Hvals. destruct Hvals as [Hvals Hval].
    rewrite Forall_singleton in Hval. cbn [fst snd] in Hval.
    destruct (IH bf bu hf hu Hvals Hbf Hbu)
      as (bf1 & bu1 & hf1 & hu1 & Hrun & Hlf & Hlu & Hf & Hu).
    rewrite cgi_download_loop_app, Hrun. cbn [cgi_download_loop].
    setoid_rewrite param_snoc. cbn [fst snd].
    destruct (String.eqb name "folder") eqn:Ef.
    + apply String.eqb_eq in Ef. subst name.
      destruct (Hval (or_introl eq_refl)) as [val ->].
      cbn [fmap option_fmap option_map].
      destruct (url_decode_into bf1 val 256) as (bf2 & -> & Hl2 & Hdec);
        [lia|done|].
      exists bf2, bu1, true, hu1. split_and!; try done.
      intros f [= <-]. done.
    + destruct (String.eqb name "url") eqn:Eu.
      * apply String.eqb_eq in Eu. subst name.
        destruct (Hval (or_intror eq_refl)) as [val ->].
        cbn [fmap option_fmap option_map].
        destruct (url_decode_into bu1 val B) as (bu2 & -> & Hl2 & Hdec);
          [lia|done|].
        exists bf1, bu2, hf1, true. split_and!; try done.
        intros u [= <-]. done.
      * exists bf1, bu1, hf1, hu1. split_and!; done.
Qed.

End Fetching.

(** X17.  [cgi_download] records a request or changes nothing.  Unless
    the page returned is [/downloading.shtml], the statics of [download.c]
    are left as they were.  When every [folder] and [url] parameter has a
    value and both occur, the page is [/downloading.shtml], the status
    becomes requested, and the destination folder and the URL are the
    decoded values of the last [folder] and the last [url] parameter, cut to
    the capacity of their arrays. *)
Theorem cgi_download_records_the_request (B : nat) (d : fetch) (ps : params) :
  0 < B →
  ((cgi_download B d ps).1 ≠ "/downloading.shtml" →
   (cgi_download B d ps).2 = d) ∧
  (∀ f u,
     Forall (λ kv : string * option string,
               kv.1 = "folder" ∨ kv.1 = "url" → is_Some kv.2) ps →
     param ps "folder" = Some f → param ps "url" = Some u →
     ∃ df du,
       decode_param f 256 = Some df ∧ decode_param u B = Some du ∧
       cgi_download B d ps
       = ("/downloading.shtml",
          Fetch (fvol d) (dl_file d) DOWNLOAD_STATUS_REQUESTED
                (request_complete d) (dl_components d) (fileUrl d)
                (strncpy_str (text du) (B - 1))
                (strncpy_str (text df) (B - 1)))).
Proof.
  intros HB. split.
  - unfold cgi_download.
    destruct (cgi_download_loop _ _ _ _ _ _) as [page|[[[bf bu] hf] hu]];
      [done|].
    by destruct (negb hf || negb hu).
  - intros f u Hvals Hf Hu. unfold cgi_download.
    destruct (cgi_download_loop_spec B HB ps (replicate 256 NUL)
                (replicate B NUL) false false Hvals)
      as (bf & bu & hf & hu & -> & _ & _ & Hfolder & Hurl);
      [by rewrite length_replicate..|].
    destruct (Hfolder f Hf) as [-> Hdf]. destruct (Hurl u Hu) as [-> Hdu].
    exists (c_str bf), (c_str bu). done.
Qed.

Lemma cgi_download_records_the_request_witness :
  cgi_download 64
    (Fetch sample_volume closed_fil DOWNLOAD_STATUS_IDLE false zero_components
           (DownloadFile "" "") "" "")
    [("folder", Some "%2Fdocs"); ("url", Some "http%3A%2F%2Fh%2Fa.bin")]
  = ("/downloading.shtml",
     Fetch sample_volume closed_fil DOWNLOAD_STATUS_REQUESTED false
           zero_components (DownloadFile "" "") "http://h/a.bin" "/docs").
Proof.
  destruct (cgi_download_records_the_request 64
              (Fetch sample_volume closed_fil DOWNLOAD_STATUS_IDLE false
                     zero_components (DownloadFile "" "") "" "")
              [("folder", Some "%2Fdocs"); ("url", Some "http%3A%2F%2Fh%2Fa.bin")])
    as [_ H]; [lia|].
  destruct (H "%2Fdocs" "http%3A%2F%2Fh%2Fa.bin") as (df & du & Hdf & Hdu & ->);
    [repeat constructor; eauto | reflexivity | reflexivity |].
  vm_compute in Hdf, Hdu. injection Hdf as <-. injection Hdu as <-.
  reflexivity.
Defined.

Lemma f_open_fail v path mode :
  (f_open v path mode).1.1 ≠ FR_OK → (f_open v path mode).2 = v.
Proof.
  unfold f_open. destruct (split_path path); [done|].
  destruct (entries v !! _) as [[data|]|]; [| done |].
  - by destruct (has_flag mode FA_CREATE_ALWAYS).
  - destruct (lookup_node _ _) as [[|]|]; try done.
    by destruct (has_flag mode FA_CREATE_ALWAYS).
Qed.

Lemma f_open_created v path fil v' :
  f_open v path (Z.lor FA_WRITE FA_CREATE_ALWAYS) = (FR_OK, fil, v') →
  fil = Fil true (split_path path) (Z.lor FA_WRITE FA_CREATE_ALWAYS) 0 ∧
  entries v' !! split_path path = Some (File []) ∧
  free_bytes v ≤ free_bytes v'.
Proof.
  unfold f_open.
  change (has_flag (Z.lor FA_WRITE FA_CREATE_ALWAYS) FA_CREATE_ALWAYS) with true.
  destruct (split_path path) as [|a p] eqn:Ep; [done|].
  destruct (entries v !! _) as [[data|]|]; [| done |].
  - intros H. injection H as <- <-. simpl. rewrite lookup_insert_eq.
    split_and!; [done|done|lia].
  - destruct (lookup_node _ _) as [[|]|]; try done.
    intros H. injection H as <- <-. simpl. by rewrite lookup_insert_eq.
Qed.

Section Fetching2.

Variable sz : sizes.
Variable B : nat.

(** A start that fails before the request is made leaves everything that
    decides its outcome as it was. *)
Lemma download_start_fails_again r d e :
  e = DOWNLOAD_CANNOTPARSEURL_ERROR ∨ e = DOWNLOAD_CANNOTOPENFILE_ERROR →
  (download_start sz B r d).1 = e →
  let d' := (download_start sz B r d).2 in
  downloadStatus d' = downloadStatus d ∧ fvol d' = fvol d ∧
  ∀ r', (download_start sz B r' d').1 = e.
Proof.
  intros He. unfold download_start.
  assert (Hindep : ∀ c f c' f',
            parseUrl sz (Some (dl_url d)) c f
            = parseUrl sz (Some (dl_url d)) c' f') by done.
  destruct (parseUrl sz (Some (dl_url d)) (dl_components d) (fileUrl d))
    as [[rc comps] furl] eqn:Hparse.
  case_bool_decide as Hrc.
  - cbn [fst]. intros <-.
    cbn [snd fst downloadStatus fvol dl_url dl_components fileUrl].
    split_and!; try done. intros r'.
    rewrite (Hindep comps furl (dl_components d) (fileUrl d)), Hparse.
    by rewrite (bool_decide_eq_true_2 _ Hrc).
  - pose proof (f_open_fail (fvol d)
      (take (B - 1) (chars (dst_folder d) ++ "/"%char :: chars (filename furl)))
      (Z.lor FA_WRITE FA_CREATE_ALWAYS)) as Hfail.
    destruct (f_open _ _ _) as [[res f1] v1] eqn:Hopen. cbn [fst snd] in Hfail.
    case_bool_decide as Hres.
    + specialize (Hfail Hres). subst v1. cbn [fst]. intros <-.
      cbn [snd fst downloadStatus fvol dl_url dl_components fileUrl dst_folder].
      split_and!; try done. intros r'.
      rewrite (Hindep comps furl (dl_components d) (fileUrl d)), Hparse.
      subst rc. change (bool_decide (0%Z ≠ 0%Z)) with false. cbn iota.
      rewrite Hopen. by rewrite (bool_decide_eq_true_2 _ Hres).
    + case_bool_decide; cbn [fst]; intros <-;
        destruct He as [He|He]; discriminate He.
Qed.

Lemma unstartable_step e timer d p :
  e = DOWNLOAD_CANNOTPARSEURL_ERROR ∨ e = DOWNLOAD_CANNOTOPENFILE_ERROR →
  downloadStatus d = DOWNLOAD_STATUS_NOT_STARTED →
  (∀ r, (download_start sz B r d).1 = e) →
  let st' := download_switch sz B (timer, d) p in
  downloadStatus st'.2 = DOWNLOAD_STATUS_NOT_STARTED ∧
  fvol st'.2 = fvol d ∧
  ∀ r, (download_start sz B r st'.2).1 = e.
Proof.
  intros He Hst Hfail. unfold download_switch. rewrite Hst.
  destruct (_ <? _)%Z; [|done]. cbn [snd].
  destruct (download_start_fails_again (http_result p) d e He (Hfail _))
    as (Hs & Hv & Hagain).
  split_and!; [congruence|done|done].
Qed.

Lemma unstartable_stays e passes : ∀ st,
  e = DOWNLOAD_CANNOTPARSEURL_ERROR ∨ e = DOWNLOAD_CANNOTOPENFILE_ERROR →
  downloadStatus st.2 = DOWNLOAD_STATUS_NOT_STARTED →
  (∀ r, (download_start sz B r st.2).1 = e) →
  downloadStatus (main_loop sz B st passes).2 = DOWNLOAD_STATUS_NOT_STARTED ∧
  fvol (main_loop sz B st passes).2 = fvol st.2.
Proof.
  induction passes as [|p passes IH]; intros [timer d] He Hst Hfail; [done|].
  cbn [main_loop fold_left].
  destruct (unstartable_step e timer d p He Hst Hfail) as (H1 & H2 & H3).
  destruct (IH (download_switch sz B (timer, d) p) He H1 H3) as [H4 H5].
  unfold main_loop in *. split; [done|]. by rewrite H5.
Qed.

End Fetching2.

(** X18.  A download that cannot start is retried for ever and never
    reported as failed.  When [download_start] fails because the URL does
    not parse or the destination file cannot be opened, the status stays
    "not started" and the volume is untouched, so every later pass of the
    main loop finds the same state and starts again, however many passes
    follow; the status never becomes "failed". *)
Theorem unstartable_download_is_never_reported (sz : sizes) (B : nat)
    (d : fetch) (r0 : Z) (timer : Z) (passes : list pass) :
  downloadStatus d = DOWNLOAD_STATUS_NOT_STARTED →
  (download_start sz B r0 d).1 = DOWNLOAD_CANNOTPARSEURL_ERROR ∨
  (download_start sz B r0 d).1 = DOWNLOAD_CANNOTOPENFILE_ERROR →
  downloadStatus (main_loop sz B (timer, d) passes).2
  = DOWNLOAD_STATUS_NOT_STARTED ∧
  fvol (main_loop sz B (timer, d) passes).2 = fvol d.
Proof.
  intros Hst He.
  apply (unstartable_stays sz B (download_start sz B r0 d).1 passes (timer, d));
    try done.
  intros r. revert He. unfold download_start.
  destruct (parseUrl _ _ _ _) as [[rc comps] furl].
  case_bool_decide; [done|].
  destruct (f_open _ _ _) as [[res f1] v1].
  case_bool_decide; [done|].
  case_bool_decide; cbn [fst]; intros [He|He]; discriminate He.
Qed.

Lemma unstartable_download_is_never_reported_witness :
  let d :=
    Fetch sample_volume closed_fil DOWNLOAD_STATUS_NOT_STARTED false
          zero_components (DownloadFile "" "") "no-separator" "/docs" in
  downloadStatus
    (main_loop (Sizes 8 32 64 64 32) 64 (0%Z, d)
       [Pass 1 0 []; Pass 2 0 [Result 0]; Pass 3 0 []]).2
  = DOWNLOAD_STATUS_NOT_STARTED.
Proof.
  intros d.
  apply (unstartable_download_is_never_reported (Sizes 8 32 64 64 32) 64 d 0
           0 [Pass 1 0 []; Pass 2 0 [Result 0]; Pass 3 0 []]);
    [reflexivity|left; reflexivity].
Defined.

Lemma callback_keeps_file_open d e :
  fil_valid (dl_file d) = true → fil_valid (dl_file (callback d e)) = true.
Proof.
  intros Hv. destruct e as [|[buffc|] err|err]; simpl; try done.
  - unfold httpClientReceiveFileFn. case_bool_decide; [done|].
    pose proof (f_write_keeps_open (fvol d) (dl_file d) buffc Hv) as [Hw _].
    destruct (f_write _ _ _) as [[[res n] f1] v1]. simpl in Hw.
    by destruct (_ || _).
  - unfold httpClientResultCompleteFn. by case_bool_decide.
Qed.

Lemma callbacks_keep_file_open es : ∀ d,
  fil_valid (dl_file d) = true →
  fil_valid (dl_file (fold_left callback es d)) = true.
Proof.
  induction es as [|e es IH]; intros d Hv; [done|].
  simpl. by apply IH, callback_keeps_file_open.
Qed.

(** X19.  What the HTTP client reports while [download_poll] runs does not
    reach the main loop.  When the result callback is called during a poll,
    whatever error code it carries and whatever the callbacks before it did,
    [download_poll] overwrites the status with "in progress"; the next pass
    finds the request complete, and the pass after it closes the file and
    sets the status to idle, exactly as after a successful download. *)
Theorem result_reported_inside_a_poll_is_lost (sz : sizes) (B : nat)
    (d : fetch) (timer : Z) (p1 p2 p3 : pass) (es : list http_event)
    (err : Z) :
  downloadStatus d = DOWNLOAD_STATUS_STARTED ∨
  downloadStatus d = DOWNLOAD_STATUS_IN_PROGRESS →
  request_complete d = false →
  fil_valid (dl_file d) = true →
  events p1 = es ++ [Result err] →
  let final := (main_loop sz B (timer, d) [p1; p2; p3]).2 in
  downloadStatus (main_loop sz B (timer, d) [p1]).2 = DOWNLOAD_STATUS_IN_PROGRESS ∧
  downloadStatus final = DOWNLOAD_STATUS_IDLE ∧
  fil_valid (dl_file final) = false.
Proof.
  intros Hst Hc Hv He final.
  set (d1 := fold_left callback (events p1) d).
  assert (Hd1 : fil_valid (dl_file d1) = true ∧ request_complete d1 = true).
  { split; [by apply callbacks_keep_file_open|].
    unfold d1. rewrite He, fold_left_app. simpl.
    unfold httpClientResultCompleteFn. by case_bool_decide. }
  destruct Hd1 as [Hv1 Hc1].
  assert (H1 : download_switch sz B (timer, d) p1
               = (timer, set_status d1 DOWNLOAD_STATUS_IN_PROGRESS)).
  { unfold download_switch, download_poll. rewrite Hc.
    by destruct Hst as [-> | ->]. }
  set (dA := set_status d1 DOWNLOAD_STATUS_IN_PROGRESS) in *.
  assert (H2 : download_switch sz B (timer, dA) p2
               = (timer, set_status dA DOWNLOAD_STATUS_COMPLETED)).
  { unfold download_switch, download_poll, dA.
    cbn [downloadStatus set_status request_complete]. by rewrite Hc1. }
  set (dB := set_status dA DOWNLOAD_STATUS_COMPLETED) in *.
  assert (H3 : ∃ dC, download_switch sz B (timer, dB) p3 = (timer, dC) ∧
                     downloadStatus dC = DOWNLOAD_STATUS_IDLE ∧
                     fil_valid (dl_file dC) = false).
  { unfold download_switch, download_finish, f_close, dB, dA.
    cbn [downloadStatus set_status dl_file]. rewrite Hv1.
    change (bool_decide (FR_OK ≠ FR_OK)) with false. cbn iota.
    change (bool_decide (DOWNLOAD_STATUS_COMPLETED ≠ DOWNLOAD_STATUS_COMPLETED))
      with false. cbn iota.
    change (bool_decide (DOWNLOAD_OK ≠ DOWNLOAD_OK)) with false. cbn iota.
    eexists. split; [reflexivity|]. split; reflexivity. }
  destruct H3 as (dC & H3 & Hs & Hf).
  subst final. cbn [main_loop fold_left]. rewrite H1, H2, H3. done.
Qed.

Lemma result_reported_inside_a_poll_is_lost_witness :
  let d :=
    Fetch sample_volume (Fil true ["docs"; "note.txt"] FA_WRITE 0)
          DOWNLOAD_STATUS_STARTED false zero_components (DownloadFile "" "")
          "" "" in
  downloadStatus
    (main_loop (Sizes 8 32 64 64 32) 64 (0%Z, d)
       [Pass 1 0 [Headers; Body (Some (replicate 100 "x"%char)) 0; Result (-13)];
        Pass 2 0 []; Pass 3 0 []]).2
  = DOWNLOAD_STATUS_IDLE.
Proof.
  intros d.
  destruct (result_reported_inside_a_poll_is_lost (Sizes 8 32 64 64 32) 64 d 0
              (Pass 1 0 [Headers; Body (Some (replicate 100 "x"%char)) 0;
                         Result (-13)])
              (Pass 2 0 []) (Pass 3 0 [])
              [Headers; Body (Some (replicate 100 "x"%char)) 0] (-13))
    as (_ & H & _); [by left|reflexivity|reflexivity|reflexivity|].
  exact H.
Defined.

Lemma body_events_spec p mode pieces : ∀ d data,
  has_flag mode FA_WRITE = true →
  dl_file d = Fil true p mode (length data) →
  entries (fvol d) !! p = Some (File data) →
  length (concat pieces) ≤ free_bytes (fvol d) →
  let d' := fold_left callback (body_events pieces) d in
  dl_file d' = Fil true p mode (length data + length (concat pieces)) ∧
  entries (fvol d') !! p = Some (File (data ++ concat pieces)) ∧
  free_bytes (fvol d') = free_bytes (fvol d) - length (concat pieces) ∧
  request_complete d' = request_complete d.
Proof.
  induction pieces as [|piece pieces IH]; intros d data Hmode Hf He Hroom.
  - simpl. rewrite Nat.add_0_r, app_nil_r, Nat.sub_0_r. done.
  - cbn [concat] in *. rewrite length_app in Hroom.
    assert (Hd : file_data (fvol d) (dl_file d) = Some data).
    { apply file_data_Some. by rewrite Hf. }
    pose proof (f_write_in_range (fvol d) (dl_file d) piece data Hd) as Hw.
    rewrite Hf in Hw. cbn [fil_flag fptr fil_path] in Hw.
    specialize (Hw Hmode (Nat.le_refl _)). cbv zeta in Hw.
    rewrite Nat.sub_diag, Nat.add_0_l in Hw.
    rewrite (Nat.min_l (length piece)) in Hw by lia.
    rewrite take_ge, firstn_all, drop_ge, app_nil_r in Hw by lia.
    rewrite <- Hf in Hw at 1.
    set (d1 :=
      Fetch (Volume (<[p := File (data ++ piece)]> (entries (fvol d)))
                    (free_bytes (fvol d)
                     - (length data + length piece - length data)))
            (Fil true p mode (length data + length piece))
            DOWNLOAD_STATUS_IN_PROGRESS (request_complete d) (dl_components d)
            (fileUrl d) (dl_url d) (dst_folder d)).
    assert (Hstep : callback d (Body (Some piece) ERR_OK) = d1).
    { unfold callback, httpClientReceiveFileFn.
      change (bool_decide (ERR_OK ≠ ERR_OK)) with false. cbn iota.
      rewrite Hw. change (bool_decide (FR_OK ≠ FR_OK)) with false.
      by rewrite Nat.eqb_refl. }
    change (fold_left callback (body_events (piece :: pieces)) d)
      with (fold_left callback (body_events pieces)
              (callback d (Body (Some piece) ERR_OK))).
    rewrite Hstep.
    destruct (IH d1 (data ++ piece) Hmode) as (H1 & H2 & H3 & H4).
    + unfold d1. simpl. by rewrite length_app.
    + unfold d1. simpl. by rewrite lookup_insert_eq.
    + unfold d1. simpl. lia.
    + rewrite H1, H2, H3, H4.
      rewrite !length_app, <- !app_assoc. unfold d1. simpl.
      split_and!; try done; [f_equal; lia|lia].
Qed.

Section Fetching3.

Variable sz : sizes.
Variable B : nat.

(** Once the request is complete, two passes close the file and bring the
    status to idle. *)
Lemma complete_then_idle timer d p2 p3 :
  downloadStatus d = DOWNLOAD_STATUS_IN_PROGRESS →
  request_complete d = true → fil_valid (dl_file d) = true →
  ∃ d', main_loop sz B (timer, d) [p2; p3] = (timer, d') ∧
        downloadStatus d' = DOWNLOAD_STATUS_IDLE ∧
        fil_valid (dl_file d') = false ∧ fvol d' = fvol d.
Proof.
  intros Hs Hc Hv.
  assert (H2 : download_switch sz B (timer, d) p2
               = (timer, set_status d DOWNLOAD_STATUS_COMPLETED)).
  { unfold download_switch, download_poll. by rewrite Hs, Hc. }
  set (dB := set_status d DOWNLOAD_STATUS_COMPLETED) in *.
  assert (H3 : ∃ dC, download_switch sz B (timer, dB) p3 = (timer, dC) ∧
                     downloadStatus dC = DOWNLOAD_STATUS_IDLE ∧
                     fil_valid (dl_file dC) = false ∧ fvol dC = fvol d).
  { unfold download_switch, download_finish, f_close, dB.
    cbn [downloadStatus set_status dl_file]. rewrite Hv.
    change (bool_decide (FR_OK ≠ FR_OK)) with false. cbn iota.
    change (bool_decide (DOWNLOAD_STATUS_COMPLETED ≠ DOWNLOAD_STATUS_COMPLETED))
      with false. cbn iota.
    change (bool_decide (DOWNLOAD_OK ≠ DOWNLOAD_OK)) with false. cbn iota.
    eexists. split; [reflexivity|]. split_and!; reflexivity. }
  destruct H3 as (dC & H3 & Hs' & Hf & Hvol).
  exists dC. cbn [main_loop fold_left]. by rewrite H2, H3.
Qed.

(** A transfer under way: the file object stands at the end of [data],
    which is what the file at [p] holds, and the request is not complete. *)
Lemma poll_pass_spec timer d p path mode data pieces :
  downloadStatus d = DOWNLOAD_STATUS_STARTED ∨
  downloadStatus d = DOWNLOAD_STATUS_IN_PROGRESS →
  request_complete d = false →
  has_flag mode FA_WRITE = true →
  dl_file d = Fil true path mode (length data) →
  entries (fvol d) !! path = Some (File data) →
  length (concat pieces) ≤ free_bytes (fvol d) →
  events p = Headers :: body_events pieces ∨ events p = body_events pieces →
  ∃ d', download_switch sz B (timer, d) p = (timer, d') ∧
        downloadStatus d' = DOWNLOAD_STATUS_IN_PROGRESS ∧
        request_complete d' = false ∧
        dl_file d' = Fil true path mode (length (data ++ concat pieces)) ∧
        entries (fvol d') !! path = Some (File (data ++ concat pieces)) ∧
        free_bytes (fvol d') = free_bytes (fvol d) - length (concat pieces).
Proof.
  intros Hs Hc Hmode Hf He Hroom Hev.
  assert (Hrun : ∃ d0, fold_left callback (events p) d
                       = fold_left callback (body_events pieces) d0 ∧
                       request_complete d0 = false ∧ dl_file d0 = dl_file d ∧
                       fvol d0 = fvol d).
  { destruct Hev as [-> | ->]; [|by exists d].
    exists (callback d Headers). split; [done|]. by destruct d. }
  destruct Hrun as (d0 & Hrun & Hc0 & Hf0 & Hv0).
  destruct (body_events_spec path mode pieces d0 data Hmode)
    as (H1 & H2 & H3 & H4); [congruence|congruence|congruence|].
  exists (set_status (fold_left callback (events p) d)
            DOWNLOAD_STATUS_IN_PROGRESS).
  split.
  - unfold download_switch, download_poll. rewrite Hc.
    by destruct Hs as [-> | ->].
  - rewrite Hrun. cbn [downloadStatus set_status request_complete dl_file fvol].
    rewrite H1, H2, H3, H4, length_app. split_and!; congruence.
Qed.

Lemma poll_passes_spec timer path mode polls pieces :
  Forall2 (λ p ds, events p = Headers :: body_events ds ∨
                   events p = body_events ds) polls pieces →
  ∀ d data,
  downloadStatus d = DOWNLOAD_STATUS_STARTED ∨
  downloadStatus d = DOWNLOAD_STATUS_IN_PROGRESS →
  request_complete d = false →
  has_flag mode FA_WRITE = true →
  dl_file d = Fil true path mode (length data) →
  entries (fvol d) !! path = Some (File data) →
  length (concat (concat pieces)) ≤ free_bytes (fvol d) →
  ∃ d', main_loop sz B (timer, d) polls = (timer, d') ∧
        (downloadStatus d' = DOWNLOAD_STATUS_STARTED ∨
         downloadStatus d' = DOWNLOAD_STATUS_IN_PROGRESS) ∧
        request_complete d' = false ∧
        fil_valid (dl_file d') = true ∧
        entries (fvol d') !! path
        = Some (File (data ++ concat (concat pieces))).
Proof.
  induction 1 as [|p ds polls pieces Hp _ IH]; intros d data Hs Hc Hmode Hf He Hroom.
  - exists d. simpl. rewrite app_nil_r, Hf. done.
  - cbn [concat] in Hroom. rewrite concat_app, length_app in Hroom.
    destruct (poll_pass_spec timer d p path mode data ds Hs Hc Hmode Hf He)
      as (d1 & Hstep & Hs1 & Hc1 & Hf1 & He1 & Hfree); [lia|done|].
    destruct (IH d1 (data ++ concat ds)) as (d' & Hrun & Hs' & Hc' & Hv' & He');
      try done; [by right|lia|].
    exists d'. cbn [main_loop fold_left concat]. rewrite Hstep.
    split; [exact Hrun|]. rewrite concat_app, app_assoc. done.
Qed.

End Fetching3.

(** X20.  A fetched file holds the body that was received.  From a
    recorded request whose URL parses and whose destination file can be
    created, the main loop waits until more than three seconds have passed,
    starts the request, and then, poll after poll, appends every piece of
    the body that lwIP delivers to the file, as long as the volume has room;
    once the end of the body and a successful result have been reported, two
    more passes close the file and return the status to idle.  The file
    then holds exactly the pieces in the order of their arrival. *)
Theorem fetched_file_holds_the_body (sz : sizes) (B : nat) (d : fetch)
    (timer : Z) (p0 p1 pc1 pc2 pc3 : pass) (polls : list pass)
    (pieces : list (list (list ascii)))
    (comps : download_url_components_t) (furl : download_file_t)
    (fil : FIL) (v1 : volume) :
  downloadStatus d = DOWNLOAD_STATUS_REQUESTED →
  parseUrl sz (Some (dl_url d)) (dl_components d) (fileUrl d)
  = (0%Z, comps, furl) →
  let name :=
    take (B - 1) (chars (dst_folder d) ++ "/"%char :: chars (filename furl)) in
  f_open (fvol d) name (Z.lor FA_WRITE FA_CREATE_ALWAYS) = (FR_OK, fil, v1) →
  (now p0 + 3 * 1000 * 1000 < now p1)%Z → http_result p1 = 0%Z →
  Forall2 (λ p ds, events p = Headers :: body_events ds ∨
                   events p = body_events ds) polls pieces →
  length (concat (concat pieces)) ≤ free_bytes v1 →
  events pc1 = [Body None ERR_OK; Result ERR_OK] →
  let final :=
    (main_loop sz B (timer, d) ([p0; p1] ++ polls ++ [pc1; pc2; pc3])).2 in
  downloadStatus final = DOWNLOAD_STATUS_IDLE ∧
  fil_valid (dl_file final) = false ∧
  entries (fvol final) !! split_path name
  = Some (File (concat (concat pieces))).
Proof.
  intros Hs Hparse name Hopen Htime Hhttp Hpolls Hroom Hend final.
  destruct (f_open_created _ _ _ _ Hopen) as (-> & Hentry & _).
  set (d2 := Fetch v1 (Fil true (split_path name)
                           (Z.lor FA_WRITE FA_CREATE_ALWAYS) 0)
                   DOWNLOAD_STATUS_STARTED false comps furl (dl_url d)
                   (dst_folder d)).
  assert (H01 : main_loop sz B (timer, d) [p0; p1]
                = ((now p0 + 3 * 1000 * 1000)%Z, d2)).
  { cbn [main_loop fold_left]. unfold download_switch at 2. rewrite Hs.
    unfold download_switch, download_setStatus.
    cbn [downloadStatus set_status].
    replace (now p0 + 3 * 1000 * 1000 - now p1 <? 0)%Z with true
      by (symmetry; apply Z.ltb_lt; lia).
    unfold download_start.
    cbn [dl_url set_status dl_components fileUrl dst_folder fvol].
    rewrite Hparse. change (bool_decide (0%Z ≠ 0%Z)) with false. cbn iota.
    fold name. rewrite Hopen.
    change (bool_decide (FR_OK ≠ FR_OK)) with false. cbn iota.
    rewrite Hhttp. change (bool_decide (0%Z ≠ 0%Z)) with false. done. }
  destruct (poll_passes_spec sz B (now p0 + 3 * 1000 * 1000)%Z (split_path name)
              (Z.lor FA_WRITE FA_CREATE_ALWAYS) polls pieces Hpolls d2 [])
    as (d3 & Hrun & Hs3 & Hc3 & Hv3 & He3); try done; [by left|].
  set (d4 := set_status (fold_left callback (events pc1) d3)
               DOWNLOAD_STATUS_IN_PROGRESS).
  assert (H4 : download_switch sz B ((now p0 + 3 * 1000 * 1000)%Z, d3) pc1
               = ((now p0 + 3 * 1000 * 1000)%Z, d4)).
  { unfold download_switch, download_poll. rewrite Hc3.
    by destruct Hs3 as [-> | ->]. }
  assert (Hd4 : request_complete d4 = true ∧ dl_file d4 = dl_file d3 ∧
                fvol d4 = fvol d3).
  { unfold d4. rewrite Hend. simpl.
    unfold httpClientResultCompleteFn.
    change (bool_decide (ERR_OK = ERR_OK)) with true. done. }
  destruct Hd4 as (Hc4 & Hf4 & Hvol4).
  destruct (complete_then_idle sz B (now p0 + 3 * 1000 * 1000)%Z d4 pc2 pc3)
    as (d5 & Hfin & Hs5 & Hf5 & Hvol5); [done|done|congruence|].
  subst final. unfold main_loop in *.
  rewrite !fold_left_app, H01, Hrun.
  cbn [fold_left]. rewrite H4.
  cbn [fold_left] in Hfin. rewrite Hfin. cbn [snd].
  split_and!; [done|done|]. by rewrite Hvol5, Hvol4.
Qed.

Lemma fetched_file_holds_the_body_witness :
  let d :=
    Fetch sample_volume closed_fil DOWNLOAD_STATUS_REQUESTED false
          zero_components (DownloadFile "" "") "http://h/dir/a.bin" "/docs" in
  let final :=
    (main_loop (Sizes 8 32 64 64 32) 64 (0%Z, d)
       ([Pass 10 0 []; Pass 3000011 0 []]
        ++ [Pass 0 0 (Headers :: body_events [chars "hel"; chars "lo "]);
            Pass 0 0 (body_events [chars "world"])]
        ++ [Pass 0 0 [Body None ERR_OK; Result ERR_OK];
            Pass 0 0 []; Pass 0 0 []])).2 in
  downloadStatus final = DOWNLOAD_STATUS_IDLE ∧
  entries (fvol final) !! ["docs"; "a.bin"] = Some (File (chars "hello world")).
Proof.
  intros d final.
  destruct (fetched_file_holds_the_body (Sizes 8 32 64 64 32) 64 d 0
              (Pass 10 0 []) (Pass 3000011 0 [])
              (Pass 0 0 [Body None ERR_OK; Result ERR_OK])
              (Pass 0 0 []) (Pass 0 0 [])
              [Pass 0 0 (Headers :: body_events [chars "hel"; chars "lo "]);
               Pass 0 0 (body_events [chars "world"])]
              [[chars "hel"; chars "lo "]; [chars "world"]]
              (Components "http" "h" "/dir/a.bin")
              (DownloadFile "http://h/dir/a.bin" "a.bin")
              (Fil true ["docs"; "a.bin"] (Z.lor FA_WRITE FA_CREATE_ALWAYS) 0)
              (set_entry sample_volume ["docs"; "a.bin"] (File [])))
    as (H1 & _ & H3).
  - reflexivity.
  - vm_compute. reflexivity.
  - vm_compute. reflexivity.
  - simpl. lia.
  - reflexivity.
  - constructor; [by left|]. constructor; [by right|]. constructor.
  - vm_compute. lia.
  - reflexivity.
  - split; [exact H1|exact H3].
Defined.

(** ** The command mailbox *)

Section Mailbox.

Variable MAX : nat.
Variable get_token : list ascii → Z.

Lemma mngr_step_spec m e :
  let m' := mngr_step MAX get_token m e in
  length (payload (lastProtocol m')) = length (payload (lastProtocol m)) ∧
  match e with
  | Command protocol =>
    startBooster m' = startBooster m ∧ mailbox m' = Some (command_id protocol)
  | Loop _ =>
    mailbox m' = None ∧
    startBooster m'
    = startBooster m
      || match mailbox m with
         | Some c => (c =? APP_BOOSTER_START)%Z
         | None => false
         end
  end.
Proof.
  destruct e as [protocol|rnd]; cbn [mngr_step].
  - unfold handle_protocol_command, memcpy, mailbox.
    cbn [lastProtocol payload startBooster lastProtocolValid command_id].
    split; [|done].
    rewrite length_app, !length_take, length_drop. lia.
  - unfold mngr_loop, mailbox. destruct (lastProtocolValid m).
    + destruct (_ =? _)%Z; destruct (negb _); simpl;
        rewrite ?orb_true_r, ?orb_false_r; done.
    + simpl. by rewrite orb_false_r.
Qed.

Lemma mngr_run_spec es : ∀ m,
  let m' := mngr_run MAX get_token m es in
  startBooster m'
  = startBooster m
    || existsb (λ c, (c =? APP_BOOSTER_START)%Z) (consumed es (mailbox m)) ∧
  length (payload (lastProtocol m')) = length (payload (lastProtocol m)).
Proof.
  induction es as [|e es IH]; intros m m'.
  - simpl. by rewrite orb_false_r.
  - subst m'. cbn [mngr_run fold_left].
    destruct (IH (mngr_step MAX get_token m e)) as (Hb & Hl).
    unfold mngr_run in *. rewrite Hb, Hl. clear Hb Hl.
    destruct (mngr_step_spec m e) as [Hlen Hstep]. split; [|done].
    destruct e as [protocol|rnd]; cbn [consumed].
    + destruct Hstep as [-> ->]. done.
    + destruct Hstep as [-> ->].
      destruct (mailbox m) as [c|]; cbn [existsb].
      * by rewrite orb_assoc.
      * by rewrite orb_false_r.
Qed.

End Mailbox.

(** X21.  The mailbox holds one command and each command is dispatched at
    most once.  Over any sequence of deliveries by the interrupt handler and
    passes of [mngr_loop], the booster flag is set exactly when it was set
    before or [APP_BOOSTER_START] is among the commands that were the last
    delivered before a pass; a command followed by another delivery before
    the next pass is overwritten and never dispatched.  The flag is never
    cleared, a delivery never changes the size of the payload array of the
    mailbox, and after a pass the mailbox is empty. *)
Theorem mailbox_dispatches_the_last_command (MAX : nat)
    (get_token : list ascii → Z) (m : mngr) (es : list mngr_event) :
  let m' := mngr_run MAX get_token m es in
  startBooster m'
  = startBooster m
    || existsb (λ c, (c =? APP_BOOSTER_START)%Z) (consumed es (mailbox m)) ∧
  length (payload (lastProtocol m')) = length (payload (lastProtocol m)) ∧
  ∀ rnd, mailbox (mngr_loop get_token m' rnd) = None.
Proof.
  intros m'. destruct (mngr_run_spec MAX get_token es m) as (H1 & H2).
  split_and!; [exact H1|exact H2|].
  intros rnd. unfold mngr_loop, mailbox.
  destruct (lastProtocolValid m'); [|done].
  by destruct (_ =? _)%Z; destruct (negb _).
Qed.

(** ** Making and removing a directory *)

Lemma parent_snoc (p : list string) name : parent (p ++ [name]) = p.
Proof.
  unfold parent. rewrite length_app. simpl.
  replace (length p + 1 - 1) with (length p) by lia.
  by rewrite take_app_length.
Qed.

(** X22.  A directory made by [cgi_mkdir] can be removed again by
    [cgi_del], and the volume is then as it was.  On a volume where every
    entry lies in an existing directory, when a mkdir request is answered
    "created", the delete request with the same parameters is answered
    "deleted", and afterwards the volume holds exactly the entries and the
    free space it held before the mkdir request. *)
Theorem mkdir_then_del_restores_the_volume (st : state) (ps : params) :
  parents_exist (vol st) →
  json_buff (cgi_mkdir st ps) = JsonStatus "created" →
  let st' := cgi_del (cgi_mkdir st ps) ps in
  json_buff st' = JsonStatus "deleted" ∧ vol st' = vol st.
Proof.
  intros Hparents. unfold cgi_mkdir.
  destruct (param ps "folder") as [folder|] eqn:Hfolder; [|done].
  destruct (param ps "src") as [src|] eqn:Hsrc; [|done].
  destruct (decode_param folder 256) as [df|] eqn:Hdf; [|done].
  destruct (decode_param src 128) as [ds|] eqn:Hds; [|done].
  unfold f_mkdir. set (path := join_path 512 df ds).
  destruct (lookup_node (vol st) (split_path path)) as [n|] eqn:Hnode; [done|].
  destruct (lookup_node (vol st) (parent (split_path path))) as [[|]|] eqn:Hpar;
    try done.
  change (bool_decide (FR_OK ≠ FR_OK)) with false. cbn iota. intros _.
  assert (Hne : split_path path ≠ []).
  { intros E. rewrite E in Hnode. done. }
  assert (Hnone : entries (vol st) !! split_path path = None).
  { unfold lookup_node in Hnode. by destruct (split_path path). }
  unfold cgi_del. rewrite Hfolder, Hsrc, Hdf, Hds. fold path.
  cbn [vol set_json set_vol].
  rewrite (delete_path_empty_dir _ path Hne).
  - change (bool_decide (FR_OK = FR_DENIED)) with false.
    change (bool_decide (FR_OK ≠ FR_OK)) with false. cbn iota.
    split; [done|]. cbn [vol set_json set_vol set_entry entries free_bytes].
    rewrite delete_insert_id by done. by destruct (vol st).
  - simpl. by rewrite lookup_insert_eq.
  - intros name. simpl.
    rewrite lookup_insert_ne
      by (intros E; apply (f_equal length) in E; rewrite length_app in E;
          simpl in E; lia).
    destruct (entries (vol st) !! (split_path path ++ [name])) as [n|] eqn:Hn;
      [|done].
    specialize (Hparents _ _ Hn). cbn beta in Hparents.
    rewrite parent_snoc in Hparents. congruence.
Qed.

Lemma mkdir_then_del_restores_the_volume_witness :
  let st := init_state sample_volume in
  let ps := del_params "/docs" "new" in
  json_buff (cgi_del (cgi_mkdir st ps) ps) = JsonStatus "deleted" ∧
  vol (cgi_del (cgi_mkdir st ps) ps) = vol st.
Proof.
  apply (mkdir_then_del_restores_the_volume (init_state sample_volume)
           (del_params "/docs" "new")).
  - apply (bool_decide_unpack _). vm_compute. exact I.
  - vm_compute. reflexivity.
Defined.

(** ** A whole upload *)

Lemma base64_encode_grows l : 4 * length l ≤ length (base64_encode l) * 3.
Proof.
  induction l as [l IH] using (induction_ltof1 _ (@length ascii)).
  unfold ltof in IH.
  destruct l as [|a [|b [|c rest]]]; cbn [base64_encode length]; try lia.
  rewrite length_app. cbn [length].
  specialize (IH rest ltac:(simpl; lia)). lia.
Qed.

Lemma mbedtls_base64_decode_encode piece :
  mbedtls_base64_decode (length (base64_encode piece) * 3 / 4)
    (base64_encode piece) = (0%Z, piece).
Proof.
  unfold mbedtls_base64_decode. rewrite base64_decode_encode.
  assert (length piece ≤ length (base64_encode piece) * 3 / 4) as H.
  { apply Nat.div_le_lower_bound; [done|]. apply base64_encode_grows. }
  apply Nat.leb_le in H. by rewrite H.
Qed.

Lemma take_drop_ext {A} (l1 l2 : list A) a m :
  (∀ x, a ≤ x < a + m → l1 !! x = l2 !! x) →
  take m (drop a l1) = take m (drop a l2).
Proof.
  intros H. apply list_eq. intros i.
  destruct (decide (i < m)) as [Hi|Hi].
  - rewrite !lookup_take_lt, !lookup_drop by done. apply H. lia.
  - rewrite !lookup_take_ge by lia. done.
Qed.

(** A seek and a write that the volume has room for. *)
Lemma seek_write_room v f ofs buf data :
  file_data v f = Some data → has_flag (fil_flag f) FA_WRITE = true →
  ofs + length buf ≤ length data + free_bytes v →
  ∃ f2 v2 new,
    seek_write v f ofs buf = (FR_OK, length buf, f2, v2) ∧
    fil_valid f2 = true ∧ fil_path f2 = fil_path f ∧
    fil_flag f2 = fil_flag f ∧
    entries v2 = <[fil_path f := File new]> (entries v) ∧
    length new = length data `max` (ofs + length buf) ∧
    length new + free_bytes v2 = length data + free_bytes v.
Proof.
  intros Hd Hw Hroom. unfold seek_write.
  rewrite (f_lseek_write v f ofs data) by done. cbn zeta.
  set (g := (ofs - length data) `min` free_bytes v).
  assert (Hg : g = ofs - length data) by (unfold g; lia). clearbody g.
  set (data' := data ++ replicate g NUL).
  assert (Hlen' : length data' = length data + g)
    by (unfold data'; by rewrite length_app, length_replicate).
  replace (ofs `min` (length data + g)) with ofs by lia.
  rewrite (f_write_in_range _ _ buf data');
    cbn [fil_path fil_flag fptr entries free_bytes];
    [|apply file_data_Some; simpl; by rewrite lookup_insert_eq|done|lia].
  cbn zeta. rewrite Hlen'.
  replace (length buf `min` (length data + g - ofs + (free_bytes v - g)))
    with (length buf) by lia.
  eexists _, _, _. split; [reflexivity|]. cbn [fil_valid fil_path fil_flag
    entries free_bytes]. split_and!; try done.
  - by rewrite insert_insert_eq.
  - rewrite !length_app, length_take, length_drop, Hlen'.
    rewrite firstn_all. lia.
  - rewrite !length_app, length_take, length_drop, Hlen'.
    rewrite firstn_all. lia.
Qed.

Lemma pieces_data_S piece k :
  pieces_data piece (S k) = pieces_data piece k ++ piece k.
Proof.
  unfold pieces_data. rewrite seq_S, fmap_app, concat_app. simpl.
  by rewrite app_nil_r.
Qed.

Lemma pieces_data_le piece k n :
  k ≤ n → length (pieces_data piece k) ≤ length (pieces_data piece n).
Proof.
  induction 1 as [|m _ IH]; [done|].
  rewrite pieces_data_S, length_app. lia.
Qed.

Section Upload.

Variables (tok : string) (p : list string).
Variables (piece : nat → list ascii) (payload : nat → string) (n : nat).

Hypothesis full_pieces :
  ∀ k, S k < n → length (piece k) = Z.to_nat UPLOAD_CHUNK_SIZE.
Hypothesis total_fits : (Z.of_nat (length (pieces_data piece n)) ≤ INT_MAX)%Z.
Hypothesis payload_decodes :
  ∀ k, k < n →
    decode_param (payload k) (length (chars (payload k)) + 1)
    = Some (base64_encode (piece k)).

Lemma pieces_data_length k :
  k < n → length (pieces_data piece k) = k * Z.to_nat UPLOAD_CHUNK_SIZE.
Proof.
  induction k as [|k IH]; [done|]. intros Hk.
  rewrite pieces_data_S, length_app, IH, full_pieces by lia. lia.
Qed.

Lemma chunk_end k :
  k < n →
  k * Z.to_nat UPLOAD_CHUNK_SIZE + length (piece k)
  ≤ length (pieces_data piece n).
Proof.
  intros Hk. pose proof (pieces_data_le piece (S k) n ltac:(lia)) as H.
  rewrite pieces_data_S, length_app, pieces_data_length in H by done. done.
Qed.

(** One chunk request on an upload under way. *)
Lemma upload_chunk_step st data k :
  uploading st tok p (length (pieces_data piece n)) data → k < n →
  let st' := cgi_upload_chunk st (chunk_params tok (dec k) (payload k)) in
  json_buff st' = JsonStatus "chunk_ok" ∧
  ∃ data', uploading st' tok p (length (pieces_data piece n)) data' ∧
    ∀ j, j < n →
      j = k ∨ chunk_region j (length (piece j)) data = piece j →
      chunk_region j (length (piece j)) data' = piece j.
Proof.
  intros (i & Hf & Hv & Hp & Hw & He & Hl & Hfree) Hk.
  pose proof (chunk_end k Hk) as Hend.
  set (f := ctx_file (upload_contexts st) i) in *.
  assert (Hd : file_data (vol st) f = Some data).
  { apply file_data_Some. by rewrite Hp. }
  destruct (seek_write_room (vol st) f (k * Z.to_nat UPLOAD_CHUNK_SIZE)
              (piece k) data Hd Hw ltac:(lia))
    as (f2 & v2 & new & Hsw & Hv2 & Hp2 & Hfl2 & He2 & Hlen & Hfree2).
  assert (Hofs : Z.to_nat (u32 (atoi (chars (dec k)) * UPLOAD_CHUNK_SIZE))
                 = k * Z.to_nat UPLOAD_CHUNK_SIZE).
  { unfold UPLOAD_CHUNK_SIZE, INT_MAX in *.
    rewrite atoi_dec by (unfold INT_MAX; lia).
    unfold u32. rewrite Z.mod_small by lia. lia. }
  intros st'. unfold st'.
  rewrite (cgi_upload_chunk_eq st _ tok (dec k) (payload k) i
             (base64_encode (piece k)) (piece k));
    [|done|done|done|done|by apply payload_decodes
     |apply mbedtls_base64_decode_encode].
  rewrite Hofs. fold f. rewrite Hsw.
  change (bool_decide (FR_OK ≠ FR_OK)) with false. rewrite Nat.eqb_refl.
  cbn [orb negb]. split; [done|].
  destruct (seek_write_ok _ _ _ _ _ _ Hsw)
    as (old & new' & Hold & _ & He2' & _ & Hreg & Hkeep & _).
  assert (old = data) as -> by congruence.
  assert (new' = new) as ->.
  { assert (H : <[fil_path f := File new']> (entries (vol st)) !! fil_path f
                = <[fil_path f := File new]> (entries (vol st)) !! fil_path f)
      by (by rewrite <- He2', <- He2).
    rewrite !lookup_insert_eq in H. congruence. }
  exists new. split.
  - exists i. cbn [vol upload_contexts set_json set_vol set_uploads].
    unfold find_upload_ctx. cbn [upload_contexts set_json set_vol set_uploads].
    rewrite find_ctx_set_file.
    rewrite ctx_file_set_file by (by eapply find_ctx_lt).
    split_and!; try done; try congruence; try lia.
    rewrite He2, Hp. by rewrite lookup_insert_eq.
  - intros j Hj [->|Hreg_j]; [exact Hreg|].
    destruct (decide (j = k)) as [->|Hne]; [exact Hreg|].
    rewrite <- Hreg_j at 2. unfold chunk_region.
    apply take_drop_ext. intros x Hx.
    assert (Hlen_j : length (chunk_region j (length (piece j)) data)
                     = length (piece j)) by (by rewrite Hreg_j).
    unfold chunk_region in Hlen_j. rewrite length_take, length_drop in Hlen_j.
    apply Hkeep; [lia|].
    destruct (decide (j < k)) as [Hlt|Hge].
    + left. rewrite full_pieces in Hx by lia.
      assert (S j * Z.to_nat UPLOAD_CHUNK_SIZE ≤ k * Z.to_nat UPLOAD_CHUNK_SIZE)
        by (apply Nat.mul_le_mono_r; lia).
      lia.
    + right. rewrite full_pieces by lia.
      assert (S k * Z.to_nat UPLOAD_CHUNK_SIZE ≤ j * Z.to_nat UPLOAD_CHUNK_SIZE)
        by (apply Nat.mul_le_mono_r; lia).
      lia.
Qed.

(** The chunk requests of an upload, in any order. *)
Lemma upload_chunks_spec order :
  Forall (λ k, k < n) order →
  ∀ st data,
    uploading st tok p (length (pieces_data piece n)) data →
    (∃ data',
       uploading (serve st (chunk_requests tok payload order)) tok p
         (length (pieces_data piece n)) data' ∧
       ∀ j, j < n →
         j ∈ order ∨ chunk_region j (length (piece j)) data = piece j →
         chunk_region j (length (piece j)) data' = piece j) ∧
    ∀ m, 0 < m ≤ length order →
      json_buff (serve st (take m (chunk_requests tok payload order)))
      = JsonStatus "chunk_ok".
Proof.
  induction 1 as [|k order Hk _ IH]; intros st data Hup.
  - split; [|simpl; lia]. exists data. split; [done|].
    intros j _ [Hin|H]; [by apply elem_of_nil in Hin|done].
  - destruct (upload_chunk_step st data k Hup Hk) as (Hok & data1 & Hup1 & Hreg1).
    destruct (IH _ _ Hup1) as ((data2 & Hup2 & Hreg2) & Hjson).
    split.
    + exists data2. split; [exact Hup2|].
      intros j Hj Hcase. apply Hreg2; [done|].
      destruct Hcase as [Hin|H].
      * apply elem_of_cons in Hin as [->|Hin]; [|by left].
        right. apply Hreg1; auto.
      * right. apply Hreg1; auto.
    + intros m Hm. destruct m as [|m]; [lia|].
      cbn [chunk_requests fmap list_fmap take serve fold_left handle].
      destruct m as [|m]; [exact Hok|].
      apply (Hjson (S m)). simpl in Hm. lia.
Qed.

(** A file that holds every piece at its place, and nothing after the last
    one, is the pieces one after the other. *)
Lemma regions_give_data data :
  length data ≤ length (pieces_data piece n) →
  (∀ j, j < n → chunk_region j (length (piece j)) data = piece j) →
  data = pieces_data piece n.
Proof.
  intros Hlen Hreg.
  assert (H : ∀ m, m ≤ n →
            take (length (pieces_data piece m)) data = pieces_data piece m).
  { induction m as [|m IH]; intros Hm; [done|].
    rewrite pieces_data_S, length_app, <- take_take_drop, IH by lia.
    f_equal. rewrite pieces_data_length by lia. by apply Hreg. }
  rewrite <- (H n) by done. by rewrite take_ge.
Qed.

End Upload.

(** An accepted start request with a token that no transfer under way
    answers to. *)
Lemma upload_start_uploading st0 tok fullpath total :
  length (chars tok) ≤ 31 → find_upload_ctx st0 tok = None →
  let st1 := cgi_upload_start st0 (start_params tok fullpath) in
  json_buff st1 = JsonUploadStarted UPLOAD_CHUNK_SIZE UPLOAD_CHUNK_METHOD →
  total ≤ free_bytes (vol st1) →
  ∃ path, decode_param fullpath 256 = Some path ∧
          uploading st1 tok (split_path path) total [].
Proof.
  intros Hlen Hfresh. cbn zeta. unfold cgi_upload_start.
  change (param (start_params tok fullpath) "token") with (Some tok).
  change (param (start_params tok fullpath) "fullpath") with (Some fullpath).
  cbv beta iota.
  destruct (decode_param fullpath 256) as [path|]; [|done].
  unfold alloc_upload_ctx.
  destruct (alloc_ctx _ _) as [[i pool']|] eqn:Ha; [|done]. simpl.
  destruct (f_open _ _ _) as [[res fil] v] eqn:Ho.
  case_bool_decide as Hres; [done|]. intros _.
  assert (res = FR_OK) as -> by (by destruct res).
  apply f_open_created in Ho as (-> & Hentry & _).
  apply alloc_ctx_Some in Ha as (c & Hi & Hc & _ & ->).
  assert (Hlt : i < length (upload_contexts st0)) by (by eapply lookup_lt_Some).
  rewrite strncpy_str_short by done.
  cbn [vol upload_contexts set_json set_vol set_uploads]. intros Hroom.
  exists path. split; [done|]. exists i.
  unfold find_upload_ctx.
  cbn [vol upload_contexts set_json set_vol set_uploads].
  rewrite find_ctx_set_file, ctx_file_set_file by (by rewrite length_insert).
  split_and!; try done; [|simpl; lia].
  apply find_ctx_Some. eexists. split; [by apply list_lookup_insert_eq|].
  split_and!; try done. intros j cj Hj Hji.
  rewrite list_lookup_insert_ne in Hj by lia.
  unfold find_upload_ctx in Hfresh. rewrite find_ctx_None in Hfresh.
  by eapply Hfresh.
Qed.

(** X23.  The chunks of an upload may arrive in any order and more than
    once.  After an accepted start request with a token of at most 31
    characters that no upload under way answers to, let the data be cut
    into [n] pieces, all but the last of 4096 bytes, let the payload of
    chunk [k] decode to the base64 text of piece [k], and let the volume
    have room for the data.  When the chunk requests arrive in an order
    in which every index below [n] occurs at least once, each of them is
    answered "chunk_ok", the end request is answered "completed", and the
    file at the decoded path holds exactly the data. *)
Theorem chunks_in_any_order_store_the_data (st0 : state)
    (tok fullpath : string) (piece : nat → list ascii)
    (payload : nat → string) (n : nat) (order : list nat) :
  length (chars tok) ≤ 31 → find_upload_ctx st0 tok = None →
  let st1 := cgi_upload_start st0 (start_params tok fullpath) in
  json_buff st1 = JsonUploadStarted UPLOAD_CHUNK_SIZE UPLOAD_CHUNK_METHOD →
  (∀ k, S k < n → length (piece k) = Z.to_nat UPLOAD_CHUNK_SIZE) →
  (∀ k, k < n →
     decode_param (payload k) (length (chars (payload k)) + 1)
     = Some (base64_encode (piece k))) →
  length (pieces_data piece n) ≤ free_bytes (vol st1) →
  (Z.of_nat (length (pieces_data piece n)) ≤ INT_MAX)%Z →
  (∀ k, k < n ↔ k ∈ order) →
  let reqs := chunk_requests tok payload order in
  let st2 := serve st1 (reqs ++ [UploadEnd [("token", Some tok)]]) in
  (∀ m, 0 < m ≤ length order →
     json_buff (serve st1 (take m reqs)) = JsonStatus "chunk_ok") ∧
  json_buff st2 = JsonStatus "completed" ∧
  ∃ path, decode_param fullpath 256 = Some path ∧
          entries (vol st2) !! split_path path
          = Some (File (pieces_data piece n)).
Proof.
  intros Hlen Hfresh st1 Hstart Hfull Hpay Hroom Hfits Horder reqs st2.
  destruct (upload_start_uploading st0 tok fullpath _ Hlen Hfresh Hstart Hroom)
    as (path & Hpath & Hup).
  assert (Hall : Forall (λ k, k < n) order).
  { apply Forall_forall. intros k Hk. by apply Horder. }
  destruct (upload_chunks_spec tok (split_path path) piece payload n
              Hfull Hfits Hpay order Hall _ _ Hup)
    as ((data & (i & Hf & _ & _ & _ & He & Hl & _) & Hreg) & Hjson).
  split; [exact Hjson|].
  assert (data = pieces_data piece n) as ->.
  { apply (regions_give_data piece n Hfull); [done|].
    intros j Hj. apply Hreg; [done|]. left. by apply Horder. }
  assert (Hend : handle (serve st1 reqs) (UploadEnd [("token", Some tok)])
                 = set_json (free_upload_ctx (serve st1 reqs) i)
                     (JsonStatus "completed")).
  { cbn [handle]. unfold cgi_upload_end.
    change (param [("token", Some tok)] "token") with (Some tok).
    cbv beta iota zeta. unfold reqs, st1. by rewrite Hf. }
  unfold st2, serve. rewrite fold_left_app. fold (serve st1 reqs).
  cbn [fold_left]. rewrite Hend. split; [done|].
  exists path. split; [done|]. exact He.
Qed.

Lemma chunks_in_any_order_store_the_data_witness :
  let st1 :=
    cgi_upload_start (init_state (Volume ∅ 5000)) (start_params "up" "/up.bin") in
  let piece k := if k =? 0 then replicate 4096 "z"%char else chars "hi" in
  let payload k :=
    if k =? 0 then text (base64_encode (replicate 4096 "z"%char))
    else "aGk%3D" in
  let reqs := chunk_requests "up" payload [1; 0; 1] in
  let st2 := serve st1 (reqs ++ [UploadEnd [("token", Some "up")]]) in
  (∀ m, 0 < m ≤ 3 →
     json_buff (serve st1 (take m reqs)) = JsonStatus "chunk_ok") ∧
  json_buff st2 = JsonStatus "completed" ∧
  ∃ path, decode_param "/up.bin" 256 = Some path ∧
          entries (vol st2) !! split_path path
          = Some (File (pieces_data piece 2)).
Proof.
  apply (chunks_in_any_order_store_the_data (init_state (Volume ∅ 5000))
           "up" "/up.bin"
           (λ k, if k =? 0 then replicate 4096 "z"%char else chars "hi")
           (λ k, if k =? 0 then text (base64_encode (replicate 4096 "z"%char))
                 else "aGk%3D")
           2 [1; 0; 1]).
  - simpl. lia.
  - reflexivity.
  - reflexivity.
  - intros k Hk. assert (k = 0) as -> by lia. reflexivity.
  - intros k Hk. destruct k as [|[|k]]; [vm_compute; reflexivity ..|lia].
  - vm_compute. lia.
  - vm_compute. discriminate.
  - intros k. rewrite !elem_of_cons, elem_of_nil. lia.
Defined.

(** ** Joining the WiFi network *)

Lemma failures_cons e rest :
  failures (e :: rest) = (if bool_decide (e < 0)%Z then 1 else 0) + failures rest.
Proof.
  unfold failures. rewrite filter_cons.
  case_bool_decide; by destruct (decide _).
Qed.

Lemma connect_loop_spec ok results : ∀ err r,
  (0 ≤ ok)%Z → err ≠ ok → (1 ≤ r)%Z →
  match connect_loop ok err r results with
  | Connected =>
    ∃ pre post, results = pre ++ ok :: post ∧ (ok ∉ pre) ∧
                (Z.of_nat (failures pre) < r)%Z
  | GaveUp e =>
    ∃ pre post, results = pre ++ e :: post ∧ (e < 0)%Z ∧ (ok ∉ pre) ∧
                Z.of_nat (failures pre) = (r - 1)%Z
  | Pending => (ok ∉ results) ∧ (Z.of_nat (failures results) < r)%Z
  end.
Proof.
  induction results as [|e rest IH]; intros err r Hok Herr Hr;
    cbn [connect_loop].
  - apply Z.eqb_neq in Herr. rewrite Herr.
    split; [apply not_elem_of_nil|]. unfold failures. simpl. lia.
  - apply Z.eqb_neq in Herr. rewrite Herr.
    destruct (e <? 0)%Z eqn:Hneg.
    + apply Z.ltb_lt in Hneg.
      destruct (r - 1 <=? 0)%Z eqn:Hlast.
      * apply Z.leb_le in Hlast. exists [], rest.
        split_and!; [done|done|apply not_elem_of_nil|unfold failures; simpl; lia].
      * apply Z.leb_gt in Hlast.
        specialize (IH e (r - 1)%Z Hok ltac:(lia) ltac:(lia)).
        destruct (connect_loop ok e (r - 1) rest) as [|e'|].
        -- destruct IH as (pre & post & -> & Hpre & Hf).
           exists (e :: pre), post. split_and!; [done| |].
           ++ rewrite not_elem_of_cons. split; [lia|done].
           ++ rewrite failures_cons, bool_decide_eq_true_2 by done. lia.
        -- destruct IH as (pre & post & -> & He' & Hpre & Hf).
           exists (e :: pre), post. split_and!; [done|done| |].
           ++ rewrite not_elem_of_cons. split; [lia|done].
           ++ rewrite failures_cons, bool_decide_eq_true_2 by done. lia.
        -- destruct IH as (Hrest & Hf). split.
           ++ rewrite not_elem_of_cons. split; [lia|done].
           ++ rewrite failures_cons, bool_decide_eq_true_2 by done. lia.
    + apply Z.ltb_ge in Hneg.
      destruct (decide (e = ok)) as [->|Hne].
      * destruct rest; cbn [connect_loop]; rewrite Z.eqb_refl;
          exists []; eexists; (split_and!;
            [reflexivity|apply not_elem_of_nil|unfold failures; simpl; lia]).
      * specialize (IH e r Hok Hne Hr).
        destruct (connect_loop ok e r rest) as [|e'|].
        -- destruct IH as (pre & post & -> & Hpre & Hf).
           exists (e :: pre), post. split_and!; [done| |].
           ++ rewrite not_elem_of_cons. split; [congruence|done].
           ++ rewrite failures_cons, bool_decide_eq_false_2 by lia. lia.
        -- destruct IH as (pre & post & -> & He' & Hpre & Hf).
           exists (e :: pre), post. split_and!; [done|done| |].
           ++ rewrite not_elem_of_cons. split; [congruence|done].
           ++ rewrite failures_cons, bool_decide_eq_false_2 by lia. lia.
        -- destruct IH as (Hrest & Hf). split.
           ++ rewrite not_elem_of_cons. split; [congruence|done].
           ++ rewrite failures_cons, bool_decide_eq_false_2 by lia. lia.
Qed.

(** X24.  [mngr_init] gives up on the WiFi network at the third failed
    attempt and not before.  With a connected status that is not negative
    and differs from the timeout status the loop starts from: when the
    loop makes [mngr_init] return an error, that error is a negative
    result of [network_wifiStaConnect] with exactly two negative results
    and no connected status before it; when it ends with the network
    joined, at most two negative results came before the connected
    status; and a status that is neither negative nor the connected one
    is tried again without being counted. *)
Theorem wifi_gives_up_at_third_failure (ok timeout : Z) (results : list Z) :
  (0 ≤ ok)%Z → timeout ≠ ok →
  match wifi_connect ok timeout results with
  | Connected =>
    ∃ pre post, results = pre ++ ok :: post ∧ (ok ∉ pre) ∧ failures pre ≤ 2
  | GaveUp e =>
    ∃ pre post, results = pre ++ e :: post ∧ (e < 0)%Z ∧ (ok ∉ pre) ∧
                failures pre = 2
  | Pending => (ok ∉ results) ∧ failures results ≤ 2
  end.
Proof.
  intros Hok Hne. unfold wifi_connect.
  pose proof (connect_loop_spec ok results timeout 3 Hok Hne ltac:(lia)) as H.
  destruct (connect_loop ok timeout 3 results) as [|e|].
  - destruct H as (pre & post & ? & ? & ?). exists pre, post.
    split_and!; [done|done|lia].
  - destruct H as (pre & post & ? & ? & ? & ?). exists pre, post.
    split_and!; [done|done|done|lia].
  - destruct H as [? ?]. split; [done|lia].
Qed.

Lemma wifi_gives_up_at_third_failure_witness :
  wifi_connect 0 (-1) [-2; 1; -3; 1; -4; 0]%Z = GaveUp (-4) ∧
  ∃ pre post, [-2; 1; -3; 1; -4; 0]%Z = pre ++ (-4)%Z :: post ∧ (-4 < 0)%Z ∧
              ((0 : Z) ∉ pre) ∧ failures pre = 2.
Proof.
  split; [reflexivity|].
  exact (wifi_gives_up_at_third_failure 0 (-1) [-2; 1; -3; 1; -4; 0]%Z
           ltac:(lia) ltac:(lia)).
Defined.
